(** * Verification of the ORCA block transformer, dataset mixtures and bin tokenizer

    Shallow embedding of
    - [orca/model/components/block_transformer.py]  (modules [Np], [BlockTransformer])
    - [orca/data/oxe/oxe_dataset_mixes.py]          (module [OxeMixes])
    - [orca/model/components/tokenizers.py]         (modules [BinTokenizer], [ImageTokenizer])

    Python exceptions are modelled by the [result] type, tensors by their
    shape together with an indexing function, Python [int]s that can be
    negative by [Z], sizes and positions by [nat]. *)

From Stdlib Require Import List ZArith Lia String Bool Arith PeanoNat QArith Qminmax Lqa.
From Stdlib Require Import Sorted Permutation.
From Stdlib Require OrderedTypeEx.
Import ListNotations.

Close Scope Q_scope.
Open Scope nat_scope.

Set Implicit Arguments.

(* ================================================================== *)
(** * Part I: definitions                                              *)
(* ================================================================== *)

(** ** Exceptions *)

Inductive exn : Type :=
| IndexError
| AssertionError
| ValueError
| KeyError
| ZeroDivisionError
| EinopsError.

Inductive result (A : Type) : Type :=
| Ok (a : A)
| Raise (e : exn).

Arguments Ok {A} a.
Arguments Raise {A} e.

Definition bind {A B : Type} (c : result A) (k : A -> result B) : result B :=
  match c with
  | Ok a => k a
  | Raise e => Raise e
  end.

Notation "x <- c ;; k" := (bind c (fun x => k))
  (at level 61, c at next level, right associativity).
Notation "' pat <- c ;; k" := (bind c (fun x => match x with pat => k end))
  (at level 61, pat pattern, c at next level, right associativity).

(** [xs[k]] for a Python list and a non-negative index. *)
Definition getitem {A : Type} (xs : list A) (k : nat) : result A :=
  match nth_error xs k with
  | Some x => Ok x
  | None => Raise IndexError
  end.

(** [divmod(a, b)] on non-negative integers. *)
Definition divmod (a b : nat) : result (nat * nat) :=
  match b with
  | O => Raise ZeroDivisionError
  | S _ => Ok (a / b, a mod b)
  end.

(** [for x in xs: s = body(x, s)], stopping at the first exception. *)
Fixpoint for_each {S : Type} (xs : list nat) (body : nat -> S -> result S) (s : S)
  : result S :=
  match xs with
  | [] => Ok s
  | x :: xs' =>
      match body x s with
      | Ok s' => for_each xs' body s'
      | Raise e => Raise e
      end
  end.

(** [sum(xs)] *)
Definition sum (xs : list nat) : nat := fold_left Nat.add xs 0.

Fixpoint list_nat_eqb (xs ys : list nat) : bool :=
  match xs, ys with
  | [], [] => true
  | x :: xs', y :: ys' => (x =? y) && list_nat_eqb xs' ys'
  | _, _ => false
  end.

(** ** The array operations of numpy / jax.numpy / einops that the source calls *)

Module Np.

(** An n-dimensional array: its shape and the element at each index.
    [item] is only meaningful at indices inside [shape]. *)
Record ndarray (A : Type) : Type := mk_ndarray {
  shape : list nat;
  item : list nat -> A
}.

Definition ndim {A} (a : ndarray A) : nat := List.length (shape a).

(** [a.shape[k]] *)
Definition shape_at {A} (a : ndarray A) (k : nat) : result nat :=
  getitem (shape a) k.

(** [a.shape[-1]] *)
Definition shape_last {A} (a : ndarray A) : result nat :=
  match rev (shape a) with
  | n :: _ => Ok n
  | [] => Raise IndexError
  end.

(** [np.cumsum(xs)] *)
Fixpoint cumsum_from (acc : nat) (xs : list nat) : list nat :=
  match xs with
  | [] => []
  | x :: xs' => (acc + x) :: cumsum_from (acc + x) xs'
  end.

Definition cumsum (xs : list nat) : list nat := cumsum_from 0 xs.

(** [np.searchsorted(a, v)] with the default [side='left']: the first
    index [k] with [v <= a[k]] ([len(a)] when there is none). *)
Fixpoint searchsorted (a : list nat) (v : nat) : nat :=
  match a with
  | [] => 0
  | x :: a' => if v <=? x then 0 else S (searchsorted a' v)
  end.

(** [np.zeros(shape, dtype=int)], [jnp.ones(shape, dtype=int)] *)
Definition zeros (sh : list nat) : ndarray Z := mk_ndarray sh (fun _ => 0%Z).
Definition ones (sh : list nat) : ndarray Z := mk_ndarray sh (fun _ => 1%Z).

(** [jnp.zeros(shape, dtype=jnp.float32)] over an abstract float type. *)
Definition fzeros {A} (zero : A) (sh : list nat) : ndarray A :=
  mk_ndarray sh (fun _ => zero).

(** [a[i, j] = v] on a rank-2 array. *)
Definition setitem2 {A} (a : ndarray A) (i j : nat) (v : A) : result (ndarray A) :=
  match shape a with
  | [n; m] =>
      if (i <? n) && (j <? m)
      then Ok (mk_ndarray [n; m]
                 (fun idx => if list_nat_eqb idx [i; j] then v else item a idx))
      else Raise IndexError
  | _ => Raise IndexError
  end.

(** [a.astype(int)] on a boolean array; also the promotion of [bool]
    to [int] when a boolean array is concatenated with an integer one. *)
Definition astype_int (a : ndarray bool) : ndarray Z :=
  mk_ndarray (shape a) (fun idx => if item a idx then 1%Z else 0%Z).

(** [jnp.repeat(a, repeats, axis=1)]: every element along axis 1 is
    repeated [repeats] times in place. *)
Definition repeat_axis1 {A} (a : ndarray A) (repeats : nat) : result (ndarray A) :=
  match shape a with
  | d0 :: d1 :: rest =>
      Ok (mk_ndarray (d0 :: d1 * repeats :: rest)
            (fun idx =>
               match idx with
               | i0 :: i1 :: irest => item a (i0 :: i1 / repeats :: irest)
               | _ => item a idx
               end))
  | _ => Raise ValueError
  end.

(** Replace / read the entry of a shape or index at position [axis]. *)
Fixpoint set_nth (xs : list nat) (axis : nat) (v : nat) : list nat :=
  match xs, axis with
  | [], _ => []
  | _ :: xs', O => v :: xs'
  | x :: xs', S k => x :: set_nth xs' k v
  end.

(** Two shapes agree everywhere except (possibly) at [axis]. *)
Definition same_off_axis (axis : nat) (s1 s2 : list nat) : bool :=
  list_nat_eqb (set_nth s1 axis 0) (set_nth s2 axis 0).

Fixpoint concat_item {A} (a : ndarray A) (rest : list (ndarray A)) (axis : nat)
         (idx : list nat) : A :=
  match rest with
  | [] => item a idx
  | a' :: rest' =>
      let n := nth axis (shape a) 0 in
      let k := nth axis idx 0 in
      if k <? n then item a idx
      else concat_item a' rest' axis (set_nth idx axis (k - n))
  end.

(** [jnp.concatenate(arrays, axis)]: needs at least one array, an axis
    inside the rank, and equal dimensions off the axis. *)
Definition concatenate {A} (arrays : list (ndarray A)) (axis : nat)
  : result (ndarray A) :=
  match arrays with
  | [] => Raise ValueError
  | a :: rest =>
      if (axis <? ndim a)
         && forallb (fun b => same_off_axis axis (shape a) (shape b)) rest
      then Ok (mk_ndarray
                 (set_nth (shape a) axis
                    (sum (map (fun b => nth axis (shape b) 0) arrays)))
                 (concat_item a rest axis))
      else Raise ValueError
  end.

(** [a[..., start:stop, ...]] along [axis] (as [lax.slice]: the bounds
    must satisfy [start <= stop <= a.shape[axis]]). *)
Definition slice_axis {A} (a : ndarray A) (axis start stop : nat)
  : result (ndarray A) :=
  if (axis <? ndim a) && (start <=? stop) && (stop <=? nth axis (shape a) 0)
  then Ok (mk_ndarray (set_nth (shape a) axis (stop - start))
             (fun idx => item a (set_nth idx axis (nth axis idx 0 + start))))
  else Raise ValueError.

Fixpoint split_from {A} (a : ndarray A) (axis start : nat) (indices : list nat)
  : result (list (ndarray A)) :=
  match indices with
  | [] =>
      piece <- slice_axis a axis start (nth axis (shape a) 0) ;;
      Ok [piece]
  | stop :: indices' =>
      piece <- slice_axis a axis start stop ;;
      pieces <- split_from a axis stop indices' ;;
      Ok (piece :: pieces)
  end.

(** [jnp.split(ary, indices, axis)]: the pieces [[0:i1], [i1:i2], ..., [ik:]]. *)
Definition split {A} (ary : ndarray A) (indices : list nat) (axis : nat)
  : result (list (ndarray A)) :=
  split_from ary axis 0 indices.

(** [einops.rearrange(a, "batch horizon n_tokens d -> batch (horizon n_tokens) d")] *)
Definition rearrange_fold {A} (a : ndarray A) : result (ndarray A) :=
  match shape a with
  | [b; h; n; d] =>
      Ok (mk_ndarray [b; h * n; d]
            (fun idx =>
               match idx with
               | [ib; k; id] => item a [ib; k / n; k mod n; id]
               | _ => item a idx
               end))
  | _ => Raise EinopsError
  end.

(** [einops.rearrange(a, "batch (horizon n_tokens) d -> batch horizon n_tokens d",
    horizon=horizon)]: the length of axis 1 must be a multiple of [horizon]. *)
Definition rearrange_unfold {A} (a : ndarray A) (horizon : nat) : result (ndarray A) :=
  match shape a with
  | [b; l; d] =>
      match horizon with
      | O => Raise ZeroDivisionError
      | S _ =>
          if l mod horizon =? 0
          then let n := l / horizon in
               Ok (mk_ndarray [b; horizon; n; d]
                     (fun idx =>
                        match idx with
                        | [ib; t; k; id] => item a [ib; t * n + k; id]
                        | _ => item a idx
                        end))
          else Raise EinopsError
      end
  | _ => Raise EinopsError
  end.

(** [jnp.broadcast_to(full_mask[:, None, None, :], (b, heads, n, n))]
    for a rank-2 [full_mask] of shape [(b, n)]. *)
Definition broadcast_keys {A} (full_mask : ndarray A) (target : list nat)
  : result (ndarray A) :=
  match shape full_mask, target with
  | [b; n], [b'; _; _; n'] =>
      if (b =? b') && (n =? n')
      then Ok (mk_ndarray target
                 (fun idx =>
                    match idx with
                    | [ib; _; _; j] => item full_mask [ib; j]
                    | _ => item full_mask idx
                    end))
      else Raise ValueError
  | _, _ => Raise ValueError
  end.

(** Truth value of an integer entry. *)
Definition truthy (z : Z) : bool := negb (Z.eqb z 0).

(** [jnp.logical_and(m, p)] for [m] of shape [(n, n)] broadcast against
    [p] of shape [(b, heads, n, n)]; an integer is true when non-zero. *)
Definition logical_and_2_4 (m p : ndarray Z) : result (ndarray bool) :=
  match shape m, shape p with
  | [n1; n2], [b; h; n1'; n2'] =>
      if ((n1 =? n1') || (n1 =? 1) || (n1' =? 1))
         && ((n2 =? n2') || (n2 =? 1) || (n2' =? 1))
      then Ok (mk_ndarray [b; h; Nat.max n1 n1'; Nat.max n2 n2']
                 (fun idx =>
                    match idx with
                    | [ib; ih; i; j] =>
                        truthy (item m [if n1 =? 1 then 0 else i;
                                        if n2 =? 1 then 0 else j])
                        && truthy (item p [ib; ih;
                                           if n1' =? 1 then 0 else i;
                                           if n2' =? 1 then 0 else j])
                    | _ => false
                    end))
      else Raise ValueError
  | _, _ => Raise ValueError
  end.

End Np.

Import Np.

(** ** block_transformer.py: the token group model *)

Module PrefixGroup.
Record t (A : Type) : Type := mk {
  name : string;
  tokens : ndarray A;   (* shape (batch, n_tokens, token_embedding_size) *)
  attends_to : list string
}.

(** [__post_init__]: [assert self.tokens.ndim == 3] *)
Definition __post_init__ {A} (g : t A) : result (t A) :=
  if ndim (tokens g) =? 3 then Ok g else Raise AssertionError.

(** [dataclasses.replace(group, tokens=embeddings)] builds a new instance,
    which runs [__post_init__] again. *)
Definition replace {A} (g : t A) (embeddings : ndarray A) : result (t A) :=
  __post_init__ (mk (name g) embeddings (attends_to g)).
End PrefixGroup.

Module TimestepGroup.
Record t (A : Type) : Type := mk {
  name : string;
  tokens : ndarray A;   (* shape (batch, horizon, n_tokens, token_embedding_size) *)
  attends_to : list string
}.

(** [__post_init__]: [assert self.tokens.ndim == 4] *)
Definition __post_init__ {A} (g : t A) : result (t A) :=
  if ndim (tokens g) =? 4 then Ok g else Raise AssertionError.

Definition replace {A} (g : t A) (embeddings : ndarray A) : result (t A) :=
  __post_init__ (mk (name g) embeddings (attends_to g)).
End TimestepGroup.

Module TokenMetadata.
(** Useful metadata for computing attention masks *)
Record t : Type := mk {
  group_name : string;
  timestep : Z;          (* -1 for prefix tokens *)
  attends_to : list string
}.
End TokenMetadata.

(** [name in names] *)
Definition str_in (s : string) (names : list string) : bool :=
  existsb (String.eqb s) names.

(** Python's [int(b)] *)
Definition int_of_bool (b : bool) : Z := if b then 1%Z else 0%Z.

(** [[f(x) for x in xs]] where [f] may raise. *)
Fixpoint mapM {A B : Type} (f : A -> result B) (xs : list A) : result (list B) :=
  match xs with
  | [] => Ok []
  | x :: xs' =>
      y <- f x ;;
      ys <- mapM f xs' ;;
      Ok (y :: ys)
  end.

(** ** Calls with observable effects: the events of a forward pass *)

Inductive event : Type :=
| LogWarning (msg : string)
| LogGroup (kind name : string) (shape : list nat) (attends_to : list string)
| CallGenerateAttentionMask
| CallTransformer.

(** A computation that emits events and then returns or raises. *)
Definition traced (A : Type) : Type := (list event * result A)%type.

Definition tbind {A B : Type} (c : traced A) (k : A -> traced B) : traced B :=
  match c with
  | (tr, Ok a) => let (tr', r) := k a in (tr ++ tr', r)
  | (tr, Raise e) => (tr, Raise e)
  end.

Definition lift {A : Type} (c : result A) : traced A := ([], c).
Definition emit (e : event) : traced unit := ([e], Ok tt).

Notation "x <~ c ;; k" := (tbind c (fun x => k))
  (at level 61, c at next level, right associativity).
Notation "c ;;; k" := (tbind c (fun _ => k))
  (at level 61, right associativity).

Fixpoint for_each_emit {A : Type} (f : A -> event) (xs : list A) : traced unit :=
  match xs with
  | [] => lift (Ok tt)
  | x :: xs' => emit (f x) ;;; for_each_emit f xs'
  end.

(** ** block_transformer.py: [split_tokens] and [BlockTransformer] *)

Definition split_tokens {A} (ary : ndarray A) (n_tokens_per_group : list nat)
           (axis : nat) : result (list (ndarray A)) :=
  let cumsum := Np.cumsum n_tokens_per_group in
  Np.split ary cumsum axis.

Module BlockTransformer.

(** [_get_position], local to [generate_attention_mask] *)
Definition _get_position (i : nat) (tokens_per_elem : list nat) : nat :=
  searchsorted (cumsum tokens_per_elem) i.

(** [get_token_description], local to [generate_attention_mask]; the
    variables it closes over are passed explicitly. *)
Definition get_token_description {A}
           (prefix_groups : list (PrefixGroup.t A))
           (timestep_groups : list (TimestepGroup.t A))
           (tokens_per_prefix_group tokens_per_timestep_group : list nat)
           (tokens_for_prefix tokens_per_time_step : nat)
           (i : nat) : result TokenMetadata.t :=
  if i <? tokens_for_prefix then
    let position := _get_position i tokens_per_prefix_group in
    group <- getitem prefix_groups position ;;
    Ok (TokenMetadata.mk (PrefixGroup.name group) (-1)
          (PrefixGroup.attends_to group))
  else
    let i := i - tokens_for_prefix in
    '(timestep, i) <- divmod i tokens_per_time_step ;;
    let position := _get_position i tokens_per_timestep_group in
    group <- getitem timestep_groups position ;;
    Ok (TokenMetadata.mk (TimestepGroup.name group) (Z.of_nat timestep)
          (TimestepGroup.attends_to group)).

(** The body of the double loop: the value stored at [attention_mask[i, j]]. *)
Definition mask_value (description_i description_j : TokenMetadata.t) : Z :=
  if String.eqb (TokenMetadata.group_name description_i)
                (TokenMetadata.group_name description_j)
  then int_of_bool (TokenMetadata.timestep description_i
                    <=? TokenMetadata.timestep description_j)%Z
  else if str_in (TokenMetadata.group_name description_j)
                 (TokenMetadata.attends_to description_i)
  then int_of_bool (TokenMetadata.timestep description_i
                    <=? TokenMetadata.timestep description_j)%Z
  else 0%Z.

(** [attention_mask = np.zeros(...)] followed by the double loop
    [for i in range(total_tokens): for j in range(total_tokens): ...]. *)
Definition fill_attention_mask (describe : nat -> result TokenMetadata.t)
           (total_tokens : nat) : result (ndarray Z) :=
  let attention_mask := zeros [total_tokens; total_tokens] in
  for_each (seq 0 total_tokens)
    (fun i attention_mask =>
       for_each (seq 0 total_tokens)
         (fun j attention_mask =>
            description_i <- describe i ;;
            description_j <- describe j ;;
            let mask := mask_value description_i description_j in
            setitem2 attention_mask i j mask)
         attention_mask)
    attention_mask.

Definition generate_pad_attention_mask (num_attention_heads : nat)
           (pad_mask : ndarray bool)
           (tokens_per_time_step tokens_for_prefix : nat) : result (ndarray Z) :=
  horizon <- shape_at pad_mask 1 ;;
  let total_tokens := tokens_for_prefix + tokens_per_time_step * horizon in
  sequence_mask <- repeat_axis1 pad_mask tokens_per_time_step ;;
  batch <- shape_at pad_mask 0 ;;
  let task_mask := ones [batch; tokens_for_prefix] in
  full_mask <- concatenate [task_mask; astype_int sequence_mask] 1 ;;
  batch' <- shape_at full_mask 0 ;;
  broadcast_keys full_mask
    [batch'; num_attention_heads; total_tokens; total_tokens].

(** The part of [generate_attention_mask] before the padding is applied:
    the group/causal mask together with the two token counts. *)
Definition group_attention_mask {A}
           (prefix_groups : list (PrefixGroup.t A))
           (timestep_groups : list (TimestepGroup.t A))
           (pad_mask : ndarray bool) : result (ndarray Z * nat * nat) :=
  horizon <- shape_at pad_mask 1 ;;
  tokens_per_prefix_group <-
    mapM (fun group => shape_at (PrefixGroup.tokens group) 1) prefix_groups ;;
  tokens_per_timestep_group <-
    mapM (fun group => shape_at (TimestepGroup.tokens group) 2) timestep_groups ;;
  let tokens_for_prefix := sum tokens_per_prefix_group in
  let tokens_per_time_step := sum tokens_per_timestep_group in
  let total_tokens := tokens_for_prefix + tokens_per_time_step * horizon in
  attention_mask <-
    fill_attention_mask
      (get_token_description prefix_groups timestep_groups
         tokens_per_prefix_group tokens_per_timestep_group
         tokens_for_prefix tokens_per_time_step)
      total_tokens ;;
  Ok (attention_mask, tokens_per_time_step, tokens_for_prefix).

Definition generate_attention_mask {A} (num_attention_heads : nat)
           (prefix_groups : list (PrefixGroup.t A))
           (timestep_groups : list (TimestepGroup.t A))
           (pad_mask : ndarray bool) : result (ndarray bool) :=
  '(attention_mask, tokens_per_time_step, tokens_for_prefix) <-
    group_attention_mask prefix_groups timestep_groups pad_mask ;;
  pad_attention_mask <-
    generate_pad_attention_mask num_attention_heads pad_mask
      tokens_per_time_step tokens_for_prefix ;;
  logical_and_2_4 attention_mask pad_attention_mask.

Definition assemble_input_tokens {A} (zero : A)
           (prefix_groups : list (PrefixGroup.t A))
           (timestep_groups : list (TimestepGroup.t A)) : result (ndarray A) :=
  all_prefix_tokens <-
    (if 0 <? List.length prefix_groups
     then concatenate (map (@PrefixGroup.tokens A) prefix_groups) 1
     else
       first <- getitem timestep_groups 0 ;;
       batch <- shape_at (TimestepGroup.tokens first) 0 ;;
       d <- shape_last (TimestepGroup.tokens first) ;;
       Ok (fzeros zero [batch; 0; d])) ;;
  all_timestep_tokens <-
    concatenate (map (@TimestepGroup.tokens A) timestep_groups) 2 ;;
  all_timestep_tokens <- rearrange_fold all_timestep_tokens ;;
  concatenate [all_prefix_tokens; all_timestep_tokens] 1.

(** The part of [__call__] after the transformer: splitting its output
    back into groups (lines 130-161). *)
Definition disassemble {A}
           (prefix_groups : list (PrefixGroup.t A))
           (timestep_groups : list (TimestepGroup.t A))
           (horizon : nat) (output : ndarray A)
  : result (list (PrefixGroup.t A) * list (TimestepGroup.t A)) :=
  tokens_per_prefix_group <-
    mapM (fun group => shape_at (PrefixGroup.tokens group) 1) prefix_groups ;;
  let n_prefix_tokens := sum tokens_per_prefix_group in
  parts <- Np.split output [n_prefix_tokens] 1 ;;
  match parts with
  | [prefix_embeddings; timestep_embeddings] =>
      all_prefix_outputs <-
        (if 0 <? List.length prefix_groups
         then
           prefix_embeddings_split <-
             split_tokens prefix_embeddings tokens_per_prefix_group 1 ;;
           mapM (fun '(group, embeddings) => PrefixGroup.replace group embeddings)
                (combine prefix_groups prefix_embeddings_split)
         else Ok []) ;;
      timestep_embeddings <- rearrange_unfold timestep_embeddings horizon ;;
      tokens_per_timestep_group <-
        mapM (fun group => shape_at (TimestepGroup.tokens group) 2)
             timestep_groups ;;
      timestep_embeddings_split <-
        split_tokens timestep_embeddings tokens_per_timestep_group 2 ;;
      all_timestep_outputs <-
        mapM (fun '(group, embeddings) => TimestepGroup.replace group embeddings)
             (combine timestep_groups timestep_embeddings_split) ;;
      Ok (all_prefix_outputs, all_timestep_outputs)
  | _ => Raise ValueError
  end.

(** [horizon = timestep_groups[0].tokens.shape[1]] and the assertion that
    every timestep group has that horizon (lines 112-113). *)
Definition check_horizon {A} (timestep_groups : list (TimestepGroup.t A))
  : result nat :=
  first <- getitem timestep_groups 0 ;;
  horizon <- shape_at (TimestepGroup.tokens first) 1 ;;
  same <- mapM (fun group =>
                  h <- shape_at (TimestepGroup.tokens group) 1 ;;
                  Ok (h =? horizon))
               timestep_groups ;;
  if forallb (fun b => b) same then Ok horizon else Raise AssertionError.

(** [BlockTransformer.__call__].  The external [Transformer] module is the
    parameter [transformer]. *)
Definition __call__ {A} (num_attention_heads : nat) (zero : A)
           (transformer : ndarray A -> ndarray bool -> bool -> result (ndarray A))
           (prefix_groups : list (PrefixGroup.t A))
           (timestep_groups : list (TimestepGroup.t A))
           (timestep_pad_mask : ndarray bool)
           (train : bool)
  : traced (list (PrefixGroup.t A) * list (TimestepGroup.t A)) :=
  emit (LogWarning "Prefix groups:") ;;;
  for_each_emit
    (fun g => LogGroup "PrefixGroup" (PrefixGroup.name g)
                (shape (PrefixGroup.tokens g)) (PrefixGroup.attends_to g))
    prefix_groups ;;;
  emit (LogWarning "Timestep groups:") ;;;
  for_each_emit
    (fun g => LogGroup "TimestepGroup" (TimestepGroup.name g)
                (shape (TimestepGroup.tokens g)) (TimestepGroup.attends_to g))
    timestep_groups ;;;
  horizon <~ lift (check_horizon timestep_groups) ;;
  emit CallGenerateAttentionMask ;;;
  attention_mask <~
    lift (generate_attention_mask num_attention_heads
            prefix_groups timestep_groups timestep_pad_mask) ;;
  input_tokens <~
    lift (assemble_input_tokens zero prefix_groups timestep_groups) ;;
  emit CallTransformer ;;;
  output <~ lift (transformer input_tokens attention_mask train) ;;
  lift (disassemble prefix_groups timestep_groups horizon output).

End BlockTransformer.

(** ** oxe_dataset_mixes.py *)

Module OxeMixes.

(** Modelled from the spec: the [ActionEncoding] enumeration, imported by
    the source from [orca.data.utils.data_utils] whose declaration is not
    among the sources.  The spec only distinguishes the supported
    end-effector-pose-delta encoding from every other one. *)
Inductive ActionEncoding : Type :=
| EEF_POS
| OTHER_ENCODING (id : nat).

(** [enc is not ActionEncoding.EEF_POS] *)
Definition is_not_EEF_POS (enc : ActionEncoding) : bool :=
  match enc with
  | EEF_POS => false
  | OTHER_ENCODING _ => true
  end.

(** An entry of the registry [oxe_dataset_configs.OXE_DATASET_KWARGS]. *)
Record dataset_kwargs : Type := mk_dataset_kwargs {
  action_encoding : ActionEncoding;
  image_obs_keys : list string;
  depth_obs_keys : list string;
  state_obs_keys : list string
}.

(** An element of the returned [data_kwargs_list]:
    [{"name": dataset, "data_dir": data_dir, **dataset_kwargs}], where
    ["depth_obs_keys"] and ["state_obs_keys"] may have been popped. *)
Record resolved_kwargs : Type := mk_resolved_kwargs {
  r_name : string;
  r_data_dir : string;
  r_action_encoding : ActionEncoding;
  r_image_obs_keys : list string;
  r_depth_obs_keys : option (list string);
  r_state_obs_keys : option (list string)
}.

(** [xs[:n]] for a Python [int] [n] *)
Definition slice_to {A} (xs : list A) (n : Z) : list A :=
  if (0 <=? n)%Z then firstn (Z.to_nat n) xs
  else firstn (List.length xs - Z.to_nat (- n)) xs.

(** [xs[k:]] for a Python [int] [k] *)
Definition slice_from {A} (xs : list A) (k : Z) : list A :=
  if (0 <=? k)%Z then skipn (Z.to_nat k) xs
  else skipn (List.length xs - Z.to_nat (- k)) xs.

(** [keys[:n_third_person_cameras]
      + (keys[-n_wrist_cameras:] if n_wrist_cameras else [])] *)
Definition trim_keys (keys : list string)
           (n_third_person_cameras n_wrist_cameras : Z) : list string :=
  slice_to keys n_third_person_cameras
  ++ (if negb (n_wrist_cameras =? 0)%Z
      then slice_from keys (- n_wrist_cameras)
      else []).

Section Resolver.
Variable W : Type.   (* sampling weights: carried along, never computed on *)

(** The deduplication loop (lines 130-137), state
    [(filtered_datasets, included_dataset_names)]; the [print] of a
    skipped duplicate is not modelled. *)
Fixpoint dedup_loop (data_mix : list (string * W))
         (filtered_datasets : list (string * W))
         (included_dataset_names : list string) : list (string * W) :=
  match data_mix with
  | [] => filtered_datasets
  | (dataset, weight) :: rest =>
      if negb (str_in dataset included_dataset_names)
      then dedup_loop rest (filtered_datasets ++ [(dataset, weight)])
                      (included_dataset_names ++ [dataset])
      else dedup_loop rest filtered_datasets included_dataset_names
  end.

Variable OXE_DATASET_KWARGS : string -> option dataset_kwargs.

(** [OXE_DATASET_KWARGS[dataset]] *)
Definition lookup (dataset : string) : result dataset_kwargs :=
  match OXE_DATASET_KWARGS dataset with
  | Some kw => Ok kw
  | None => Raise KeyError
  end.

(** The body of the second loop for a dataset with a supported encoding
    (lines 149-172). *)
Definition adjust (dataset data_dir : string) (kw : dataset_kwargs)
           (n_third_person_cameras n_wrist_cameras : Z)
           (load_depth load_proprio : bool) : resolved_kwargs :=
  let image := trim_keys (image_obs_keys kw)
                 n_third_person_cameras n_wrist_cameras in
  let depth := trim_keys (depth_obs_keys kw)
                 n_third_person_cameras n_wrist_cameras in
  mk_resolved_kwargs dataset data_dir (action_encoding kw) image
    (if negb load_depth then None else Some depth)
    (if negb load_proprio then None else Some (state_obs_keys kw)).

(** The second loop (lines 139-173), state [(data_kwargs_list, weights)]. *)
Fixpoint resolve_loop (data_mix : list (string * W)) (data_dir : string)
         (n_third_person_cameras n_wrist_cameras : Z)
         (load_depth load_proprio : bool)
         (data_kwargs_list : list resolved_kwargs) (weights : list W)
  : result (list resolved_kwargs * list W) :=
  match data_mix with
  | [] => Ok (data_kwargs_list, weights)
  | (dataset, weight) :: rest =>
      kw <- lookup dataset ;;
      if is_not_EEF_POS (action_encoding kw)
      then resolve_loop rest data_dir n_third_person_cameras n_wrist_cameras
             load_depth load_proprio data_kwargs_list weights
      else resolve_loop rest data_dir n_third_person_cameras n_wrist_cameras
             load_depth load_proprio
             (data_kwargs_list
              ++ [adjust dataset data_dir kw n_third_person_cameras
                    n_wrist_cameras load_depth load_proprio])
             (weights ++ [weight])
  end.

Definition make_oxe_dataset_kwargs_and_weights
           (data_mix : list (string * W)) (data_dir : string)
           (deduplicate : bool)
           (n_third_person_cameras n_wrist_cameras : Z)
           (load_depth load_proprio : bool)
  : result (list resolved_kwargs * list W) :=
  let data_mix :=
    if deduplicate then dedup_loop data_mix [] [] else data_mix in
  resolve_loop data_mix data_dir n_third_person_cameras n_wrist_cameras
    load_depth load_proprio [] [].
End Resolver.

End OxeMixes.

(** ** tokenizers.py: [BinTokenizer] *)

Module BinTokenizer.

(** Real-valued inputs and thresholds are rationals; only their order is
    used by the tokenizer. *)
Definition EPS : Q := (1 # 1000000)%Q.

(** [x < y] and [x >= y] on array elements *)
Definition lt (x y : Q) : bool := negb (Qle_bool y x).
Definition ge (x y : Q) : bool := Qle_bool y x.

(** [jnp.linspace(start, stop, num)] *)
Definition linspace (start stop : Q) (num : nat) : list Q :=
  map (fun k => (start + inject_Z (Z.of_nat k) * (stop - start)
                         / inject_Z (Z.of_nat (num - 1)))%Q)
      (seq 0 num).

(** [setup]: the thresholds.  The Gaussian quantile function [norm.ppf]
    is the parameter [ppf]. *)
Definition setup (ppf : Q -> Q) (n_bins : nat) (bin_type : string) (low high : Q)
  : result (list Q) :=
  if String.eqb bin_type "uniform"
  then Ok (linspace low high (n_bins + 1))
  else if String.eqb bin_type "normal"
  then Ok (map ppf (linspace EPS (1 - EPS)%Q (n_bins + 1)))
  else Raise ValueError.

(** [jnp.clip(x, lo, hi)] *)
Definition clip (x lo hi : Q) : Q := Qmin (Qmax x lo) hi.

(** [(inputs < thresholds[1:]) & (inputs >= thresholds[:-1]).astype(uint8)]
    for one input value. *)
Definition token_one_hot (thresholds : list Q) (x : Q) : list Z :=
  map (fun '(hi, lo) => Z.land (int_of_bool (lt x hi)) (int_of_bool (ge x lo)))
      (combine (tl thresholds) (removelast thresholds)).

Fixpoint argmax_from (xs : list Z) (i best_i : nat) (best : Z) : nat :=
  match xs with
  | [] => best_i
  | x :: xs' =>
      if (best <? x)%Z then argmax_from xs' (S i) i x
      else argmax_from xs' (S i) best_i best
  end.

(** [jnp.argmax(v, axis=-1)]: the first index of the maximum. *)
Definition argmax (xs : list Z) : result nat :=
  match xs with
  | [] => Raise ValueError
  | x :: xs' => Ok (argmax_from xs' 1 0 x)
  end.

(** [__call__] on one input value (the source maps it over all the
    elements of [inputs]). *)
Definition __call__ (thresholds : list Q) (bin_type : string) (low high : Q)
           (inputs : Q) : result nat :=
  let inputs :=
    if String.eqb bin_type "uniform"
    then clip inputs (low + EPS)%Q (high - EPS)%Q
    else inputs in
  let token_one_hot := token_one_hot thresholds inputs in
  argmax token_one_hot.

(** The ["uniform"] branch of [__call__] on the values the arrays hold.
    The source computes in floating point: [a_min] and [a_max] stand for
    the clip bounds [self.low + EPS] and [self.high - EPS] as they are
    converted to the dtype of [inputs], and [thresholds] for the stored
    array.  [jnp.clip] and the two comparisons are exact on such values;
    all rounding is in how [a_min], [a_max] and [thresholds] arise.
    [__call__] above is this function at the unrounded bounds. *)
Definition call_uniform (thresholds : list Q) (a_min a_max inputs : Q)
  : result nat :=
  let inputs := clip inputs a_min a_max in
  let token_one_hot := token_one_hot thresholds inputs in
  argmax token_one_hot.

(** [jax.nn.one_hot(inputs, n_bins)] for one token: the unit vector of the
    token, and the zero vector for a token outside [[0, n_bins)]. *)
Definition one_hot (inputs : Z) (n_bins : nat) : list Q :=
  map (fun i => if (Z.of_nat i =? inputs)%Z then 1%Q else 0%Q) (seq 0 n_bins).

(** [(thresholds[1:] + thresholds[:-1]) / 2] *)
Definition bin_avgs (thresholds : list Q) : list Q :=
  map (fun '(hi, lo) => ((hi + lo) / 2)%Q)
      (combine (tl thresholds) (removelast thresholds)).

(** [jnp.sum(v, axis=-1)] *)
Definition qsum (v : list Q) : Q := fold_right Qplus 0%Q v.

(** [decode] on one token ([self.thresholds] has [n_bins + 1] entries, so
    the two factors of the product have the same length). *)
Definition decode (thresholds : list Q) (n_bins : nat) (inputs : Z) : Q :=
  let one_hot := one_hot inputs n_bins in
  let bin_avgs := bin_avgs thresholds in
  let outputs := qsum (map (fun '(o, a) => (o * a)%Q) (combine one_hot bin_avgs)) in
  outputs.
End BinTokenizer.

(* ================================================================== *)
(** ** [ImageTokenizer.extract_inputs] (tokenizers.py) *)

Module ImageTokenizer.

(** [sorted(keys)] on strings: ascending in the lexicographic order of the
    character codes. *)
Fixpoint insort (key : string) (keys : list string) : list string :=
  match keys with
  | [] => [key]
  | k :: rest =>
      if String.leb key k then key :: keys else k :: insort key rest
  end.

Definition sorted (keys : list string) : list string :=
  fold_right insort [] keys.

Definition assert_ (b : bool) : result unit :=
  if b then Ok tt else Raise AssertionError.

Section ExtractInputs.
Variable A : Type.

(** [re_match r_key key]: [re.compile(r_key).match(key)] finds a match
    (the patterns are taken to be well-formed regular expressions). *)
Variable re_match : string -> string -> bool.

(** A dict of arrays, as the list of its items in insertion order. *)
Definition dict : Type := list (string * ndarray A).

(** [inputs.keys()] *)
Definition keys (inputs : dict) : list string := map fst inputs.

(** [inputs[key]] *)
Definition dict_getitem (inputs : dict) (key : string) : result (ndarray A) :=
  match find (fun kv => String.eqb (fst kv) key) inputs with
  | Some kv => Ok (snd kv)
  | None => Raise KeyError
  end.

(** The inner loop of [extract_inputs] over the keys that match one
    pattern; [extracted_outputs] is the list built so far. *)
Fixpoint extract_keys (inputs : dict) (check_spatial : bool)
  (matching : list string) (extracted_outputs : list (ndarray A))
  : result (list (ndarray A)) :=
  match matching with
  | [] => Ok extracted_outputs
  | key :: rest =>
      _ <- (if check_spatial
            then v <- dict_getitem inputs key ;;
                 assert_ (4 <=? List.length (shape v))
            else Ok tt) ;;
      v <- dict_getitem inputs key ;;
      extract_keys inputs check_spatial rest (extracted_outputs ++ [v])
  end.

(** The outer loop of [extract_inputs] over the patterns. *)
Fixpoint extract_patterns (regex_keys : list string) (inputs : dict)
  (check_spatial : bool) (extracted_outputs : list (ndarray A))
  : result (list (ndarray A)) :=
  match regex_keys with
  | [] => Ok extracted_outputs
  | r_key :: rest =>
      extracted_outputs <-
        extract_keys inputs check_spatial
          (filter (re_match r_key) (sorted (keys inputs))) extracted_outputs ;;
      extract_patterns rest inputs check_spatial extracted_outputs
  end.

Definition extract_inputs (regex_keys : list string) (inputs : dict)
  (check_spatial : bool) : result (list (ndarray A)) :=
  extract_patterns regex_keys inputs check_spatial [].

(** The keys visited by [extract_inputs], pattern after pattern. *)
Definition visited (regex_keys : list string) (ks : list string) : list string :=
  flat_map (fun r_key => filter (re_match r_key) ks) regex_keys.

(** An input fails the check of [check_spatial]. *)
Definition not_spatial (v : ndarray A) : bool :=
  negb (4 <=? List.length (shape v)).

End ExtractInputs.

(** The order of [sorted]. *)
Definition key_le (a b : string) : Prop := String.leb a b = true.

End ImageTokenizer.

(** Example observations for [extract_inputs]. *)
Module Observations.
Import ImageTokenizer.
Local Open Scope string_scope.

(** A pattern without metacharacters matches the keys that start with it. *)
Definition literal_match (r_key key : string) : bool := String.prefix r_key key.

Definition image_wrist : ndarray nat :=
  {| shape := [1; 2; 4; 4; 3]; item := fun _ => 1 |}.
Definition image_primary : ndarray nat :=
  {| shape := [1; 2; 4; 4; 3]; item := fun _ => 2 |}.
Definition proprio : ndarray nat :=
  {| shape := [1; 2; 7]; item := fun _ => 3 |}.

Definition observations : dict nat :=
  [("image_wrist", image_wrist); ("proprio", proprio);
   ("image_primary", image_primary)].

Definition observations_reordered : dict nat :=
  [("image_primary", image_primary); ("image_wrist", image_wrist);
   ("proprio", proprio)].

End Observations.

(** ** Quantities and predicates used in the statements *)

Module Layout.
Import BlockTransformer.

Section Groups.
Context {A : Type}.
Variable prefix_groups : list (PrefixGroup.t A).
Variable timestep_groups : list (TimestepGroup.t A).

(** The construction-time checks of the two group classes. *)
Definition valid_prefix (g : PrefixGroup.t A) : Prop :=
  ndim (PrefixGroup.tokens g) = 3.
Definition valid_timestep (g : TimestepGroup.t A) : Prop :=
  ndim (TimestepGroup.tokens g) = 4.
(** [g.tokens.shape[1]] of a timestep group. *)
Definition horizon_of (g : TimestepGroup.t A) : nat :=
  nth 1 (shape (TimestepGroup.tokens g)) 0.

Definition valid_groups : Prop :=
  Forall valid_prefix prefix_groups /\ Forall valid_timestep timestep_groups.

Definition tokens_per_prefix_group : list nat :=
  map (fun g => nth 1 (shape (PrefixGroup.tokens g)) 0) prefix_groups.
Definition tokens_per_timestep_group : list nat :=
  map (fun g => nth 2 (shape (TimestepGroup.tokens g)) 0) timestep_groups.
Definition tokens_for_prefix : nat := sum tokens_per_prefix_group.
Definition tokens_per_time_step : nat := sum tokens_per_timestep_group.
Definition total_tokens (horizon : nat) : nat :=
  tokens_for_prefix + tokens_per_time_step * horizon.

(** [get_token_description] with the counts of these groups. *)
Definition describe (i : nat) : result TokenMetadata.t :=
  get_token_description prefix_groups timestep_groups
    tokens_per_prefix_group tokens_per_timestep_group
    tokens_for_prefix tokens_per_time_step i.

(** The descriptor of position [i] (a dummy where the lookup raises). *)
Definition description (i : nat) : TokenMetadata.t :=
  match describe i with
  | Ok dsc => dsc
  | Raise _ => TokenMetadata.mk EmptyString 0 []
  end.

(** The timestep of a flattened position: -1 on the prefix. *)
Definition timestep_of (i : nat) : Z :=
  if i <? tokens_for_prefix then (-1)%Z
  else Z.of_nat ((i - tokens_for_prefix) / tokens_per_time_step).
End Groups.
End Layout.

(** ** Mixture resolution: the stated behaviour and an example registry *)

Module MixSpec.
Import OxeMixes.

(** The stated deduplication: the first entry is kept and every later entry
    with its name is dropped, and so on for the rest. *)
Fixpoint first_occurrences {W} (data_mix : list (string * W)) : list (string * W) :=
  match data_mix with
  | [] => []
  | (dataset, weight) :: rest =>
      (dataset, weight)
        :: filter (fun p => negb (String.eqb (fst p) dataset))
                  (first_occurrences rest)
  end.

(** The weight of the first entry named [dataset]. *)
Fixpoint first_weight {W} (data_mix : list (string * W)) (dataset : string)
  : option W :=
  match data_mix with
  | [] => None
  | (name, weight) :: rest =>
      if String.eqb dataset name then Some weight else first_weight rest dataset
  end.

(** The last [n] elements of a list (all of it when it is shorter). *)
Definition lastn {B} (n : nat) (xs : list B) : list B :=
  skipn (List.length xs - n) xs.

(** The entries of the mix whose dataset has the supported encoding,
    with their registry entry. *)
Fixpoint supported {W} (registry : string -> option dataset_kwargs)
         (data_mix : list (string * W)) : list (string * W * dataset_kwargs) :=
  match data_mix with
  | [] => []
  | (dataset, weight) :: rest =>
      match registry dataset with
      | Some kw =>
          if is_not_EEF_POS (action_encoding kw) then supported registry rest
          else (dataset, weight, kw) :: supported registry rest
      | None => supported registry rest
      end
  end.

(** The dataset of a mix entry is registered with the supported encoding. *)
Definition is_supported {W} (registry : string -> option dataset_kwargs)
           (entry : string * W) : bool :=
  match registry (fst entry) with
  | Some kw => negb (is_not_EEF_POS (action_encoding kw))
  | None => false
  end.

(** The configuration built for a supported entry, and its weight. *)
Definition config_of {W} (data_dir : string)
           (n_third_person_cameras n_wrist_cameras : Z)
           (load_depth load_proprio : bool)
           (entry : string * W * dataset_kwargs) : resolved_kwargs :=
  let '(dataset, _, kw) := entry in
  adjust dataset data_dir kw n_third_person_cameras n_wrist_cameras
         load_depth load_proprio.

Definition weight_of {W} (entry : string * W * dataset_kwargs) : W :=
  let '(_, weight, _) := entry in weight.

Local Open Scope string_scope.

(** A registry with two datasets of the supported encoding and one of
    another encoding. *)
Definition registry (dataset : string) : option dataset_kwargs :=
  if String.eqb dataset "a"
  then Some (mk_dataset_kwargs EEF_POS ["cam0"; "cam1"; "cam2"; "wrist0"]
               ["depth0"; "depth_wrist0"] ["state"])
  else if String.eqb dataset "b"
  then Some (mk_dataset_kwargs EEF_POS ["image"] [] ["state"])
  else if String.eqb dataset "joints"
  then Some (mk_dataset_kwargs (OTHER_ENCODING 1) ["image"] [] ["state"])
  else None.

(** [[("a", 1.0), ("b", 2.0), ("a", 3.0)]] *)
Definition mix_with_duplicate : list (string * Q) :=
  [("a", 1%Q); ("b", 2%Q); ("a", 3%Q)].
End MixSpec.

(** ** Input and output groups of a forward pass *)

Module RoundTrip.
Section Shapes.
Context {A : Type}.
Variables batch horizon d d_out : nat.

(** The groups of one call share batch size and embedding width, and the
    timestep groups share the horizon. *)
Definition prefix_shaped (g : PrefixGroup.t A) : Prop :=
  exists n, shape (PrefixGroup.tokens g) = [batch; n; d].
Definition timestep_shaped (g : TimestepGroup.t A) : Prop :=
  exists n, shape (TimestepGroup.tokens g) = [batch; horizon; n; d].

(** [o] is the output group of the input group [g]: same name and
    [attends_to], same shape except for the embedding width [d_out]. *)
Definition prefix_output_of (g o : PrefixGroup.t A) : Prop :=
  PrefixGroup.name o = PrefixGroup.name g
  /\ PrefixGroup.attends_to o = PrefixGroup.attends_to g
  /\ exists n, shape (PrefixGroup.tokens g) = [batch; n; d]
               /\ shape (PrefixGroup.tokens o) = [batch; n; d_out].
Definition timestep_output_of (g o : TimestepGroup.t A) : Prop :=
  TimestepGroup.name o = TimestepGroup.name g
  /\ TimestepGroup.attends_to o = TimestepGroup.attends_to g
  /\ exists n, shape (TimestepGroup.tokens g) = [batch; horizon; n; d]
               /\ shape (TimestepGroup.tokens o) = [batch; horizon; n; d_out].

(** The encoder keeps batch and sequence length and produces width [d_out]. *)
Definition preserves_length
           (transformer : ndarray A -> ndarray bool -> bool -> result (ndarray A))
  : Prop :=
  forall x mask train n,
    shape x = [batch; n; d] ->
    exists y, transformer x mask train = Ok y /\ shape y = [batch; n; d_out].
End Shapes.
End RoundTrip.

(** The log lines [__call__] writes before the horizon check. *)
Definition call_log {A} (prefix_groups : list (PrefixGroup.t A))
           (timestep_groups : list (TimestepGroup.t A)) : list event :=
  LogWarning "Prefix groups:"
  :: map (fun g => LogGroup "PrefixGroup" (PrefixGroup.name g)
                     (shape (PrefixGroup.tokens g)) (PrefixGroup.attends_to g))
         prefix_groups
  ++ LogWarning "Timestep groups:"
  :: map (fun g => LogGroup "TimestepGroup" (TimestepGroup.name g)
                     (shape (TimestepGroup.tokens g)) (TimestepGroup.attends_to g))
         timestep_groups.

(** The rows of the mask of batch element [ib] and head [ih], as lists. *)
Definition mask_table (r : result (ndarray bool)) (ib ih n : nat)
  : result (list (list bool)) :=
  m <- r ;;
  Ok (map (fun i => map (fun j => item m [ib; ih; i; j]) (seq 0 n)) (seq 0 n)).

(** ** The example of the specification: one prefix group and one
    timestep group *)

Module Example.
Local Open Scope string_scope.

(** Token embeddings stand in as rationals; width 4. *)
Definition embeddings (sh : list nat) : ndarray Q :=
  mk_ndarray sh (fun _ => 0%Q).

(** ["task"]: 3 tokens, [attends_to = {}] *)
Definition task : PrefixGroup.t Q :=
  PrefixGroup.mk "task" (embeddings [1; 3; 4]) [].

(** ["obs"]: 2 tokens per step over a horizon of 2, [attends_to = {"task"}] *)
Definition obs : TimestepGroup.t Q :=
  TimestepGroup.mk "obs" (embeddings [1; 2; 2; 4]) ["task"].

(** [pad_mask = [[true, true]]] *)
Definition pad_mask : ndarray bool := mk_ndarray [1; 2] (fun _ => true).

(** The same window with its second timestep padded: [[true, false]]. *)
Definition pad_mask_last_padded : ndarray bool :=
  mk_ndarray [1; 2]
    (fun idx => match idx with [_; 0] => true | _ => false end).

(** A second timestep group whose horizon is 3 instead of 2. *)
Definition act_h3 : TimestepGroup.t Q :=
  TimestepGroup.mk "act" (embeddings [1; 3; 1; 4]) ["task"; "obs"].

(** An additional timestep group with one token per step that attends to
    nothing and that no group attends to. *)
Definition value : TimestepGroup.t Q :=
  TimestepGroup.mk "value" (embeddings [1; 2; 1; 4]) [].

(** An encoder that keeps batch and sequence length and returns
    embeddings of width [d_out]. *)
Definition widen (d_out : nat) (x : ndarray Q) (mask : ndarray bool) (train : bool)
  : result (ndarray Q) :=
  match shape x with
  | [b; n; _] => Ok (mk_ndarray [b; n; d_out] (fun _ => 0%Q))
  | _ => Raise ValueError
  end.
End Example.

(** ** Positions of the groups inside the flattened sequence *)

Module Positions.
(** The number of tokens that precede group number [q] among groups with
    the token counts [ns]. *)
Definition offset (ns : list nat) (q : nat) : nat := sum (firstn q ns).

(** The encoder that returns its input unchanged. *)
Definition identity_encoder {A} (x : ndarray A) (mask : ndarray bool) (train : bool)
  : result (ndarray A) := Ok x.

(** [o] carries the name, the [attends_to], the shape and, at every index
    inside the token axis, the elements of [g]. *)
Definition same_prefix_group {A} (g o : PrefixGroup.t A) : Prop :=
  PrefixGroup.name o = PrefixGroup.name g
  /\ PrefixGroup.attends_to o = PrefixGroup.attends_to g
  /\ shape (PrefixGroup.tokens o) = shape (PrefixGroup.tokens g)
  /\ forall b k c,
       k < nth 1 (shape (PrefixGroup.tokens g)) 0 ->
       item (PrefixGroup.tokens o) [b; k; c]
       = item (PrefixGroup.tokens g) [b; k; c].

Definition same_timestep_group {A} (g o : TimestepGroup.t A) : Prop :=
  TimestepGroup.name o = TimestepGroup.name g
  /\ TimestepGroup.attends_to o = TimestepGroup.attends_to g
  /\ shape (TimestepGroup.tokens o) = shape (TimestepGroup.tokens g)
  /\ forall b t k c,
       k < nth 2 (shape (TimestepGroup.tokens g)) 0 ->
       item (TimestepGroup.tokens o) [b; t; k; c]
       = item (TimestepGroup.tokens g) [b; t; k; c].

(** An encoder that always fails. *)
Definition failing_encoder {A} (x : ndarray A) (mask : ndarray bool) (train : bool)
  : result (ndarray A) := Raise ValueError.
End Positions.

(* ================================================================== *)
(** * Part II: lemmas and theorems                                     *)
(* ================================================================== *)

Unset Implicit Arguments.

Ltac inv H := inversion H; subst; clear H.

Lemma list_nat_eqb_eq (xs ys : list nat) :
  list_nat_eqb xs ys = true <-> xs = ys.
Proof.
  revert ys; induction xs as [|x xs IH]; destruct ys as [|y ys]; simpl;
    split; intros H; try reflexivity; try discriminate.
  - apply andb_true_iff in H as [H1 H2].
    apply Nat.eqb_eq in H1. apply IH in H2. congruence.
  - inv H. rewrite Nat.eqb_refl. simpl. apply IH. reflexivity.
Qed.

Lemma list_nat_eqb_refl (xs : list nat) : list_nat_eqb xs xs = true.
Proof. apply list_nat_eqb_eq; reflexivity. Qed.

(** ** Sums, cumulative sums and [searchsorted] *)

Lemma fold_add_acc (xs : list nat) (a : nat) :
  fold_left Nat.add xs a = a + fold_left Nat.add xs 0.
Proof.
  revert a; induction xs as [|x xs IH]; intros a; simpl; [lia|].
  rewrite (IH (a + x)), (IH x). lia.
Qed.

Lemma sum_nil : sum [] = 0.
Proof. reflexivity. Qed.

Lemma sum_cons (x : nat) (xs : list nat) : sum (x :: xs) = x + sum xs.
Proof. unfold sum; simpl. apply fold_add_acc. Qed.

(** [searchsorted] on a cumulative sum stays inside the list for every
    position up to the total. *)
Lemma searchsorted_cumsum_from_lt (xs : list nat) (acc i : nat) :
  xs <> [] -> i <= acc + sum xs ->
  searchsorted (cumsum_from acc xs) i < List.length xs.
Proof.
  revert acc; induction xs as [|x xs IH]; intros acc Hne H; [congruence|].
  simpl. destruct (i <=? acc + x) eqn:E; [lia|].
  apply Nat.leb_gt in E. rewrite sum_cons in H.
  destruct xs as [|y ys].
  - rewrite sum_nil in H. lia.
  - apply -> Nat.succ_lt_mono. apply IH; [congruence | lia].
Qed.

Lemma get_position_lt (xs : list nat) (i : nat) :
  i < sum xs -> BlockTransformer._get_position i xs < List.length xs.
Proof.
  intros H. unfold BlockTransformer._get_position, cumsum.
  apply searchsorted_cumsum_from_lt; [|lia].
  intros ->. rewrite sum_nil in H. lia.
Qed.

(** ** Loops *)

(** Invariant rule for [for x in range(start, start + len)]. *)
Lemma for_each_seq_inv {S : Type} (P : nat -> S -> Prop)
      (body : nat -> S -> result S) (len start : nat) (s : S) :
  P start s ->
  (forall k s0, start <= k < start + len -> P k s0 ->
                exists s1, body k s0 = Ok s1 /\ P (Datatypes.S k) s1) ->
  exists s', for_each (seq start len) body s = Ok s' /\ P (start + len) s'.
Proof.
  revert start s; induction len as [|len IH]; intros start s H0 Hstep; simpl.
  - exists s. rewrite Nat.add_0_r. auto.
  - destruct (Hstep start s) as [s1 [E1 P1]]; [lia | assumption |].
    rewrite E1.
    destruct (IH (Datatypes.S start) s1) as [s' [E' P']]; [assumption | |].
    + intros k s0 Hk. apply Hstep. lia.
    + exists s'. split; [assumption|].
      replace (start + Datatypes.S len) with (Datatypes.S start + len) by lia.
      assumption.
Qed.

Lemma mapM_map {A B} (f : A -> result B) (g : A -> B) (xs : list A) :
  Forall (fun x => f x = Ok (g x)) xs -> mapM f xs = Ok (map g xs).
Proof.
  induction 1 as [|x xs Hx _ IH]; simpl; [reflexivity|].
  rewrite Hx. simpl. rewrite IH. reflexivity.
Qed.

Lemma getitem_nth {A} (xs : list A) (k : nat) (d : A) :
  k < List.length xs -> getitem xs k = Ok (nth k xs d).
Proof.
  intros H. unfold getitem.
  rewrite (nth_error_nth' xs d H). reflexivity.
Qed.

Lemma shape_at_nth {A} (a : ndarray A) (k : nat) :
  k < ndim a -> shape_at a k = Ok (nth k (shape a) 0).
Proof. intros H. unfold shape_at. apply getitem_nth. exact H. Qed.

(** ** The double loop of [generate_attention_mask] *)

Section FillAttentionMask.
Import BlockTransformer.

Variable describe : nat -> result TokenMetadata.t.
Variable d : nat -> TokenMetadata.t.
Variable n : nat.
Hypothesis describe_Ok : forall i, i < n -> describe i = Ok (d i).

Let body_j (i : nat) :=
  fun (j : nat) (attention_mask : ndarray Z) =>
    description_i <- describe i ;;
    description_j <- describe j ;;
    let mask := mask_value description_i description_j in
    setitem2 attention_mask i j mask.

Let inv_row (i k : nat) (am : ndarray Z) : Prop :=
  shape am = [n; n]
  /\ (forall i' j, i' < i -> j < n -> item am [i'; j] = mask_value (d i') (d j))
  /\ (forall j, j < k -> item am [i; j] = mask_value (d i) (d j)).

Lemma setitem2_row_step (i k : nat) (am : ndarray Z) :
  i < n -> k < n -> inv_row i k am ->
  exists am', body_j i k am = Ok am' /\ inv_row i (S k) am'.
Proof.
  intros Hi Hk (Hsh & Hrows & Hrow).
  unfold body_j. rewrite (describe_Ok _ Hi), (describe_Ok _ Hk). simpl.
  unfold setitem2. rewrite Hsh.
  apply Nat.ltb_lt in Hi as Hi'. apply Nat.ltb_lt in Hk as Hk'.
  rewrite Hi', Hk'. simpl.
  eexists; split; [reflexivity|].
  repeat split; simpl.
  - intros i' j Hlt Hj.
    assert (E : (i' =? i) = false) by (apply Nat.eqb_neq; lia).
    rewrite E. simpl. apply Hrows; assumption.
  - intros j Hj. rewrite Nat.eqb_refl. simpl.
    destruct (j =? k) eqn:E; simpl.
    + apply Nat.eqb_eq in E. subst. reflexivity.
    + apply Nat.eqb_neq in E. apply Hrow. lia.
Qed.

Lemma fill_attention_mask_spec :
  exists am,
    fill_attention_mask describe n = Ok am
    /\ shape am = [n; n]
    /\ forall i j, i < n -> j < n ->
                   item am [i; j] = mask_value (d i) (d j).
Proof.
  unfold fill_attention_mask.
  destruct (for_each_seq_inv
              (fun i am => shape am = [n; n]
                 /\ forall i' j, i' < i -> j < n ->
                                 item am [i'; j] = mask_value (d i') (d j))
              (fun i attention_mask =>
                 for_each (seq 0 n) (body_j i) attention_mask)
              n 0 (zeros [n; n])) as [am [E [Hsh Hall]]].
  - split; [reflexivity|]. intros; lia.
  - intros i am0 Hi [Hsh Hrows].
    destruct (for_each_seq_inv (inv_row i) (body_j i) n 0 am0)
      as [am1 [E1 (Hsh1 & Hrows1 & Hrow1)]].
    + unfold inv_row. split; [assumption | split; [assumption | intros; lia]].
    + intros k s0 Hk Hinv. apply setitem2_row_step; [lia | lia | assumption].
    + exists am1. split; [exact E1|]. split; [assumption|].
      intros i' j Hi' Hj.
      destruct (Nat.eq_dec i' i) as [->|Hne].
      * apply Hrow1. simpl. assumption.
      * apply Hrows1; [lia | assumption].
  - exists am. simpl in *. split; [exact E|]. split; [exact Hsh|].
    intros i j Hi Hj. apply Hall; assumption.
Qed.
End FillAttentionMask.

Lemma divmod_Ok (a b : nat) : b <> 0 -> divmod a b = Ok (a / b, a mod b).
Proof. destruct b; [congruence | reflexivity]. Qed.

(** ** Token descriptors *)

Section Describe.
Import BlockTransformer Layout.
Context {A : Type}.
Variable prefix_groups : list (PrefixGroup.t A).
Variable timestep_groups : list (TimestepGroup.t A).

Local Abbreviation tfp := (tokens_for_prefix prefix_groups).
Local Abbreviation tpts := (tokens_per_time_step timestep_groups).

(** [get_token_description] never raises on a position of the sequence,
    and the timestep it reports is [-1] on the prefix and the quotient
    of the division by the tokens per step after it. *)
Lemma describe_Ok (horizon i : nat) :
  i < total_tokens prefix_groups timestep_groups horizon ->
  exists dsc,
    describe prefix_groups timestep_groups i = Ok dsc
    /\ TokenMetadata.timestep dsc = timestep_of prefix_groups timestep_groups i.
Proof.
  intros Hi. unfold total_tokens in Hi.
  unfold describe, get_token_description, timestep_of.
  destruct (i <? tfp) eqn:E.
  - apply Nat.ltb_lt in E.
    pose proof (get_position_lt (tokens_per_prefix_group prefix_groups) i E) as Hp.
    unfold tokens_per_prefix_group in Hp at 2. rewrite length_map in Hp.
    destruct prefix_groups as [|g0 gs]; [simpl in Hp; lia|].
    rewrite (getitem_nth (g0 :: gs) _ g0 Hp). simpl.
    eexists; split; reflexivity.
  - apply Nat.ltb_ge in E.
    assert (Hpos : tpts <> 0) by (intros Hz; rewrite Hz in Hi; lia).
    rewrite (divmod_Ok _ _ Hpos). simpl bind.
    assert (Hr : (i - tfp) mod tpts < tpts) by (apply Nat.mod_upper_bound; assumption).
    pose proof (get_position_lt (tokens_per_timestep_group timestep_groups) _ Hr) as Hp.
    unfold tokens_per_timestep_group in Hp at 2. rewrite length_map in Hp.
    destruct timestep_groups as [|g0 gs]; [simpl in Hp; lia|].
    rewrite (getitem_nth (g0 :: gs) _ g0 Hp). simpl.
    eexists; split; reflexivity.
Qed.

Lemma describe_description (horizon i : nat) :
  i < total_tokens prefix_groups timestep_groups horizon ->
  describe prefix_groups timestep_groups i
  = Ok (description prefix_groups timestep_groups i).
Proof.
  intros Hi. destruct (describe_Ok _ _ Hi) as [dsc [E _]].
  unfold description. rewrite E. reflexivity.
Qed.

Lemma description_timestep (horizon i : nat) :
  i < total_tokens prefix_groups timestep_groups horizon ->
  TokenMetadata.timestep (description prefix_groups timestep_groups i)
  = timestep_of prefix_groups timestep_groups i.
Proof.
  intros Hi. destruct (describe_Ok _ _ Hi) as [dsc [E T]].
  unfold description. rewrite E. exact T.
Qed.
End Describe.

(** ** The padding mask *)

(** The validity of key column [j] for batch element [ib]: prefix columns
    are always valid, the others inherit the pad-mask entry of their
    timestep. *)
Lemma generate_pad_attention_mask_spec
      (heads : nat) (pad_mask : ndarray bool) (batch horizon tpts tfp : nat) :
  shape pad_mask = [batch; horizon] ->
  exists pam,
    BlockTransformer.generate_pad_attention_mask heads pad_mask tpts tfp = Ok pam
    /\ shape pam = [batch; heads; tfp + tpts * horizon; tfp + tpts * horizon]
    /\ forall ib ih i j,
         item pam [ib; ih; i; j]
         = if j <? tfp then 1%Z
           else if item pad_mask [ib; (j - tfp) / tpts] then 1%Z else 0%Z.
Proof.
  intros Hsh.
  unfold BlockTransformer.generate_pad_attention_mask.
  unfold shape_at, repeat_axis1. rewrite Hsh. simpl.
  unfold concatenate, ndim, same_off_axis. simpl.
  rewrite Nat.eqb_refl. simpl.
  unfold broadcast_keys. simpl.
  rewrite !sum_cons, sum_nil, Nat.add_0_r, (Nat.mul_comm horizon tpts).
  rewrite !Nat.eqb_refl. simpl.
  eexists; split; [reflexivity|]. split; [reflexivity|].
  intros ib ih i j. simpl.
  destruct (j <? tfp); reflexivity.
Qed.

(** ** [generate_attention_mask] *)

Section GenerateAttentionMask.
Import BlockTransformer Layout.
Context {A : Type}.
Variable prefix_groups : list (PrefixGroup.t A).
Variable timestep_groups : list (TimestepGroup.t A).
Hypothesis Hvalid : valid_groups prefix_groups timestep_groups.

Local Abbreviation tfp := (tokens_for_prefix prefix_groups).
Local Abbreviation tpts := (tokens_per_time_step timestep_groups).
Local Abbreviation dsc := (description prefix_groups timestep_groups).

Lemma tokens_per_prefix_group_Ok :
  mapM (fun group => shape_at (PrefixGroup.tokens group) 1) prefix_groups
  = Ok (tokens_per_prefix_group prefix_groups).
Proof.
  apply mapM_map. destruct Hvalid as [Hp _].
  eapply Forall_impl; [|exact Hp].
  intros g Hg. apply shape_at_nth. unfold valid_prefix in Hg. lia.
Qed.

Lemma tokens_per_timestep_group_Ok :
  mapM (fun group => shape_at (TimestepGroup.tokens group) 2) timestep_groups
  = Ok (tokens_per_timestep_group timestep_groups).
Proof.
  apply mapM_map. destruct Hvalid as [_ Ht].
  eapply Forall_impl; [|exact Ht].
  intros g Hg. apply shape_at_nth. unfold valid_timestep in Hg. lia.
Qed.

Variable pad_mask : ndarray bool.
Variables batch horizon : nat.
Hypothesis Hpad : shape pad_mask = [batch; horizon].

Local Abbreviation total := (total_tokens prefix_groups timestep_groups horizon).

(** The group/causal mask: the loops return, and entry [(i, j)] is the
    value the loop body computes from the two descriptors. *)
Lemma group_attention_mask_spec :
  exists am,
    group_attention_mask prefix_groups timestep_groups pad_mask
    = Ok (am, tpts, tfp)
    /\ shape am = [total; total]
    /\ forall i j, i < total -> j < total ->
                   item am [i; j] = mask_value (dsc i) (dsc j).
Proof.
  unfold group_attention_mask.
  unfold shape_at at 1. rewrite Hpad. simpl getitem. simpl bind.
  rewrite tokens_per_prefix_group_Ok. simpl bind.
  rewrite tokens_per_timestep_group_Ok. simpl bind.
  destruct (fill_attention_mask_spec
              (describe prefix_groups timestep_groups) dsc total)
    as [am [E [Hsh Hit]]].
  - intros i Hi. apply (describe_description _ _ horizon). exact Hi.
  - exists am.
    change (fill_attention_mask _ _)
      with (fill_attention_mask (describe prefix_groups timestep_groups) total).
    rewrite E. simpl. auto.
Qed.

Variable heads : nat.

(** The final mask: it is returned, has shape
    [(batch, heads, total, total)], and each entry is the conjunction of
    the group/causal entry and the validity of the key column. *)
Lemma generate_attention_mask_spec :
  exists m,
    generate_attention_mask heads prefix_groups timestep_groups pad_mask = Ok m
    /\ shape m = [batch; heads; total; total]
    /\ forall ib ih i j, i < total -> j < total ->
         item m [ib; ih; i; j]
         = truthy (mask_value (dsc i) (dsc j))
           && (if j <? tfp then true
               else item pad_mask [ib; (j - tfp) / tpts]).
Proof.
  unfold generate_attention_mask.
  destruct group_attention_mask_spec as [am [E [Hsh Hit]]].
  rewrite E. simpl bind.
  destruct (generate_pad_attention_mask_spec heads pad_mask batch horizon
              tpts tfp Hpad) as [pam [Ep [Hshp Hitp]]].
  rewrite Ep. simpl bind.
  unfold logical_and_2_4. rewrite Hsh, Hshp.
  fold total. rewrite !Nat.eqb_refl. simpl andb. cbv iota.
  eexists; split; [reflexivity|]. split.
  - simpl. rewrite Nat.max_id. reflexivity.
  - intros ib ih i j Hi Hj. simpl.
    assert (Hi0 : (if total =? 1 then 0 else i) = i).
    { destruct (total =? 1) eqn:E1; [apply Nat.eqb_eq in E1; lia | reflexivity]. }
    assert (Hj0 : (if total =? 1 then 0 else j) = j).
    { destruct (total =? 1) eqn:E1; [apply Nat.eqb_eq in E1; lia | reflexivity]. }
    rewrite Hi0, Hj0, Hitp, (Hit i j Hi Hj).
    f_equal. destruct (j <? tfp); [reflexivity|].
    destruct (item pad_mask _); reflexivity.
Qed.
End GenerateAttentionMask.

(** ** The visibility rule the code implements *)

Section VisibilityRule.
Import BlockTransformer Layout.

Lemma truthy_int_of_bool (b : bool) : truthy (int_of_bool b) = b.
Proof. destruct b; reflexivity. Qed.

(** The loop body grants visibility exactly when the two groups have the
    same name or the key's group is declared in the query's [attends_to],
    and the timestep of the query is at most that of the key. *)
Lemma mask_value_rule (di dj : TokenMetadata.t) :
  truthy (mask_value di dj)
  = (String.eqb (TokenMetadata.group_name di) (TokenMetadata.group_name dj)
     || str_in (TokenMetadata.group_name dj) (TokenMetadata.attends_to di))
    && (TokenMetadata.timestep di <=? TokenMetadata.timestep dj)%Z.
Proof.
  unfold mask_value.
  destruct (String.eqb _ _); simpl; [apply truthy_int_of_bool|].
  destruct (str_in _ _); simpl; [apply truthy_int_of_bool | reflexivity].
Qed.
End VisibilityRule.

Section MaskEntry.
Import BlockTransformer Layout.
Context {A : Type}.

(** What the code computes: for valid groups and a rank-2 pad mask the
    entry for query [i] and key [j] is true exactly when the groups of the
    two descriptors have the same name or the key's group is in the
    query's [attends_to], the timestep of [i] is AT MOST the timestep of
    [j], and the key column is not padded. *)
Lemma attention_mask_entry
      (heads : nat) (prefix_groups : list (PrefixGroup.t A))
      (timestep_groups : list (TimestepGroup.t A))
      (pad_mask : ndarray bool) (batch horizon : nat) :
  valid_groups prefix_groups timestep_groups ->
  shape pad_mask = [batch; horizon] ->
  exists m,
    generate_attention_mask heads prefix_groups timestep_groups pad_mask = Ok m
    /\ forall ib ih i j,
         i < total_tokens prefix_groups timestep_groups horizon ->
         j < total_tokens prefix_groups timestep_groups horizon ->
         let di := description prefix_groups timestep_groups i in
         let dj := description prefix_groups timestep_groups j in
         item m [ib; ih; i; j]
         = (String.eqb (TokenMetadata.group_name di) (TokenMetadata.group_name dj)
            || str_in (TokenMetadata.group_name dj) (TokenMetadata.attends_to di))
           && (timestep_of prefix_groups timestep_groups i
               <=? timestep_of prefix_groups timestep_groups j)%Z
           && (if j <? tokens_for_prefix prefix_groups then true
               else item pad_mask
                      [ib; (j - tokens_for_prefix prefix_groups)
                           / tokens_per_time_step timestep_groups]).
Proof.
  intros Hvalid Hpad.
  destruct (generate_attention_mask_spec prefix_groups timestep_groups Hvalid
              pad_mask batch horizon Hpad heads) as [m [Em [_ Hm]]].
  exists m. split; [exact Em|].
  intros ib ih i j Hi Hj di dj.
  rewrite (Hm ib ih i j Hi Hj), mask_value_rule.
  rewrite (description_timestep prefix_groups timestep_groups horizon i Hi).
  rewrite (description_timestep prefix_groups timestep_groups horizon j Hj).
  reflexivity.
Qed.
End MaskEntry.

(** ** Claims about the attention mask *)

Section MaskClaims.
Import BlockTransformer Layout Example.

(** The boundary lookup of [_get_position]: with two groups of 2 and 3
    tokens, position 2 (the first token of the second group) is
    attributed to the first group. *)
Example get_position_boundary : _get_position 2 [2; 3] = 0.
Proof. reflexivity. Qed.

(** C1 (the code at the failing input).  On the groups of the example,
    query position 3 (an ["obs"] token of timestep 0) and key position 0
    (a ["task"] token, timestep -1, with ["task"] in the [attends_to] of
    ["obs"]): the entry is false although the query's timestep is not
    smaller than the key's.  Query position 3 and key position 5 (an
    ["obs"] token of timestep 1): the entry is true although the key lies
    in the future of the query. *)
Theorem C1_mask_timestep_order_reversed :
  describe [task] [obs] 0 = Ok (TokenMetadata.mk "task" (-1) [])
  /\ describe [task] [obs] 3 = Ok (TokenMetadata.mk "obs" 0 ["task"%string])
  /\ describe [task] [obs] 5 = Ok (TokenMetadata.mk "obs" 1 ["task"%string])
  /\ exists m,
       generate_attention_mask 8 [task] [obs] pad_mask = Ok m
       /\ item m [0; 0; 3; 0] = false
       /\ item m [0; 0; 3; 5] = true.
Proof.
  repeat split; try reflexivity.
  eexists. split; [reflexivity|]. split; vm_compute; reflexivity.
Qed.

(** C2 (the code at the input of the example).  The flattened sequence
    has 7 tokens and the mask is returned, but its rows are: task tokens
    see exactly the task tokens; obs tokens of timestep 0 see the obs
    tokens of timesteps 0 and 1 and no task token; obs tokens of
    timestep 1 see only the obs tokens of timestep 1. *)
Theorem C2_example_mask :
  total_tokens [task] [obs] 2 = 7
  /\ forall ih,
       mask_table (generate_attention_mask 8 [task] [obs] pad_mask) 0 ih 7
       = Ok [[true; true; true; false; false; false; false];
             [true; true; true; false; false; false; false];
             [true; true; true; false; false; false; false];
             [false; false; false; true; true; true; true];
             [false; false; false; true; true; true; true];
             [false; false; false; false; false; true; true];
             [false; false; false; false; false; true; true]].
Proof.
  split; [reflexivity|]. intros ih. vm_compute. reflexivity.
Qed.
End MaskClaims.

Section PaddingClaims.
Import BlockTransformer Layout.
Context {A : Type}.

(** C4.  For valid groups and a pad mask of shape [(batch, horizon)],
    [generate_attention_mask] returns a mask [m] which is, entry by entry
    and for every head, the conjunction of the group/causal mask [am] and
    the pad-validity mask [pam].  The pad-validity mask has the shape of
    [m]; it is 1 on every key column of a prefix token, and on a key
    column of timestep [t] it is the pad-mask entry of [t], for every
    query row and every head.  So every entry of [m] whose key column
    belongs to a timestep with a false pad-mask entry is false, and every
    entry whose key column is a prefix column or belongs to a timestep
    with a true pad-mask entry is the entry of the group/causal mask. *)
Theorem C4_padding_excludes_keys
  (heads : nat) (prefix_groups : list (PrefixGroup.t A))
  (timestep_groups : list (TimestepGroup.t A))
  (pad_mask : ndarray bool) (batch horizon : nat) :
  valid_groups prefix_groups timestep_groups ->
  shape pad_mask = [batch; horizon] ->
  let tfp := tokens_for_prefix prefix_groups in
  let tpts := tokens_per_time_step timestep_groups in
  let total := total_tokens prefix_groups timestep_groups horizon in
  exists m am pam,
    generate_attention_mask heads prefix_groups timestep_groups pad_mask = Ok m
    /\ group_attention_mask prefix_groups timestep_groups pad_mask
       = Ok (am, tpts, tfp)
    /\ generate_pad_attention_mask heads pad_mask tpts tfp = Ok pam
    /\ shape m = [batch; heads; total; total]
    /\ (forall ib ih i j, i < total -> j < total ->
          item m [ib; ih; i; j]
          = truthy (item am [i; j]) && truthy (item pam [ib; ih; i; j]))
    /\ shape pam = [batch; heads; total; total]
    /\ (forall ib ih i j, j < tfp -> item pam [ib; ih; i; j] = 1%Z)
    /\ (forall ib ih i j t, j < total ->
          timestep_of prefix_groups timestep_groups j = Z.of_nat t ->
          item pam [ib; ih; i; j]
          = if item pad_mask [ib; t] then 1%Z else 0%Z)
    /\ (forall ib ih i j t, i < total -> j < total ->
          timestep_of prefix_groups timestep_groups j = Z.of_nat t ->
          item pad_mask [ib; t] = false ->
          item m [ib; ih; i; j] = false)
    /\ (forall ib ih i j t, i < total -> j < total ->
          timestep_of prefix_groups timestep_groups j = Z.of_nat t ->
          item pad_mask [ib; t] = true ->
          item m [ib; ih; i; j] = truthy (item am [i; j]))
    /\ (forall ib ih i j, i < total -> j < tfp ->
          item m [ib; ih; i; j] = truthy (item am [i; j])).
Proof.
  intros Hvalid Hpad tfp tpts total.
  destruct (generate_attention_mask_spec prefix_groups timestep_groups Hvalid
              pad_mask batch horizon Hpad heads) as [m [Em [Hshm Hm]]].
  destruct (group_attention_mask_spec prefix_groups timestep_groups Hvalid
              pad_mask batch horizon Hpad) as [am [Ea [Hsha Ha]]].
  destruct (generate_pad_attention_mask_spec heads pad_mask batch horizon
              tpts tfp Hpad) as [pam [Ep [Hshp Hp]]].
  exists m, am, pam. repeat (split; [assumption|]).
  assert (Hand : forall ib ih i j, i < total -> j < total ->
            item m [ib; ih; i; j]
            = truthy (item am [i; j]) && truthy (item pam [ib; ih; i; j])).
  { intros ib ih i j Hi Hj.
    rewrite (Hm ib ih i j Hi Hj), (Ha i j Hi Hj), Hp. f_equal.
    fold tfp tpts. destruct (j <? tfp); [reflexivity|].
    destruct (item pad_mask _); reflexivity. }
  assert (Hprefix : forall ib ih i j, j < tfp -> item pam [ib; ih; i; j] = 1%Z).
  { intros ib ih i j Hj. rewrite Hp.
    apply Nat.ltb_lt in Hj. rewrite Hj. reflexivity. }
  assert (Hstep : forall ib ih i j t,
            timestep_of prefix_groups timestep_groups j = Z.of_nat t ->
            item pam [ib; ih; i; j]
            = if item pad_mask [ib; t] then 1%Z else 0%Z).
  { intros ib ih i j t Ht. rewrite Hp.
    unfold timestep_of in Ht. fold tfp tpts in Ht.
    destruct (j <? tfp); [lia|].
    apply Nat2Z.inj in Ht. rewrite Ht. reflexivity. }
  split; [exact Hand|]. split; [exact Hshp|]. split; [exact Hprefix|].
  split; [intros ib ih i j t _ Ht; apply Hstep; exact Ht|].
  split; [|split].
  - intros ib ih i j t Hi Hj Ht Hpadded.
    rewrite (Hand ib ih i j Hi Hj), (Hstep ib ih i j t Ht), Hpadded.
    apply andb_false_r.
  - intros ib ih i j t Hi Hj Ht Hvalid_t.
    rewrite (Hand ib ih i j Hi Hj), (Hstep ib ih i j t Ht), Hvalid_t.
    apply andb_true_r.
  - intros ib ih i j Hi Hj.
    rewrite (Hand ib ih i j Hi ltac:(unfold total, total_tokens; fold tfp; lia)),
            (Hprefix ib ih i j Hj).
    apply andb_true_r.
Qed.

(** C5.  For valid groups and a pad mask of shape [(batch, horizon)], the
    returned mask has a true diagonal entry at every position whose
    timestep is not padded; prefix positions carry timestep -1, which is
    no timestep of the pad mask, so their diagonal entry is always true. *)
Theorem C5_self_visibility
  (heads : nat) (prefix_groups : list (PrefixGroup.t A))
  (timestep_groups : list (TimestepGroup.t A))
  (pad_mask : ndarray bool) (batch horizon : nat) :
  valid_groups prefix_groups timestep_groups ->
  shape pad_mask = [batch; horizon] ->
  exists m,
    generate_attention_mask heads prefix_groups timestep_groups pad_mask = Ok m
    /\ forall ib ih i,
         i < total_tokens prefix_groups timestep_groups horizon ->
         (forall t, timestep_of prefix_groups timestep_groups i = Z.of_nat t ->
                    item pad_mask [ib; t] = true) ->
         item m [ib; ih; i; i] = true.
Proof.
  intros Hvalid Hpad.
  destruct (generate_attention_mask_spec prefix_groups timestep_groups Hvalid
              pad_mask batch horizon Hpad heads) as [m [Em [_ Hm]]].
  exists m. split; [exact Em|].
  intros ib ih i Hi Hnotpad.
  rewrite (Hm ib ih i i Hi Hi), mask_value_rule.
  rewrite String.eqb_refl, Z.leb_refl. simpl.
  unfold timestep_of in Hnotpad.
  destruct (i <? tokens_for_prefix prefix_groups); [reflexivity|].
  apply Hnotpad. reflexivity.
Qed.
End PaddingClaims.

(** C4 at the example groups, with the second timestep padded. *)
Lemma C4_padding_excludes_keys_witness :
  let tfp := Layout.tokens_for_prefix [Example.task] in
  let tpts := Layout.tokens_per_time_step [Example.obs] in
  let total := Layout.total_tokens [Example.task] [Example.obs] 2 in
  exists m am pam,
    BlockTransformer.generate_attention_mask 8 [Example.task] [Example.obs]
      Example.pad_mask_last_padded = Ok m
    /\ BlockTransformer.group_attention_mask [Example.task] [Example.obs]
         Example.pad_mask_last_padded = Ok (am, tpts, tfp)
    /\ BlockTransformer.generate_pad_attention_mask 8
         Example.pad_mask_last_padded tpts tfp = Ok pam
    /\ shape m = [1; 8; total; total]
    /\ (forall ib ih i j, i < total -> j < total ->
          item m [ib; ih; i; j]
          = truthy (item am [i; j]) && truthy (item pam [ib; ih; i; j]))
    /\ shape pam = [1; 8; total; total]
    /\ (forall ib ih i j, j < tfp -> item pam [ib; ih; i; j] = 1%Z)
    /\ (forall ib ih i j t, j < total ->
          Layout.timestep_of [Example.task] [Example.obs] j = Z.of_nat t ->
          item pam [ib; ih; i; j]
          = if item Example.pad_mask_last_padded [ib; t] then 1%Z else 0%Z)
    /\ (forall ib ih i j t, i < total -> j < total ->
          Layout.timestep_of [Example.task] [Example.obs] j = Z.of_nat t ->
          item Example.pad_mask_last_padded [ib; t] = false ->
          item m [ib; ih; i; j] = false)
    /\ (forall ib ih i j t, i < total -> j < total ->
          Layout.timestep_of [Example.task] [Example.obs] j = Z.of_nat t ->
          item Example.pad_mask_last_padded [ib; t] = true ->
          item m [ib; ih; i; j] = truthy (item am [i; j]))
    /\ (forall ib ih i j, i < total -> j < tfp ->
          item m [ib; ih; i; j] = truthy (item am [i; j])).
Proof.
  apply (C4_padding_excludes_keys 8 [Example.task] [Example.obs]
           Example.pad_mask_last_padded 1 2).
  - split; repeat constructor.
  - reflexivity.
Defined.

(** C5 at the example groups. *)
Lemma C5_self_visibility_witness :
  exists m,
    BlockTransformer.generate_attention_mask 8 [Example.task] [Example.obs]
      Example.pad_mask_last_padded = Ok m
    /\ forall ib ih i,
         i < Layout.total_tokens [Example.task] [Example.obs] 2 ->
         (forall t, Layout.timestep_of [Example.task] [Example.obs] i = Z.of_nat t ->
                    item Example.pad_mask_last_padded [ib; t] = true) ->
         item m [ib; ih; i; i] = true.
Proof.
  apply (C5_self_visibility 8 [Example.task] [Example.obs]
           Example.pad_mask_last_padded 1 2).
  - split; repeat constructor.
  - reflexivity.
Defined.

(** ** Shapes under concatenation, splitting and rearrangement *)

Lemma set_nth_length (xs : list nat) (axis v : nat) :
  List.length (set_nth xs axis v) = List.length xs.
Proof.
  revert axis; induction xs as [|x xs IH]; intros [|k]; simpl; auto.
Qed.

Lemma set_nth_twice (xs : list nat) (axis v w : nat) :
  set_nth (set_nth xs axis v) axis w = set_nth xs axis w.
Proof.
  revert axis; induction xs as [|x xs IH]; intros [|k]; simpl; auto.
  rewrite IH. reflexivity.
Qed.

Lemma nth_set_nth (xs : list nat) (axis v : nat) :
  axis < List.length xs -> nth axis (set_nth xs axis v) 0 = v.
Proof.
  revert axis; induction xs as [|x xs IH]; intros [|k]; simpl; intros H;
    try lia; auto.
  apply IH. lia.
Qed.

(** Concatenating arrays whose shapes are all [base] except along [axis]
    succeeds and adds up the lengths along [axis]. *)
Lemma concatenate_shape {A} (arrays : list (ndarray A)) (axis : nat)
      (base : list nat) :
  arrays <> [] ->
  axis < List.length base ->
  Forall (fun b => exists n, shape b = set_nth base axis n) arrays ->
  exists c,
    concatenate arrays axis = Ok c
    /\ shape c
       = set_nth base axis (sum (map (fun b => nth axis (shape b) 0) arrays)).
Proof.
  intros Hne Hax Hall.
  destruct arrays as [|a rest]; [congruence|].
  unfold concatenate.
  inversion Hall as [|? ? [n Ha] Hrest]; subst.
  assert (Hnd : (axis <? ndim a) = true).
  { apply Nat.ltb_lt. unfold ndim. rewrite Ha, set_nth_length. exact Hax. }
  assert (Hsame : forallb (fun b => same_off_axis axis (shape a) (shape b)) rest
                  = true).
  { apply forallb_forall. intros b Hb.
    rewrite Forall_forall in Hrest. destruct (Hrest b Hb) as [m Hm].
    unfold same_off_axis. rewrite Ha, Hm, !set_nth_twice.
    apply list_nat_eqb_refl. }
  rewrite Hnd, Hsame. simpl.
  eexists; split; [reflexivity|]. simpl.
  rewrite Ha, set_nth_twice. reflexivity.
Qed.

(** Splitting at the cumulative sums of [ns] gives one piece per entry of
    [ns], of that length along [axis], followed by the remainder. *)
Lemma split_from_shapes {A} (a : ndarray A) (axis : nat) (ns : list nat) :
  axis < ndim a ->
  forall start extra,
    nth axis (shape a) 0 = start + sum ns + extra ->
    exists pieces,
      split_from a axis start (cumsum_from start ns) = Ok pieces
      /\ map (@shape A) pieces
         = map (fun n => set_nth (shape a) axis n) ns
               ++ [set_nth (shape a) axis extra].
Proof.
  intros Hax. apply Nat.ltb_lt in Hax.
  induction ns as [|n ns IH]; intros start extra Hdim.
  - simpl. unfold slice_axis. rewrite Hax. rewrite sum_nil in Hdim.
    assert (E1 : (start <=? nth axis (shape a) 0) = true)
      by (apply Nat.leb_le; lia).
    rewrite E1, Nat.leb_refl. simpl.
    eexists; split; [reflexivity|]. simpl.
    do 2 f_equal. lia.
  - rewrite sum_cons in Hdim. simpl.
    unfold slice_axis at 1. rewrite Hax.
    assert (E1 : (start <=? start + n) = true) by (apply Nat.leb_le; lia).
    assert (E2 : (start + n <=? nth axis (shape a) 0) = true)
      by (apply Nat.leb_le; lia).
    rewrite E1, E2. simpl.
    destruct (IH (start + n) extra) as [pieces [E Hsh]]; [lia|].
    rewrite E. simpl.
    eexists; split; [reflexivity|]. simpl.
    rewrite Hsh. do 2 f_equal. lia.
Qed.

Lemma split_tokens_shapes {A} (a : ndarray A) (axis : nat) (ns : list nat) :
  axis < ndim a ->
  nth axis (shape a) 0 = sum ns ->
  exists pieces extra,
    split_tokens a ns axis = Ok (pieces ++ [extra])
    /\ map (@shape A) pieces = map (fun n => set_nth (shape a) axis n) ns.
Proof.
  intros Hax Hdim.
  destruct (split_from_shapes a axis ns Hax 0 0) as [ps [E Hsh]]; [lia|].
  apply map_eq_app in Hsh as (l1 & l2 & -> & H1 & H2).
  destruct l2 as [|x [|y l2]]; simpl in H2; try discriminate.
  exists l1, x. split; [exact E | exact H1].
Qed.

(** ** The traced monad *)

Lemma for_each_emit_eq {A} (f : A -> event) (xs : list A) :
  for_each_emit f xs = (map f xs, Ok tt).
Proof.
  induction xs as [|x xs IH]; simpl; [reflexivity|].
  rewrite IH. reflexivity.
Qed.

(** ** [__call__]: what it returns and what it emits *)

Section Call.
Import BlockTransformer.
Context {A : Type}.
Variable num_attention_heads : nat.
Variable zero : A.
Variable transformer : ndarray A -> ndarray bool -> bool -> result (ndarray A).
Variable prefix_groups : list (PrefixGroup.t A).
Variable timestep_groups : list (TimestepGroup.t A).
Variable timestep_pad_mask : ndarray bool.
Variable train : bool.

Lemma call_result :
  snd (__call__ num_attention_heads zero transformer prefix_groups timestep_groups
         timestep_pad_mask train)
  = (horizon <- check_horizon timestep_groups ;;
     attention_mask <- generate_attention_mask num_attention_heads
                         prefix_groups timestep_groups timestep_pad_mask ;;
     input_tokens <- assemble_input_tokens zero prefix_groups timestep_groups ;;
     output <- transformer input_tokens attention_mask train ;;
     disassemble prefix_groups timestep_groups horizon output).
Proof.
  unfold __call__. rewrite !for_each_emit_eq.
  unfold tbind, emit, lift. simpl.
  destruct (check_horizon timestep_groups) as [h|e]; simpl; [|reflexivity].
  destruct (generate_attention_mask _ _ _ _) as [m|e]; simpl; [|reflexivity].
  destruct (assemble_input_tokens _ _ _) as [x|e]; simpl; [|reflexivity].
  destruct (transformer _ _ _) as [y|e]; simpl; [|reflexivity].
  destruct (disassemble _ _ _ _); reflexivity.
Qed.

(** When the horizon check raises, the call raises the same exception
    having emitted the log lines only. *)
Lemma call_check_raises (e : exn) :
  check_horizon timestep_groups = Raise e ->
  __call__ num_attention_heads zero transformer prefix_groups timestep_groups
       timestep_pad_mask train
  = (call_log prefix_groups timestep_groups, Raise e).
Proof.
  intros H. unfold __call__, call_log.
  rewrite !for_each_emit_eq, H. simpl.
  rewrite app_nil_r. reflexivity.
Qed.
End Call.

(** ** The horizon check *)

Section HorizonCheck.
Import BlockTransformer Layout.
Context {A : Type}.

Lemma forallb_id_map {B} (f : B -> bool) (xs : list B) :
  forallb (fun b => b) (map f xs) = forallb f xs.
Proof. induction xs; simpl; congruence. Qed.

(** On valid timestep groups the check compares every horizon with the
    horizon of the first group. *)
Lemma check_horizon_eq (first : TimestepGroup.t A) (rest : list (TimestepGroup.t A)) :
  Forall valid_timestep (first :: rest) ->
  check_horizon (first :: rest)
  = if forallb (fun g : TimestepGroup.t A => horizon_of g =? horizon_of first)
               (first :: rest)
    then Ok (horizon_of first) else Raise AssertionError.
Proof.
  intros Hv. unfold check_horizon.
  change (getitem (first :: rest) 0) with (Ok first). cbn [bind].
  assert (Hs : forall g : TimestepGroup.t A, valid_timestep g ->
                shape_at (TimestepGroup.tokens g) 1 = Ok (horizon_of g)).
  { intros g Hg. apply shape_at_nth. unfold valid_timestep in Hg. lia. }
  rewrite (Hs first) by (inversion Hv; assumption). cbn [bind].
  rewrite (mapM_map _ (fun g : TimestepGroup.t A =>
                         horizon_of g =? horizon_of first)).
  - cbn [bind]. rewrite forallb_id_map. reflexivity.
  - eapply Forall_impl; [|exact Hv].
    intros g Hg. simpl. rewrite (Hs g Hg). reflexivity.
Qed.

Lemma check_horizon_passes (timestep_groups : list (TimestepGroup.t A))
      (horizon : nat) :
  Forall valid_timestep timestep_groups ->
  timestep_groups <> [] ->
  Forall (fun g : TimestepGroup.t A => horizon_of g = horizon) timestep_groups ->
  check_horizon timestep_groups = Ok horizon.
Proof.
  intros Hv Hne Hall.
  destruct timestep_groups as [|first rest]; [congruence|].
  rewrite (check_horizon_eq first rest Hv).
  assert (Hf : horizon_of first = horizon) by (inversion Hall; assumption).
  rewrite Hf.
  replace (forallb _ _) with true; [reflexivity|].
  symmetry. apply forallb_forall. intros g Hg.
  rewrite Forall_forall in Hall. apply Nat.eqb_eq. apply Hall. exact Hg.
Qed.

Lemma check_horizon_mismatch (timestep_groups : list (TimestepGroup.t A))
      (g1 g2 : TimestepGroup.t A) :
  Forall valid_timestep timestep_groups ->
  In g1 timestep_groups -> In g2 timestep_groups ->
  horizon_of g1 <> horizon_of g2 ->
  check_horizon timestep_groups = Raise AssertionError.
Proof.
  intros Hv H1 H2 Hne.
  destruct timestep_groups as [|first rest]; [inversion H1|].
  rewrite (check_horizon_eq first rest Hv).
  destruct (forallb _ _) eqn:Hall; [|reflexivity].
  exfalso. rewrite forallb_forall in Hall.
  apply Hall in H1. apply Hall in H2.
  apply Nat.eqb_eq in H1. apply Nat.eqb_eq in H2. congruence.
Qed.

(** The log lines contain neither of the two later events. *)
Lemma call_log_only_logs (prefix_groups : list (PrefixGroup.t A))
      (timestep_groups : list (TimestepGroup.t A)) (ev : event) :
  In ev (call_log prefix_groups timestep_groups) ->
  ev <> CallGenerateAttentionMask /\ ev <> CallTransformer.
Proof.
  intros Hin. unfold call_log in Hin.
  simpl in Hin. destruct Hin as [<-|Hin]; [split; discriminate|].
  apply in_app_or in Hin as [Hin|Hin].
  - apply in_map_iff in Hin as [g [<- _]]. split; discriminate.
  - simpl in Hin. destruct Hin as [<-|Hin]; [split; discriminate|].
    apply in_map_iff in Hin as [g [<- _]]. split; discriminate.
Qed.

(** C7.  With valid timestep groups: if two of them differ in their
    horizon, the call raises [AssertionError] (so it returns no groups)
    and has emitted neither the construction of the attention mask nor the
    invocation of the transformer; and if the groups (at least one) all
    have horizon [horizon], the check passes and yields [horizon]. *)
Theorem C7_horizon_mismatch_is_fatal
  (num_attention_heads : nat) (zero : A)
  (transformer : ndarray A -> ndarray bool -> bool -> result (ndarray A))
  (prefix_groups : list (PrefixGroup.t A))
  (timestep_groups : list (TimestepGroup.t A))
  (timestep_pad_mask : ndarray bool) (train : bool) :
  Forall valid_timestep timestep_groups ->
  (forall g1 g2,
      In g1 timestep_groups -> In g2 timestep_groups ->
      horizon_of g1 <> horizon_of g2 ->
      let run := __call__ num_attention_heads zero transformer prefix_groups
                      timestep_groups timestep_pad_mask train in
      snd run = Raise AssertionError
      /\ ~ In CallGenerateAttentionMask (fst run)
      /\ ~ In CallTransformer (fst run))
  /\ (forall horizon,
        timestep_groups <> [] ->
        Forall (fun g : TimestepGroup.t A => horizon_of g = horizon)
               timestep_groups ->
        check_horizon timestep_groups = Ok horizon).
Proof.
  intros Hv. split.
  - intros g1 g2 H1 H2 Hne run.
    pose proof (check_horizon_mismatch timestep_groups g1 g2 Hv H1 H2 Hne) as Hc.
    unfold run. rewrite (call_check_raises _ _ _ _ _ _ _ _ Hc). simpl.
    split; [reflexivity|].
    split; intros Hin; apply call_log_only_logs in Hin; destruct Hin; congruence.
  - intros horizon Hne Hall.
    apply check_horizon_passes; assumption.
Qed.
End HorizonCheck.

(** C7 at the example: ["obs"] has horizon 2, ["act"] has horizon 3. *)
Lemma C7_horizon_mismatch_is_fatal_witness :
  (let run := BlockTransformer.__call__ 8 0%Q (Example.widen 16) [Example.task]
                [Example.obs; Example.act_h3] Example.pad_mask false in
   snd run = Raise AssertionError
   /\ ~ In CallGenerateAttentionMask (fst run)
   /\ ~ In CallTransformer (fst run))
  /\ BlockTransformer.check_horizon [Example.obs] = Ok 2.
Proof.
  split.
  - apply (proj1 (C7_horizon_mismatch_is_fatal 8 0%Q (Example.widen 16)
                    [Example.task] [Example.obs; Example.act_h3]
                    Example.pad_mask false
                    ltac:(repeat constructor))
             Example.obs Example.act_h3).
    + left; reflexivity.
    + right; left; reflexivity.
    + vm_compute. discriminate.
  - apply (proj2 (C7_horizon_mismatch_is_fatal 8 0%Q (Example.widen 16)
                    [Example.task] [Example.obs]
                    Example.pad_mask false
                    ltac:(repeat constructor)) 2).
    + discriminate.
    + repeat constructor.
Defined.

(** ** Assembling and disassembling the token sequence *)

Section AssembleDisassemble.
Import BlockTransformer Layout RoundTrip.
Context {A : Type}.
Variables batch horizon d d_out : nat.
Variable prefix_groups : list (PrefixGroup.t A).
Variable timestep_groups : list (TimestepGroup.t A).
Hypothesis Hnonempty : timestep_groups <> [].
Hypothesis Hprefix : Forall (prefix_shaped batch d) prefix_groups.
Hypothesis Htimestep : Forall (timestep_shaped batch horizon d) timestep_groups.

Local Abbreviation tfp := (tokens_for_prefix prefix_groups).
Local Abbreviation tpts := (tokens_per_time_step timestep_groups).

Lemma shaped_valid_groups : valid_groups prefix_groups timestep_groups.
Proof.
  split.
  - eapply Forall_impl; [|exact Hprefix].
    intros g [n Hg]. unfold valid_prefix, ndim. rewrite Hg. reflexivity.
  - eapply Forall_impl; [|exact Htimestep].
    intros g [n Hg]. unfold valid_timestep, ndim. rewrite Hg. reflexivity.
Qed.

Lemma shaped_horizon :
  Forall (fun g : TimestepGroup.t A => horizon_of g = horizon) timestep_groups.
Proof.
  eapply Forall_impl; [|exact Htimestep].
  intros g [n Hg]. unfold horizon_of. rewrite Hg. reflexivity.
Qed.

Lemma all_timestep_tokens_shape :
  exists c,
    concatenate (map (@TimestepGroup.tokens A) timestep_groups) 2 = Ok c
    /\ shape c = [batch; horizon; tpts; d].
Proof.
  destruct (concatenate_shape (map (@TimestepGroup.tokens A) timestep_groups) 2
              [batch; horizon; 0; d]) as [c [E Hc]].
  - destruct timestep_groups; [congruence | discriminate].
  - simpl. lia.
  - apply Forall_map. eapply Forall_impl; [|exact Htimestep].
    intros g [n Hg]. exists n. exact Hg.
  - exists c. split; [exact E|]. rewrite Hc, map_map. reflexivity.
Qed.

Lemma all_prefix_tokens_shape (zero : A) :
  exists p,
    (if 0 <? List.length prefix_groups
     then concatenate (map (@PrefixGroup.tokens A) prefix_groups) 1
     else
       first <- getitem timestep_groups 0 ;;
       batch <- shape_at (TimestepGroup.tokens first) 0 ;;
       d <- shape_last (TimestepGroup.tokens first) ;;
       Ok (fzeros zero [batch; 0; d])) = Ok p
    /\ shape p = [batch; tfp; d].
Proof.
  destruct prefix_groups as [|g gs] eqn:Epg.
  - simpl. destruct timestep_groups as [|first rest]; [congruence|].
    inversion Htimestep as [|? ? [n Hfirst] _]; subst.
    unfold getitem, shape_at, shape_last. simpl. rewrite Hfirst. simpl.
    eexists; split; reflexivity.
  - change (0 <? List.length (g :: gs)) with true. cbv iota.
    destruct (concatenate_shape (map (@PrefixGroup.tokens A) (g :: gs)) 1
                [batch; 0; d]) as [c [E Hc]].
    + discriminate.
    + simpl. lia.
    + apply Forall_map. eapply Forall_impl; [|exact Hprefix].
      intros g' [n Hg]. exists n. exact Hg.
    + exists c. split; [exact E|]. rewrite Hc, map_map. reflexivity.
Qed.

(** The assembled sequence has shape [(batch, total_tokens, d)]. *)
Lemma assemble_input_tokens_shape (zero : A) :
  exists x,
    assemble_input_tokens zero prefix_groups timestep_groups = Ok x
    /\ shape x = [batch; tfp + horizon * tpts; d].
Proof.
  unfold assemble_input_tokens.
  destruct (all_prefix_tokens_shape zero) as [p [Ep Hp]]. rewrite Ep. cbn [bind].
  destruct all_timestep_tokens_shape as [c [Ec Hc]]. rewrite Ec. cbn [bind].
  unfold rearrange_fold. rewrite Hc. cbn [bind].
  match goal with
  | |- context [concatenate [p; ?t] 1] =>
      destruct (concatenate_shape [p; t] 1 [batch; 0; d]) as [x [Ex Hx]]
  end.
  - discriminate.
  - simpl. lia.
  - repeat constructor.
    + exists tfp. exact Hp.
    + exists (horizon * tpts). reflexivity.
  - exists x. split; [exact Ex|]. rewrite Hx. simpl.
    rewrite Hp. simpl. rewrite !sum_cons, sum_nil, Nat.add_0_r. reflexivity.
Qed.
End AssembleDisassemble.

Section ReplaceAll.
Import BlockTransformer Layout RoundTrip.
Context {A : Type}.
Variables batch horizon d d_out : nat.

(** Rebuilding the prefix groups around the pieces of the split: one
    output group per input group, in order; a surplus piece is dropped by
    [zip]. *)
Lemma replace_all_prefix (groups : list (PrefixGroup.t A)) :
  Forall (prefix_shaped batch d) groups ->
  forall pieces extra,
    map (@shape A) pieces
    = map (fun n => [batch; n; d_out]) (tokens_per_prefix_group groups) ->
    exists outs,
      mapM (fun '(group, embeddings) => PrefixGroup.replace group embeddings)
           (combine groups (pieces ++ extra)) = Ok outs
      /\ Forall2 (prefix_output_of batch d d_out) groups outs.
Proof.
  induction 1 as [|g gs [n Hg] _ IH]; intros pieces extra Hsh.
  - exists []. split; [reflexivity | constructor].
  - destruct pieces as [|e pieces]; [discriminate|].
    simpl in Hsh. injection Hsh as He Hrest.
    destruct (IH pieces extra Hrest) as [outs [E Hall]].
    cbn [app combine mapM].
    unfold PrefixGroup.replace at 1, PrefixGroup.__post_init__, ndim.
    cbn [PrefixGroup.tokens]. rewrite He. cbn [List.length Nat.eqb bind].
    rewrite E. cbn [bind].
    eexists; split; [reflexivity|].
    constructor; [|exact Hall].
    repeat split; simpl. exists n. split; [exact Hg|].
    rewrite He, Hg. reflexivity.
Qed.

Lemma replace_all_timestep (groups : list (TimestepGroup.t A)) :
  Forall (timestep_shaped batch horizon d) groups ->
  forall pieces extra,
    map (@shape A) pieces
    = map (fun n => [batch; horizon; n; d_out])
          (tokens_per_timestep_group groups) ->
    exists outs,
      mapM (fun '(group, embeddings) => TimestepGroup.replace group embeddings)
           (combine groups (pieces ++ extra)) = Ok outs
      /\ Forall2 (timestep_output_of batch horizon d d_out) groups outs.
Proof.
  induction 1 as [|g gs [n Hg] _ IH]; intros pieces extra Hsh.
  - exists []. split; [reflexivity | constructor].
  - destruct pieces as [|e pieces]; [discriminate|].
    simpl in Hsh. injection Hsh as He Hrest.
    destruct (IH pieces extra Hrest) as [outs [E Hall]].
    cbn [app combine mapM].
    unfold TimestepGroup.replace at 1, TimestepGroup.__post_init__, ndim.
    cbn [TimestepGroup.tokens]. rewrite He. cbn [List.length Nat.eqb bind].
    rewrite E. cbn [bind].
    eexists; split; [reflexivity|].
    constructor; [|exact Hall].
    repeat split; simpl. exists n. split; [exact Hg|].
    rewrite He, Hg. reflexivity.
Qed.
End ReplaceAll.

Section RoundTripClaim.
Import BlockTransformer Layout RoundTrip.
Context {A : Type}.
Variables batch horizon d d_out : nat.
Variable prefix_groups : list (PrefixGroup.t A).
Variable timestep_groups : list (TimestepGroup.t A).
Hypothesis Hnonempty : timestep_groups <> [].
Hypothesis Hhorizon : 0 < horizon.
Hypothesis Hprefix : Forall (prefix_shaped batch d) prefix_groups.
Hypothesis Htimestep : Forall (timestep_shaped batch horizon d) timestep_groups.

Local Abbreviation tfp := (tokens_for_prefix prefix_groups).
Local Abbreviation tpts := (tokens_per_time_step timestep_groups).

(** Splitting an output of shape [(batch, total_tokens, d_out)] back into
    groups returns one group per input group, in order, with the input
    shapes at width [d_out]. *)
Lemma disassemble_shapes (output : ndarray A) :
  shape output = [batch; tfp + horizon * tpts; d_out] ->
  exists all_prefix_outputs all_timestep_outputs,
    disassemble prefix_groups timestep_groups horizon output
    = Ok (all_prefix_outputs, all_timestep_outputs)
    /\ Forall2 (prefix_output_of batch d d_out) prefix_groups all_prefix_outputs
    /\ Forall2 (timestep_output_of batch horizon d d_out)
               timestep_groups all_timestep_outputs.
Proof.
  intros Hout.
  pose proof (shaped_valid_groups batch horizon d prefix_groups timestep_groups
                Hprefix Htimestep) as Hvalid.
  unfold disassemble.
  rewrite (tokens_per_prefix_group_Ok prefix_groups timestep_groups Hvalid).
  cbn [bind].
  (* the split into prefix and timestep embeddings *)
  destruct (split_from_shapes output 1 [tfp]) with (start := 0)
    (extra := horizon * tpts) as [parts [Es Hs]].
  { unfold ndim. rewrite Hout. simpl. lia. }
  { rewrite Hout, sum_cons, sum_nil. simpl. lia. }
  change (cumsum_from 0 [tfp]) with [tfp] in Es.
  unfold Np.split. fold tfp. rewrite Es. cbn [bind].
  destruct parts as [|pe [|te [|? ?]]]; try discriminate.
  simpl in Hs. injection Hs as Hpe Hte. rewrite Hout in Hpe, Hte. simpl in Hpe, Hte.
  (* the prefix groups *)
  assert (Hp : exists outs,
             (if 0 <? List.length prefix_groups
              then
                prefix_embeddings_split <-
                  split_tokens pe (tokens_per_prefix_group prefix_groups) 1 ;;
                mapM (fun '(group, embeddings) =>
                        PrefixGroup.replace group embeddings)
                     (combine prefix_groups prefix_embeddings_split)
              else Ok []) = Ok outs
             /\ Forall2 (prefix_output_of batch d d_out) prefix_groups outs).
  { destruct (0 <? List.length prefix_groups) eqn:El.
    - destruct (split_tokens_shapes pe 1 (tokens_per_prefix_group prefix_groups))
        as [pieces [extra [E Hsh]]].
      + unfold ndim. rewrite Hpe. simpl. lia.
      + rewrite Hpe. reflexivity.
      + rewrite E. cbn [bind].
        apply (replace_all_prefix batch d d_out prefix_groups Hprefix).
        rewrite Hsh, Hpe. reflexivity.
    - apply Nat.ltb_ge in El.
      destruct prefix_groups; [|simpl in El; lia].
      exists []. split; [reflexivity | constructor]. }
  destruct Hp as [outs_p [Ep Hfp]]. rewrite Ep. cbn [bind].
  (* the timestep groups *)
  unfold rearrange_unfold. rewrite Hte.
  destruct horizon as [|h] eqn:Eh; [lia|]. rewrite <- Eh in *.
  assert (Hmod : ((horizon * tpts) mod horizon =? 0) = true).
  { apply Nat.eqb_eq. rewrite Nat.mul_comm. apply Nat.Div0.mod_mul. }
  rewrite Hmod. cbn [bind].
  assert (Hdiv : horizon * tpts / horizon = tpts).
  { rewrite Nat.mul_comm. apply Nat.div_mul. lia. }
  rewrite Hdiv.
  rewrite (tokens_per_timestep_group_Ok prefix_groups timestep_groups Hvalid).
  cbn [bind].
  match goal with
  | |- context [split_tokens ?t _ 2] =>
      destruct (split_tokens_shapes t 2 (tokens_per_timestep_group timestep_groups))
        as [pieces [extra [E Hsh]]]
  end.
  { unfold ndim. simpl. lia. }
  { reflexivity. }
  rewrite E. cbn [bind].
  destruct (replace_all_timestep batch horizon d d_out timestep_groups Htimestep
              pieces [extra]) as [outs_t [Et Hft]].
  { rewrite Hsh. reflexivity. }
  rewrite Et. cbn [bind].
  exists outs_p, outs_t. auto.
Qed.

(** C6.  For groups of a common batch size and embedding width, at least
    one timestep group, a common positive horizon, a rank-2 pad mask and an
    encoder that keeps the sequence length and returns width [d_out], the
    forward pass returns one output group per input group, in the same
    order, with the same name and [attends_to]; every output prefix group
    has shape [(batch, n_tokens, d_out)] and every output timestep group
    has shape [(batch, horizon, n_tokens, d_out)] with the token count of
    its input group. *)
Theorem C6_shape_round_trip
  (num_attention_heads : nat) (zero : A)
  (transformer : ndarray A -> ndarray bool -> bool -> result (ndarray A))
  (timestep_pad_mask : ndarray bool) (pad_batch pad_horizon : nat)
  (train : bool) :
  shape timestep_pad_mask = [pad_batch; pad_horizon] ->
  preserves_length batch d d_out transformer ->
  exists all_prefix_outputs all_timestep_outputs,
    snd (__call__ num_attention_heads zero transformer prefix_groups
              timestep_groups timestep_pad_mask train)
    = Ok (all_prefix_outputs, all_timestep_outputs)
    /\ Forall2 (prefix_output_of batch d d_out) prefix_groups all_prefix_outputs
    /\ Forall2 (timestep_output_of batch horizon d d_out)
               timestep_groups all_timestep_outputs.
Proof.
  intros Hpad Henc.
  pose proof (shaped_valid_groups batch horizon d prefix_groups timestep_groups
                Hprefix Htimestep) as Hvalid.
  rewrite call_result.
  assert (Hc : check_horizon timestep_groups = Ok horizon).
  { apply check_horizon_passes.
    - exact (proj2 Hvalid).
    - exact Hnonempty.
    - exact (shaped_horizon batch horizon d timestep_groups Htimestep). }
  rewrite Hc. cbn [bind].
  destruct (generate_attention_mask_spec prefix_groups timestep_groups Hvalid
              timestep_pad_mask pad_batch pad_horizon Hpad num_attention_heads)
    as [m [Em _]].
  rewrite Em. cbn [bind].
  destruct (assemble_input_tokens_shape batch horizon d prefix_groups
              timestep_groups Hnonempty Hprefix Htimestep zero) as [x [Ex Hx]].
  rewrite Ex. cbn [bind].
  destruct (Henc x m train _ Hx) as [y [Ey Hy]].
  rewrite Ey. cbn [bind].
  apply disassemble_shapes. exact Hy.
Qed.
End RoundTripClaim.

(** C6 at the example groups (width 4 to width 16), with the prefix group
    and with no prefix group at all. *)
Lemma C6_shape_round_trip_witness :
  (exists all_prefix_outputs all_timestep_outputs,
      snd (BlockTransformer.__call__ 8 0%Q (Example.widen 16) [Example.task]
             [Example.obs] Example.pad_mask false)
      = Ok (all_prefix_outputs, all_timestep_outputs)
      /\ Forall2 (RoundTrip.prefix_output_of 1 4 16)
                 [Example.task] all_prefix_outputs
      /\ Forall2 (RoundTrip.timestep_output_of 1 2 4 16)
                 [Example.obs] all_timestep_outputs)
  /\ (exists all_prefix_outputs all_timestep_outputs,
         snd (BlockTransformer.__call__ 8 0%Q (Example.widen 16) []
                [Example.obs] Example.pad_mask false)
         = Ok (all_prefix_outputs, all_timestep_outputs)
         /\ Forall2 (RoundTrip.prefix_output_of 1 4 16) [] all_prefix_outputs
         /\ Forall2 (RoundTrip.timestep_output_of 1 2 4 16)
                    [Example.obs] all_timestep_outputs).
Proof.
  split.
  - apply (C6_shape_round_trip 1 2 4 16 [Example.task] [Example.obs]
             ltac:(discriminate) ltac:(lia)
             ltac:(repeat constructor; exists 3; reflexivity)
             ltac:(repeat constructor; exists 2; reflexivity)
             8 0%Q (Example.widen 16) Example.pad_mask 1 2 false).
    + reflexivity.
    + intros x mask train n Hx. unfold Example.widen. rewrite Hx.
      eexists; split; reflexivity.
  - apply (C6_shape_round_trip 1 2 4 16 [] [Example.obs]
             ltac:(discriminate) ltac:(lia)
             ltac:(constructor)
             ltac:(repeat constructor; exists 2; reflexivity)
             8 0%Q (Example.widen 16) Example.pad_mask 1 2 false).
    + reflexivity.
    + intros x mask train n Hx. unfold Example.widen. rewrite Hx.
      eexists; split; reflexivity.
Defined.

(** ** The mixture resolver *)

Section Dedup.
Import OxeMixes MixSpec.
Context {W : Type}.

Lemma filter_filter {B} (f g : B -> bool) (xs : list B) :
  filter f (filter g xs) = filter (fun x => g x && f x) xs.
Proof.
  induction xs as [|x xs IH]; simpl; [reflexivity|].
  destruct (g x); simpl; [destruct (f x)|]; rewrite IH; reflexivity.
Qed.

Lemma str_in_app (s : string) (xs ys : list string) :
  str_in s (xs ++ ys) = str_in s xs || str_in s ys.
Proof. unfold str_in. apply existsb_app. Qed.

(** The loop with its two accumulators computes the stated deduplication
    of what is left, restricted to the names not yet included. *)
Lemma dedup_loop_acc (data_mix filtered : list (string * W))
      (included : list string) :
  dedup_loop data_mix filtered included
  = filtered ++ filter (fun p => negb (str_in (fst p) included))
                       (first_occurrences data_mix).
Proof.
  revert filtered included.
  induction data_mix as [|[dataset weight] rest IH]; intros filtered included.
  - simpl. rewrite app_nil_r. reflexivity.
  - cbn [dedup_loop first_occurrences filter fst].
    destruct (str_in dataset included) eqn:Ein; cbn [negb].
    + rewrite IH, filter_filter. f_equal.
      apply filter_ext. intros [n w]. simpl.
      destruct (String.eqb n dataset) eqn:En; simpl; [|reflexivity].
      apply String.eqb_eq in En. subst. rewrite Ein. reflexivity.
    + rewrite IH, filter_filter, <- app_assoc. simpl. do 2 f_equal.
      apply filter_ext. intros [n w]. simpl.
      rewrite str_in_app. unfold str_in at 2. simpl.
      rewrite orb_false_r, negb_orb. apply andb_comm.
Qed.

Lemma dedup_loop_first_occurrences (data_mix : list (string * W)) :
  dedup_loop data_mix [] [] = first_occurrences data_mix.
Proof.
  rewrite dedup_loop_acc. simpl.
  induction (first_occurrences data_mix) as [|x xs IH]; simpl; congruence.
Qed.

Lemma first_occurrences_names_subset (data_mix : list (string * W)) (p : string * W) :
  In p (first_occurrences data_mix) -> In p data_mix.
Proof.
  induction data_mix as [|[n w] rest IH]; simpl; [tauto|].
  intros [H|H]; [left; exact H|].
  apply filter_In in H as [H _]. right. apply IH. exact H.
Qed.

(** No name is kept twice. *)
Lemma first_occurrences_NoDup (data_mix : list (string * W)) :
  NoDup (map fst (first_occurrences data_mix)).
Proof.
  induction data_mix as [|[n w] rest IH]; simpl; constructor.
  - intros Hin. apply in_map_iff in Hin as [[n' w'] [Hn Hin]].
    simpl in Hn. subst n'. apply filter_In in Hin as [_ Hf].
    simpl in Hf. rewrite String.eqb_refl in Hf. discriminate.
  - revert IH. generalize (first_occurrences rest). intros l.
    induction l as [|[n' w'] l IHl]; simpl; intros Hnd; [constructor|].
    inversion Hnd as [|? ? Hnotin Hnd']; subst.
    destruct (String.eqb n' n); simpl; [apply IHl; exact Hnd'|].
    constructor; [|apply IHl; exact Hnd'].
    intros Hin. apply Hnotin.
    apply in_map_iff in Hin as [q [Hq Hin]]. apply filter_In in Hin as [Hin _].
    apply in_map_iff. exists q. auto.
Qed.

(** Every name keeps the weight of its first entry. *)
Lemma first_occurrences_first_weight (data_mix : list (string * W))
      (dataset : string) :
  first_weight (first_occurrences data_mix) dataset
  = first_weight data_mix dataset.
Proof.
  induction data_mix as [|[n w] rest IH]; simpl; [reflexivity|].
  destruct (String.eqb dataset n) eqn:E; [reflexivity|].
  rewrite <- IH. generalize (first_occurrences rest). intros l.
  induction l as [|[n' w'] l IHl]; simpl; [reflexivity|].
  destruct (String.eqb n' n) eqn:E'; simpl.
  - apply String.eqb_eq in E'. subst n'. rewrite E. exact IHl.
  - rewrite IHl. reflexivity.
Qed.
End Dedup.

Section Resolve.
Import OxeMixes MixSpec.
Context {W : Type}.
Variable registry : string -> option dataset_kwargs.
Variable data_dir : string.
Variables n_third_person_cameras n_wrist_cameras : Z.
Variables load_depth load_proprio : bool.

Local Abbreviation config_of :=
  (@MixSpec.config_of W data_dir n_third_person_cameras n_wrist_cameras
     load_depth load_proprio).

(** When every dataset of the mix is registered, the second loop returns
    the configurations and weights of the supported entries, in order and
    in lockstep. *)
Lemma resolve_loop_spec (data_mix : list (string * W))
      (data_kwargs_list : list resolved_kwargs) (weights : list W) :
  (forall p, In p data_mix -> registry (fst p) <> None) ->
  resolve_loop registry data_mix data_dir n_third_person_cameras
    n_wrist_cameras load_depth load_proprio data_kwargs_list weights
  = Ok (data_kwargs_list ++ map config_of (supported registry data_mix),
        weights ++ map (@weight_of W) (supported registry data_mix)).
Proof.
  revert data_kwargs_list weights.
  induction data_mix as [|[dataset weight] rest IH]; intros ks ws Hreg.
  - simpl. rewrite !app_nil_r. reflexivity.
  - cbn [resolve_loop supported]. unfold lookup.
    destruct (registry dataset) as [kw|] eqn:Er.
    + cbn [bind].
      destruct (is_not_EEF_POS (action_encoding kw)).
      * apply IH. intros p Hp. apply Hreg. right. exact Hp.
      * rewrite IH by (intros p Hp; apply Hreg; right; exact Hp).
        rewrite <- !app_assoc. reflexivity.
    + exfalso. apply (Hreg (dataset, weight)); [left; reflexivity | exact Er].
Qed.

(** When moreover every dataset has the supported encoding, no entry is
    left out. *)
Lemma supported_all (data_mix : list (string * W)) :
  (forall p, In p data_mix ->
             exists kw, registry (fst p) = Some kw
                        /\ action_encoding kw = EEF_POS) ->
  map (fun e => (r_name (config_of e), weight_of e)) (supported registry data_mix)
  = data_mix.
Proof.
  induction data_mix as [|[dataset weight] rest IH]; intros H; [reflexivity|].
  cbn [supported].
  destruct (H (dataset, weight)) as [kw [Er Ee]]; [left; reflexivity|].
  simpl in Er. rewrite Er, Ee. simpl.
  rewrite IH by (intros p Hp; apply H; right; exact Hp). reflexivity.
Qed.
End Resolve.

Section ResolverClaims.
Import OxeMixes MixSpec.
Variable registry : string -> option dataset_kwargs.
Variable data_dir : string.
Variables n_third_person_cameras n_wrist_cameras : Z.
Variables load_depth load_proprio : bool.

Local Abbreviation run W data_mix deduplicate :=
  (@make_oxe_dataset_kwargs_and_weights W registry data_mix data_dir deduplicate
     n_third_person_cameras n_wrist_cameras load_depth load_proprio).
Local Abbreviation config W :=
  (@MixSpec.config_of W data_dir n_third_person_cameras n_wrist_cameras
     load_depth load_proprio).

Lemma combine_map {B C D} (f : B -> C) (g : B -> D) (xs : list B) :
  combine (map f xs) (map g xs) = map (fun x => (f x, g x)) xs.
Proof. induction xs; simpl; congruence. Qed.

Lemma supported_In {W} (data_mix : list (string * W)) dataset weight kw :
  In (dataset, weight, kw) (supported registry data_mix) ->
  registry dataset = Some kw /\ In (dataset, weight) data_mix.
Proof.
  induction data_mix as [|[n w] rest IH]; simpl; [tauto|].
  destruct (registry n) as [kw'|] eqn:Er.
  - destruct (is_not_EEF_POS (action_encoding kw')).
    + intros H. destruct (IH H). auto.
    + intros [H|H]; [inversion H; subst; auto | destruct (IH H); auto].
  - intros H. destruct (IH H). auto.
Qed.

(** The deduplicating resolver on a mix of registered datasets. *)
Lemma make_deduplicated {W} (data_mix : list (string * W)) :
  (forall p, In p data_mix -> registry (fst p) <> None) ->
  run W data_mix true
  = Ok (map (config W) (supported registry (first_occurrences data_mix)),
        map (@weight_of W) (supported registry (first_occurrences data_mix))).
Proof.
  intros Hreg. unfold make_oxe_dataset_kwargs_and_weights.
  rewrite dedup_loop_first_occurrences, resolve_loop_spec; [reflexivity|].
  intros p Hp. apply Hreg. apply first_occurrences_names_subset. exact Hp.
Qed.

Lemma make_not_deduplicated {W} (data_mix : list (string * W)) :
  (forall p, In p data_mix -> registry (fst p) <> None) ->
  run W data_mix false
  = Ok (map (config W) (supported registry data_mix),
        map (@weight_of W) (supported registry data_mix)).
Proof.
  intros Hreg. unfold make_oxe_dataset_kwargs_and_weights.
  rewrite resolve_loop_spec; [reflexivity | exact Hreg].
Qed.

(** C8.  With [deduplicate = true] and every dataset of the mix registered
    with the supported encoding, the resolver returns configurations and
    weights of equal length which, paired up in order, are the first
    occurrences of the mix: no name twice, and each name with the weight of
    its first entry.  In particular the mix
    [[("a", 1.0), ("b", 2.0), ("a", 3.0)]] yields the names ["a"], ["b"]
    with the weights 1.0, 2.0. *)
Theorem C8_deduplication_first_occurrence_wins :
  (forall (W : Type) (data_mix : list (string * W)),
      (forall p, In p data_mix ->
                 exists kw, registry (fst p) = Some kw
                            /\ action_encoding kw = EEF_POS) ->
      exists configs weights,
        run W data_mix true = Ok (configs, weights)
        /\ combine (map r_name configs) weights = first_occurrences data_mix
        /\ List.length configs = List.length weights
        /\ NoDup (map r_name configs)
        /\ forall dataset,
             first_weight (combine (map r_name configs) weights) dataset
             = first_weight data_mix dataset)
  /\ ((forall dataset, In dataset ["a"; "b"]%string ->
                       exists kw, registry dataset = Some kw
                                  /\ action_encoding kw = EEF_POS) ->
      exists configs,
        run Q mix_with_duplicate true = Ok (configs, [1%Q; 2%Q])
        /\ map r_name configs = ["a"; "b"]%string).
Proof.
  assert (Hgen : forall (W : Type) (data_mix : list (string * W)),
             (forall p, In p data_mix ->
                        exists kw, registry (fst p) = Some kw
                                   /\ action_encoding kw = EEF_POS) ->
             exists entries,
               run W data_mix true
               = Ok (map (config W) entries, map (@weight_of W) entries)
               /\ map (fun e => (r_name (config W e), weight_of e)) entries
                  = first_occurrences data_mix).
  { intros W data_mix Hall.
    exists (supported registry (first_occurrences data_mix)). split.
    - apply make_deduplicated. intros p Hp.
      destruct (Hall p Hp) as [kw [E _]]. congruence.
    - apply supported_all. intros p Hp. apply Hall.
      apply first_occurrences_names_subset. exact Hp. }
  split.
  - intros W data_mix Hall.
    destruct (Hgen W data_mix Hall) as [entries [E Hentries]].
    exists (map (config W) entries), (map (@weight_of W) entries).
    split; [exact E|].
    assert (Hc : combine (map r_name (map (config W) entries))
                         (map (@weight_of W) entries)
                 = first_occurrences data_mix).
    { rewrite map_map, combine_map. exact Hentries. }
    split; [exact Hc|]. split; [rewrite !length_map; reflexivity|]. split.
    + replace (map r_name (map (config W) entries))
        with (map fst (first_occurrences data_mix)).
      * apply first_occurrences_NoDup.
      * rewrite <- Hentries, !map_map. reflexivity.
    + intros dataset. rewrite Hc. apply first_occurrences_first_weight.
  - intros Hab.
    destruct (Hgen Q mix_with_duplicate) as [entries [E Hentries]].
    { intros p Hp. apply Hab. simpl in Hp.
      destruct Hp as [<-|[<-|[<-|[]]]]; simpl; auto. }
    exists (map (config Q) entries). simpl in Hentries.
    destruct entries as [|e1 [|e2 [|e3 entries]]]; try discriminate.
    simpl in Hentries. injection Hentries as Hn1 Hw1 Hn2 Hw2.
    rewrite E. simpl. rewrite Hn1, Hn2, Hw1, Hw2. auto.
Qed.

Lemma trim_keys_counts (keys : list string) :
  (0 <= n_third_person_cameras)%Z -> (0 <= n_wrist_cameras)%Z ->
  trim_keys keys n_third_person_cameras n_wrist_cameras
  = firstn (Z.to_nat n_third_person_cameras) keys
    ++ (if (0 <? n_wrist_cameras)%Z
        then lastn (Z.to_nat n_wrist_cameras) keys else []).
Proof.
  intros H3 Hw. unfold trim_keys, slice_to, slice_from, lastn.
  apply Z.leb_le in H3 as ->. f_equal.
  destruct (Z.eqb_spec n_wrist_cameras 0) as [->|Hne]; simpl; [reflexivity|].
  assert (E1 : (0 <? n_wrist_cameras)%Z = true) by (apply Z.ltb_lt; lia).
  assert (E2 : (0 <=? - n_wrist_cameras)%Z = false) by (apply Z.leb_gt; lia).
  rewrite E1, E2, Z.opp_involutive. reflexivity.
Qed.

Lemma supported_is_filter {W} (data_mix : list (string * W)) :
  map (fun e => (r_name (config W e), weight_of e)) (supported registry data_mix)
  = filter (is_supported registry) data_mix.
Proof.
  induction data_mix as [|[n w] rest IH]; [reflexivity|].
  cbn [supported filter]. unfold is_supported at 1. cbn [fst].
  destruct (registry n) as [kw|]; [|exact IH].
  destruct (is_not_EEF_POS (action_encoding kw)); cbn [negb]; [exact IH|].
  cbn [map]. rewrite IH. reflexivity.
Qed.

(** C9.  For non-negative camera counts and a mix of registered datasets
    the resolver returns one configuration and one weight for every entry
    of the mix (of its first occurrences when [deduplicate] is set) whose
    dataset has the supported encoding, in the order of the mix, and the
    image keys of each of these configurations are the first
    [n_third_person_cameras] registered keys of its dataset followed, when
    [n_wrist_cameras > 0], by the last [n_wrist_cameras] registered keys.
    In particular, resolving a dataset registered with the supported
    encoding and the image keys [cam0, cam1, cam2, wrist0] with one camera
    of each kind returns exactly one configuration, for that dataset, with
    the image keys [cam0, wrist0]. *)
Theorem C9_camera_trimming :
  (forall (W : Type) (data_mix : list (string * W)) (deduplicate : bool),
      (0 <= n_third_person_cameras)%Z -> (0 <= n_wrist_cameras)%Z ->
      (forall p, In p data_mix -> registry (fst p) <> None) ->
      exists configs weights,
        run W data_mix deduplicate = Ok (configs, weights)
        /\ List.length configs = List.length weights
        /\ combine (map r_name configs) weights
           = filter (is_supported registry)
                    (if deduplicate then first_occurrences data_mix
                     else data_mix)
        /\ Forall (fun c =>
                     exists kw,
                       registry (r_name c) = Some kw
                       /\ r_image_obs_keys c
                          = firstn (Z.to_nat n_third_person_cameras)
                                   (image_obs_keys kw)
                            ++ (if (0 <? n_wrist_cameras)%Z
                                then lastn (Z.to_nat n_wrist_cameras)
                                           (image_obs_keys kw)
                                else []))
                  configs)
  /\ (forall (W : Type) (dataset : string) (weight : W) (kw : dataset_kwargs)
             (deduplicate : bool),
        n_third_person_cameras = 1%Z -> n_wrist_cameras = 1%Z ->
        registry dataset = Some kw ->
        action_encoding kw = EEF_POS ->
        image_obs_keys kw = ["cam0"; "cam1"; "cam2"; "wrist0"]%string ->
        exists config,
          run W [(dataset, weight)] deduplicate = Ok ([config], [weight])
          /\ r_name config = dataset
          /\ r_image_obs_keys config = ["cam0"; "wrist0"]%string)
  /\ trim_keys ["cam0"; "cam1"; "cam2"; "wrist0"]%string 1 1
     = ["cam0"; "wrist0"]%string.
Proof.
  split; [|split; [|reflexivity]].
  2:{ intros W dataset weight kw deduplicate H3 Hw Hreg Henc Hkeys.
      exists (config W (dataset, weight, kw)).
      unfold make_oxe_dataset_kwargs_and_weights.
      assert (Hd : (if deduplicate
                    then dedup_loop [(dataset, weight)] [] []
                    else [(dataset, weight)]) = [(dataset, weight)])
        by (destruct deduplicate; reflexivity).
      rewrite Hd. cbn [resolve_loop]. unfold lookup. rewrite Hreg.
      cbn [bind]. rewrite Henc. cbn [is_not_EEF_POS app].
      split; [reflexivity|]. split; [reflexivity|].
      cbn [config_of adjust r_image_obs_keys].
      rewrite Hkeys, H3, Hw. reflexivity. }
  intros W data_mix deduplicate H3 Hw Hreg.
  assert (Hentries : forall entries : list (string * W * dataset_kwargs),
             (forall n w kw, In (n, w, kw) entries -> registry n = Some kw) ->
             Forall (fun c =>
                       exists kw,
                         registry (r_name c) = Some kw
                         /\ r_image_obs_keys c
                            = firstn (Z.to_nat n_third_person_cameras)
                                     (image_obs_keys kw)
                              ++ (if (0 <? n_wrist_cameras)%Z
                                  then lastn (Z.to_nat n_wrist_cameras)
                                             (image_obs_keys kw)
                                  else []))
                    (map (config W) entries)).
  { intros entries Hin. apply Forall_map, Forall_forall.
    intros [[n w] kw] He. exists kw. split; [apply (Hin n w kw He)|].
    simpl. apply trim_keys_counts; assumption. }
  set (mix' := if deduplicate then first_occurrences data_mix else data_mix).
  assert (E : run W data_mix deduplicate
              = Ok (map (config W) (supported registry mix'),
                    map (@weight_of W) (supported registry mix'))).
  { unfold mix'. destruct deduplicate.
    - apply make_deduplicated. exact Hreg.
    - apply make_not_deduplicated. exact Hreg. }
  exists (map (config W) (supported registry mix')),
         (map (@weight_of W) (supported registry mix')).
  split; [exact E|]. split; [rewrite !length_map; reflexivity|]. split.
  - rewrite map_map, combine_map. apply supported_is_filter.
  - apply Hentries. intros n w kw He. apply (supported_In _ _ _ _ He).
Qed.
End ResolverClaims.

(** C8 at the example registry. *)
Lemma C8_deduplication_first_occurrence_wins_witness :
  exists configs,
    OxeMixes.make_oxe_dataset_kwargs_and_weights MixSpec.registry
      MixSpec.mix_with_duplicate "gs://data" true 1 0 true true
    = Ok (configs, [1%Q; 2%Q])
    /\ map OxeMixes.r_name configs = ["a"; "b"]%string.
Proof.
  apply (proj2 (C8_deduplication_first_occurrence_wins MixSpec.registry
                  "gs://data" 1 0 true true)).
  intros dataset [<-|[<-|[]]]; eexists; split; reflexivity.
Defined.

(** C9 at the example registry: one third-person and one wrist camera. *)
Lemma C9_camera_trimming_witness :
  (exists configs weights,
      OxeMixes.make_oxe_dataset_kwargs_and_weights MixSpec.registry
        MixSpec.mix_with_duplicate "gs://data" true 1 1 true true
      = Ok (configs, weights)
      /\ List.length configs = List.length weights
      /\ combine (map OxeMixes.r_name configs) weights
         = filter (MixSpec.is_supported MixSpec.registry)
                  (MixSpec.first_occurrences MixSpec.mix_with_duplicate)
      /\ Forall (fun c =>
                   exists kw,
                     MixSpec.registry (OxeMixes.r_name c) = Some kw
                     /\ OxeMixes.r_image_obs_keys c
                        = firstn (Z.to_nat 1) (OxeMixes.image_obs_keys kw)
                          ++ (if (0 <? 1)%Z
                              then MixSpec.lastn (Z.to_nat 1)
                                     (OxeMixes.image_obs_keys kw)
                              else []))
                configs)
  /\ (exists config,
        OxeMixes.make_oxe_dataset_kwargs_and_weights MixSpec.registry
          [("a"%string, 1%Q)] "gs://data" true 1 1 true true
        = Ok ([config], [1%Q])
        /\ OxeMixes.r_name config = "a"%string
        /\ OxeMixes.r_image_obs_keys config = ["cam0"; "wrist0"]%string).
Proof.
  split.
  - apply (proj1 (C9_camera_trimming MixSpec.registry "gs://data" 1 1 true true)
             Q MixSpec.mix_with_duplicate true).
    + lia.
    + lia.
    + intros p [<-|[<-|[<-|[]]]]; discriminate.
  - apply (proj1 (proj2 (C9_camera_trimming MixSpec.registry "gs://data" 1 1
                           true true))
             Q "a"%string 1%Q
             (OxeMixes.mk_dataset_kwargs OxeMixes.EEF_POS
                ["cam0"; "cam1"; "cam2"; "wrist0"]%string
                ["depth0"; "depth_wrist0"]%string ["state"%string])
             true); reflexivity.
Defined.

(** ** The bin tokenizer *)

Section BinTokenizerClaims.
Import BinTokenizer.
Local Open Scope Q_scope.

Lemma lt_true_iff (x y : Q) : lt x y = true <-> x < y.
Proof.
  unfold lt. rewrite negb_true_iff. split.
  - intros H. apply Qnot_le_lt. intros Hle.
    apply Qle_bool_iff in Hle. congruence.
  - intros H. destruct (Qle_bool y x) eqn:E; [|reflexivity].
    apply Qle_bool_iff in E. exfalso. exact (Qlt_not_le _ _ H E).
Qed.

Lemma ge_false_of_lt (x lo : Q) : x < lo -> ge x lo = false.
Proof.
  intros H. unfold ge. destruct (Qle_bool lo x) eqn:E; [|reflexivity].
  apply Qle_bool_iff in E. exfalso. exact (Qlt_not_le _ _ H E).
Qed.

Lemma lt_false_of_le (x hi : Q) : hi <= x -> lt x hi = false.
Proof.
  intros H. unfold lt. apply Qle_bool_iff in H. rewrite H. reflexivity.
Qed.

(** The first index of the maximum of a vector of zeros is 0. *)
Lemma argmax_from_zeros (xs : list Z) (i best_i : nat) :
  Forall (fun z => z = 0%Z) xs -> argmax_from xs i best_i 0%Z = best_i.
Proof.
  intros H. revert i. induction H as [|z xs -> _ IH]; intros i; simpl; auto.
Qed.

Lemma argmax_zeros (n : nat) : (0 < n)%nat -> argmax (repeat 0%Z n) = Ok 0%nat.
Proof.
  destruct n as [|n]; [lia|]. intros _. simpl.
  rewrite argmax_from_zeros; [reflexivity|].
  apply Forall_forall. intros z Hz. apply repeat_spec in Hz. exact Hz.
Qed.

Lemma In_tl {B} (x : B) (xs : list B) : In x (tl xs) -> In x xs.
Proof. destruct xs; simpl; auto. Qed.

Lemma In_removelast {B} (x : B) (xs : list B) : In x (removelast xs) -> In x xs.
Proof.
  induction xs as [|y xs IH]; [simpl; tauto|].
  destruct xs as [|z xs]; [simpl; tauto|].
  change (removelast (y :: z :: xs)) with (y :: removelast (z :: xs)).
  intros [H|H]; [left; exact H | right; apply IH; exact H].
Qed.

Lemma one_hot_length (thresholds : list Q) (x : Q) (n : nat) :
  List.length thresholds = S n ->
  List.length (token_one_hot thresholds x) = n.
Proof.
  intros H. unfold token_one_hot.
  rewrite length_map, length_combine.
  destruct thresholds as [|t ts]; [discriminate|].
  simpl in H. injection H as H.
  assert (Hr : List.length (removelast (t :: ts)) = n).
  { clear x. revert t n H.
    induction ts as [|u us IH]; intros t n H; simpl in *; [auto|].
    destruct n as [|n]; [discriminate|]. f_equal. apply IH. lia. }
  rewrite Hr. simpl. rewrite H. apply Nat.min_id.
Qed.

Lemma all_zero_repeat (xs : list Z) :
  Forall (fun z => z = 0%Z) xs -> xs = repeat 0%Z (List.length xs).
Proof. induction 1 as [|z xs -> _ IH]; simpl; congruence. Qed.

(** Below every threshold, or at or above every threshold, no bin matches. *)
Lemma one_hot_all_zero (thresholds : list Q) (x : Q) :
  (forall t, In t thresholds -> x < t)
  \/ (forall t, In t thresholds -> t <= x) ->
  Forall (fun z => z = 0%Z) (token_one_hot thresholds x).
Proof.
  intros H. unfold token_one_hot. apply Forall_map, Forall_forall.
  intros [hi lo] Hin.
  pose proof (In_tl _ _ (in_combine_l _ _ _ _ Hin)) as Hhi.
  pose proof (In_removelast _ _ (in_combine_r _ _ _ _ Hin)) as Hlo.
  destruct H as [H|H].
  - rewrite (ge_false_of_lt x lo (H lo Hlo)). simpl.
    destruct (lt x hi); reflexivity.
  - rewrite (lt_false_of_le x hi (H hi Hhi)). reflexivity.
Qed.

Lemma inject_nat_pos (n : nat) : (0 < n)%nat -> 0 < inject_Z (Z.of_nat n).
Proof. intros H. unfold Qlt. simpl. lia. Qed.

(** Every point of [linspace(lo, hi, n + 1)] lies between [lo] and [hi]. *)
Lemma linspace_point_bounds (lo hi : Q) (n k : nat) :
  lo <= hi -> (0 < n)%nat -> (k <= n)%nat ->
  lo <= lo + inject_Z (Z.of_nat k) * (hi - lo) / inject_Z (Z.of_nat n) <= hi.
Proof.
  intros Hle Hn Hk.
  set (K := inject_Z (Z.of_nat k)). set (N := inject_Z (Z.of_nat n)).
  assert (HN : 0 < N) by (apply inject_nat_pos; exact Hn).
  assert (HK0 : 0 <= K) by (unfold K, Qle; simpl; lia).
  assert (HKN : K <= N) by (unfold K, N; rewrite <- Zle_Qle; lia).
  assert (HC : 0 <= hi - lo) by lra.
  assert (H0 : 0 <= K * (hi - lo) / N).
  { apply Qle_shift_div_l; [exact HN|].
    rewrite Qmult_0_l. apply Qmult_le_0_compat; assumption. }
  assert (H1 : K * (hi - lo) / N <= hi - lo).
  { apply Qle_shift_div_r; [exact HN|].
    rewrite (Qmult_comm (hi - lo) N).
    apply Qmult_le_compat_r; assumption. }
  split; lra.
Qed.

Lemma linspace_In_bounds (lo hi : Q) (n : nat) (e : Q) :
  lo <= hi -> (0 < n)%nat ->
  In e (linspace lo hi (n + 1)) -> lo <= e <= hi.
Proof.
  intros Hle Hn Hin. unfold linspace in Hin.
  apply in_map_iff in Hin as [k [<- Hk]]. apply in_seq in Hk.
  rewrite Nat.add_sub. apply linspace_point_bounds; [assumption | assumption | lia].
Qed.

Lemma linspace_hd (lo hi : Q) (n : nat) :
  (0 < n)%nat -> hd 0 (linspace lo hi (n + 1)) == lo.
Proof.
  intros Hn. unfold linspace. rewrite Nat.add_1_r. simpl hd.
  change (inject_Z (Z.of_nat 0)) with 0.
  unfold Qdiv. rewrite !Qmult_0_l. lra.
Qed.

Lemma linspace_last (lo hi : Q) (n : nat) :
  (0 < n)%nat -> last (linspace lo hi (n + 1)) 0 == hi.
Proof.
  intros Hn. unfold linspace.
  rewrite Nat.add_1_r at 1. rewrite seq_S, map_app. simpl map.
  rewrite last_last, Nat.add_sub. simpl plus.
  pose proof (inject_nat_pos n Hn) as HN.
  field. lra.
Qed.

(** C10.  With bin type ["normal"], a non-decreasing quantile function and
    at least one bin, [setup] returns [n_bins + 1] thresholds, and every
    input below the lowest threshold (the first) or at or above the highest
    threshold (the last) has an all-zero one-hot vector and is given
    token 0. *)
Theorem C10_normal_out_of_range_is_token_zero
  (ppf : Q -> Q) (n_bins : nat) (low high inputs : Q) :
  (forall p q, p <= q -> ppf p <= ppf q) ->
  (0 < n_bins)%nat ->
  exists thresholds,
    setup ppf n_bins "normal" low high = Ok thresholds
    /\ List.length thresholds = (n_bins + 1)%nat
    /\ (inputs < hd 0 thresholds \/ last thresholds 0 <= inputs ->
        token_one_hot thresholds inputs = repeat 0%Z n_bins
        /\ __call__ thresholds "normal" low high inputs = Ok 0%nat).
Proof.
  intros Hmono Hn.
  set (points := linspace EPS (1 - EPS) (n_bins + 1)).
  exists (map ppf points). split; [reflexivity|].
  assert (Hlen : List.length (map ppf points) = S n_bins).
  { unfold points, linspace. rewrite !length_map, length_seq. lia. }
  split; [rewrite Hlen; lia|].
  assert (Heps : EPS <= 1 - EPS) by (unfold EPS; lra).
  assert (Hne : points <> []).
  { unfold points, linspace. rewrite Nat.add_1_r. discriminate. }
  assert (Hlow : forall t, In t (map ppf points) -> hd 0 (map ppf points) <= t).
  { intros t Ht. apply in_map_iff in Ht as [e [<- He]].
    destruct (linspace_In_bounds _ _ _ _ Heps Hn He) as [Hlo _].
    destruct points as [|p0 ps] eqn:Ep; [congruence|]. simpl hd.
    apply Hmono.
    pose proof (linspace_hd EPS (1 - EPS) n_bins Hn) as Hhd.
    fold points in Hhd. rewrite Ep in Hhd. simpl in Hhd. lra. }
  assert (Hhigh : forall t, In t (map ppf points) -> t <= last (map ppf points) 0).
  { intros t Ht. apply in_map_iff in Ht as [e [<- He]].
    destruct (linspace_In_bounds _ _ _ _ Heps Hn He) as [_ Hhi].
    destruct points as [|p0 ps] eqn:Ep; [congruence|].
    assert (Hl : last (map ppf (p0 :: ps)) 0 = ppf (last (p0 :: ps) 0)).
    { clear. revert p0. induction ps as [|q qs IH]; intros p0; [reflexivity|].
      change (last (map ppf (p0 :: q :: qs)) 0) with (last (map ppf (q :: qs)) 0).
      rewrite IH. reflexivity. }
    rewrite Hl. apply Hmono.
    pose proof (linspace_last EPS (1 - EPS) n_bins Hn) as Hlast.
    fold points in Hlast. rewrite Ep in Hlast. lra. }
  intros Hout.
  assert (Hzero : Forall (fun z => z = 0%Z) (token_one_hot (map ppf points) inputs)).
  { apply one_hot_all_zero. destruct Hout as [Hb|Ha].
    - left. intros t Ht. eapply Qlt_le_trans; [exact Hb | apply Hlow; exact Ht].
    - right. intros t Ht. eapply Qle_trans; [apply Hhigh; exact Ht | exact Ha]. }
  assert (Hoh : token_one_hot (map ppf points) inputs = repeat 0%Z n_bins).
  { rewrite (all_zero_repeat _ Hzero).
    rewrite (one_hot_length _ inputs n_bins Hlen). reflexivity. }
  split; [exact Hoh|].
  unfold __call__. simpl. rewrite Hoh. apply argmax_zeros. exact Hn.
Qed.
End BinTokenizerClaims.

(** C10 with the identity as quantile function and 4 bins: the input 2
    lies above the highest threshold. *)
Lemma C10_normal_out_of_range_is_token_zero_witness :
  BinTokenizer.__call__
    (map (fun q => q)
         (BinTokenizer.linspace BinTokenizer.EPS (1 - BinTokenizer.EPS)%Q 5))
    "normal" 0%Q 1%Q 2%Q = Ok 0.
Proof.
  destruct (C10_normal_out_of_range_is_token_zero (fun q => q) 4 0%Q 1%Q 2%Q)
    as [thresholds [E [_ H]]].
  - intros p q Hpq. exact Hpq.
  - lia.
  - injection E as <-. apply H. right. vm_compute. discriminate.
Defined.

(** ** Adding a group that nobody attends to *)

Section Independence.
Import BlockTransformer Layout Example.

(** C3 (the code at the failing input).  The group ["value"] is added to
    the groups of the example; it attends to nothing and no group attends
    to it.  The sequence is then: task at 0-2, and per timestep two obs
    tokens followed by the value token (3, 4, 5 and 6, 7, 8).  The lookup
    attributes position 5, the value token of timestep 0, to ["obs"], and
    the mask lets the obs query at position 3 attend to it: the embedding
    the transformer computes for ["obs"] is given access to the tokens of
    the added group. *)
Theorem C3_added_group_is_visible_to_existing_group :
  ~ In (TimestepGroup.name value) (PrefixGroup.attends_to task)
  /\ ~ In (TimestepGroup.name value) (TimestepGroup.attends_to obs)
  /\ TimestepGroup.attends_to value = []
  /\ describe [task] [obs; value] 3 = Ok (TokenMetadata.mk "obs" 0 ["task"%string])
  /\ describe [task] [obs; value] 5 = Ok (TokenMetadata.mk "obs" 0 ["task"%string])
  /\ exists m,
       generate_attention_mask 8 [task] [obs; value] pad_mask = Ok m
       /\ item m [0; 0; 3; 5] = true.
Proof.
  split; [simpl; tauto|]. split; [simpl; intuition discriminate|].
  repeat split; try reflexivity.
  eexists. split; [reflexivity|]. vm_compute. reflexivity.
Qed.
End Independence.

(* ================================================================== *)
(** * Part III: further properties of the code                         *)
(* ================================================================== *)

(** ** The group lookup *)

Section GroupLookup.
Import BlockTransformer Layout Positions.

Lemma searchsorted_cumsum_from_spec (xs : list nat) (acc i : nat) :
  let p := searchsorted (cumsum_from acc xs) i in
  p < List.length xs ->
  i <= acc + sum (firstn (S p) xs)
  /\ forall q, q < p -> acc + sum (firstn (S q) xs) < i.
Proof.
  revert acc. induction xs as [|x xs IH]; intros acc p Hp; [simpl in Hp; lia|].
  unfold p in *. clear p. cbn [cumsum_from searchsorted] in *.
  destruct (i <=? acc + x) eqn:E.
  - apply Nat.leb_le in E. split; [|intros q Hq; lia].
    cbn [firstn]. rewrite sum_cons, sum_nil. lia.
  - apply Nat.leb_gt in E. simpl in Hp.
    destruct (IH (acc + x) ltac:(lia)) as [H1 H2].
    split.
    + change (firstn (S (S (searchsorted (cumsum_from (acc + x) xs) i))) (x :: xs))
        with (x :: firstn (S (searchsorted (cumsum_from (acc + x) xs) i)) xs).
      rewrite sum_cons. lia.
    + intros [|q] Hq.
      * cbn [firstn]. rewrite sum_cons, sum_nil. lia.
      * change (firstn (S (S q)) (x :: xs)) with (x :: firstn (S q) xs).
        rewrite sum_cons. specialize (H2 q ltac:(lia)). lia.
Qed.

(** The lookup [_get_position] returns, for a position below the total,
    the first group whose cumulative token count reaches the position:
    the count up to and including group [p] is at least [i], and the
    count up to and including any earlier group is strictly below [i].
    A position equal to a cumulative count is therefore attributed to the
    group that ends there, not to the group that starts there. *)
Theorem get_position_first_group_reaching
  (tokens_per_elem : list nat) (i : nat) :
  i < sum tokens_per_elem ->
  let p := _get_position i tokens_per_elem in
  p < List.length tokens_per_elem
  /\ i <= offset tokens_per_elem (S p)
  /\ forall q, q < p -> offset tokens_per_elem (S q) < i.
Proof.
  intros Hi p. pose proof (get_position_lt tokens_per_elem i Hi) as Hp.
  split; [exact Hp|].
  destruct (searchsorted_cumsum_from_spec tokens_per_elem 0 i Hp) as [H1 H2].
  unfold offset. split; [exact H1|].
  intros q Hq. exact (H2 q Hq).
Qed.
End GroupLookup.

(** The lookup on two groups of 2 and 3 tokens at position 2. *)
Lemma get_position_first_group_reaching_witness :
  let p := BlockTransformer._get_position 2 [2; 3] in
  p < 2
  /\ 2 <= Positions.offset [2; 3] (S p)
  /\ forall q, q < p -> Positions.offset [2; 3] (S q) < 2.
Proof.
  apply (get_position_first_group_reaching [2; 3] 2). vm_compute. lia.
Defined.

(** The entry rule at the example groups. *)
Lemma attention_mask_entry_witness :
  exists m,
    BlockTransformer.generate_attention_mask 8 [Example.task] [Example.obs]
      Example.pad_mask_last_padded = Ok m
    /\ forall ib ih i j,
         i < Layout.total_tokens [Example.task] [Example.obs] 2 ->
         j < Layout.total_tokens [Example.task] [Example.obs] 2 ->
         let di := Layout.description [Example.task] [Example.obs] i in
         let dj := Layout.description [Example.task] [Example.obs] j in
         item m [ib; ih; i; j]
         = (String.eqb (TokenMetadata.group_name di) (TokenMetadata.group_name dj)
            || str_in (TokenMetadata.group_name dj) (TokenMetadata.attends_to di))
           && (Layout.timestep_of [Example.task] [Example.obs] i
               <=? Layout.timestep_of [Example.task] [Example.obs] j)%Z
           && (if j <? Layout.tokens_for_prefix [Example.task] then true
               else item Example.pad_mask_last_padded
                      [ib; (j - Layout.tokens_for_prefix [Example.task])
                           / Layout.tokens_per_time_step [Example.obs]]).
Proof.
  apply (attention_mask_entry 8 [Example.task] [Example.obs]
           Example.pad_mask_last_padded 1 2).
  - split; repeat constructor.
  - reflexivity.
Defined.

(** ** Token descriptors of the sequence *)

Section Descriptors.
Import BlockTransformer Layout Positions.
Context {A : Type}.

(** [get_token_description] returns a descriptor for every position of the
    sequence: it raises neither [IndexError] nor [ZeroDivisionError].  A
    position before [tokens_for_prefix] gets timestep -1 and the name and
    [attends_to] of one of the prefix groups; a later position
    [tokens_for_prefix + t * tokens_per_time_step + r] with
    [r < tokens_per_time_step] gets timestep [t], which is below the
    horizon, and the name and [attends_to] of one of the timestep groups. *)
Theorem get_token_description_of_position
  (prefix_groups : list (PrefixGroup.t A))
  (timestep_groups : list (TimestepGroup.t A)) (horizon i : nat) :
  i < total_tokens prefix_groups timestep_groups horizon ->
  exists dsc,
    describe prefix_groups timestep_groups i = Ok dsc
    /\ ((i < tokens_for_prefix prefix_groups
         /\ TokenMetadata.timestep dsc = (-1)%Z
         /\ exists g, In g prefix_groups
                      /\ TokenMetadata.group_name dsc = PrefixGroup.name g
                      /\ TokenMetadata.attends_to dsc = PrefixGroup.attends_to g)
        \/ (exists t r g,
               i = tokens_for_prefix prefix_groups
                   + t * tokens_per_time_step timestep_groups + r
               /\ r < tokens_per_time_step timestep_groups
               /\ t < horizon
               /\ TokenMetadata.timestep dsc = Z.of_nat t
               /\ In g timestep_groups
               /\ TokenMetadata.group_name dsc = TimestepGroup.name g
               /\ TokenMetadata.attends_to dsc = TimestepGroup.attends_to g)).
Proof.
  intros Hi. unfold total_tokens in Hi.
  unfold describe, get_token_description.
  set (tfp := tokens_for_prefix prefix_groups) in *.
  set (tpts := tokens_per_time_step timestep_groups) in *.
  destruct (i <? tfp) eqn:E.
  - apply Nat.ltb_lt in E.
    pose proof (get_position_lt (tokens_per_prefix_group prefix_groups) i E) as Hp.
    unfold tokens_per_prefix_group in Hp at 2. rewrite length_map in Hp.
    destruct prefix_groups as [|g0 gs] eqn:Eg; [simpl in Hp; lia|].
    rewrite (getitem_nth (g0 :: gs) _ g0 Hp). cbn [bind].
    eexists; split; [reflexivity|]. left.
    split; [exact E|]. split; [reflexivity|].
    eexists; split; [apply nth_In; exact Hp|]. split; reflexivity.
  - apply Nat.ltb_ge in E.
    assert (Hpos : tpts <> 0) by (intros Hz; rewrite Hz in Hi; lia).
    rewrite (divmod_Ok _ _ Hpos). cbn [bind].
    assert (Hr : (i - tfp) mod tpts < tpts) by (apply Nat.mod_upper_bound; exact Hpos).
    pose proof (get_position_lt (tokens_per_timestep_group timestep_groups) _ Hr) as Hp.
    unfold tokens_per_timestep_group in Hp at 2. rewrite length_map in Hp.
    destruct timestep_groups as [|g0 gs] eqn:Eg; [simpl in Hp; lia|].
    rewrite (getitem_nth (g0 :: gs) _ g0 Hp). cbn [bind].
    eexists; split; [reflexivity|]. right.
    exists ((i - tfp) / tpts), ((i - tfp) mod tpts).
    eexists. split; [|split; [exact Hr|]].
    + pose proof (Nat.div_mod_eq (i - tfp) tpts). lia.
    + split.
      * apply Nat.Div0.div_lt_upper_bound. lia.
      * split; [reflexivity|].
        split; [apply nth_In; exact Hp|]. split; reflexivity.
Qed.
End Descriptors.

(** The descriptor of position 5 of the example (obs, timestep 1). *)
Lemma get_token_description_of_position_witness :
  exists dsc,
    Layout.describe [Example.task] [Example.obs] 5 = Ok dsc
    /\ ((5 < Layout.tokens_for_prefix [Example.task]
         /\ TokenMetadata.timestep dsc = (-1)%Z
         /\ exists g, In g [Example.task]
                      /\ TokenMetadata.group_name dsc = PrefixGroup.name g
                      /\ TokenMetadata.attends_to dsc = PrefixGroup.attends_to g)
        \/ (exists t r g,
               5 = Layout.tokens_for_prefix [Example.task]
                   + t * Layout.tokens_per_time_step [Example.obs] + r
               /\ r < Layout.tokens_per_time_step [Example.obs]
               /\ t < 2
               /\ TokenMetadata.timestep dsc = Z.of_nat t
               /\ In g [Example.obs]
               /\ TokenMetadata.group_name dsc = TimestepGroup.name g
               /\ TokenMetadata.attends_to dsc = TimestepGroup.attends_to g)).
Proof.
  apply (get_token_description_of_position [Example.task] [Example.obs] 2 5).
  vm_compute. lia.
Defined.

(** ** The mask across heads and batch elements *)

Section MaskBroadcast.
Import BlockTransformer Layout.
Context {A : Type}.

(** The returned mask is the same for every attention head, and two batch
    elements whose pad-mask rows agree on every timestep of the horizon
    get the same mask. *)
Theorem mask_same_across_heads_and_equal_pad_rows
  (heads : nat) (prefix_groups : list (PrefixGroup.t A))
  (timestep_groups : list (TimestepGroup.t A))
  (pad_mask : ndarray bool) (batch horizon : nat) :
  valid_groups prefix_groups timestep_groups ->
  shape pad_mask = [batch; horizon] ->
  exists m,
    generate_attention_mask heads prefix_groups timestep_groups pad_mask = Ok m
    /\ (forall ib ih ih' i j,
          i < total_tokens prefix_groups timestep_groups horizon ->
          j < total_tokens prefix_groups timestep_groups horizon ->
          item m [ib; ih; i; j] = item m [ib; ih'; i; j])
    /\ (forall ib ib' ih i j,
          i < total_tokens prefix_groups timestep_groups horizon ->
          j < total_tokens prefix_groups timestep_groups horizon ->
          (forall t, t < horizon ->
                     item pad_mask [ib; t] = item pad_mask [ib'; t]) ->
          item m [ib; ih; i; j] = item m [ib'; ih; i; j]).
Proof.
  intros Hvalid Hpad.
  destruct (generate_attention_mask_spec prefix_groups timestep_groups Hvalid
              pad_mask batch horizon Hpad heads) as [m [Em [_ Hm]]].
  exists m. split; [exact Em|]. split.
  - intros ib ih ih' i j Hi Hj.
    rewrite (Hm ib ih i j Hi Hj), (Hm ib ih' i j Hi Hj). reflexivity.
  - intros ib ib' ih i j Hi Hj Hrows.
    rewrite (Hm ib ih i j Hi Hj), (Hm ib' ih i j Hi Hj). f_equal.
    destruct (j <? tokens_for_prefix prefix_groups) eqn:E; [reflexivity|].
    apply Nat.ltb_ge in E. apply Hrows.
    unfold total_tokens in Hj.
    apply Nat.Div0.div_lt_upper_bound. lia.
Qed.
End MaskBroadcast.

(** The mask of the example across its 8 heads. *)
Lemma mask_same_across_heads_and_equal_pad_rows_witness :
  exists m,
    BlockTransformer.generate_attention_mask 8 [Example.task] [Example.obs]
      Example.pad_mask_last_padded = Ok m
    /\ (forall ib ih ih' i j,
          i < Layout.total_tokens [Example.task] [Example.obs] 2 ->
          j < Layout.total_tokens [Example.task] [Example.obs] 2 ->
          item m [ib; ih; i; j] = item m [ib; ih'; i; j])
    /\ (forall ib ib' ih i j,
          i < Layout.total_tokens [Example.task] [Example.obs] 2 ->
          j < Layout.total_tokens [Example.task] [Example.obs] 2 ->
          (forall t, t < 2 ->
                     item Example.pad_mask_last_padded [ib; t]
                     = item Example.pad_mask_last_padded [ib'; t]) ->
          item m [ib; ih; i; j] = item m [ib'; ih; i; j]).
Proof.
  apply (mask_same_across_heads_and_equal_pad_rows 8 [Example.task]
           [Example.obs] Example.pad_mask_last_padded 1 2).
  - split; repeat constructor.
  - reflexivity.
Defined.

(** ** The forward pass: order of effects and failures *)

Section ForwardPass.
Import BlockTransformer Layout RoundTrip.
Context {A : Type}.

(** A forward pass without any timestep group raises [IndexError] at
    [timestep_groups[0]], whatever the prefix groups, the pad mask and the
    encoder: only the log lines have been written, and neither the mask
    builder nor the encoder has been called. *)
Theorem call_without_timestep_groups_raises
  (num_attention_heads : nat) (zero : A)
  (transformer : ndarray A -> ndarray bool -> bool -> result (ndarray A))
  (prefix_groups : list (PrefixGroup.t A))
  (timestep_pad_mask : ndarray bool) (train : bool) :
  __call__ num_attention_heads zero transformer prefix_groups []
           timestep_pad_mask train
  = (call_log prefix_groups [], Raise IndexError)
  /\ ~ In CallGenerateAttentionMask (call_log prefix_groups (@nil (TimestepGroup.t A)))
  /\ ~ In CallTransformer (call_log prefix_groups (@nil (TimestepGroup.t A))).
Proof.
  split.
  - apply call_check_raises. reflexivity.
  - split; intros Hin; apply call_log_only_logs in Hin; destruct Hin; congruence.
Qed.

Variables batch horizon d : nat.
Variable prefix_groups : list (PrefixGroup.t A).
Variable timestep_groups : list (TimestepGroup.t A).
Hypothesis Hnonempty : timestep_groups <> [].
Hypothesis Hprefix : Forall (prefix_shaped batch d) prefix_groups.
Hypothesis Htimestep : Forall (timestep_shaped batch horizon d) timestep_groups.

(** For groups of a common batch size, horizon and width and a rank-2 pad
    mask, the forward pass writes its log lines, builds the mask, and then
    calls the encoder exactly once, on the assembled sequence of shape
    [(batch, tokens_for_prefix + horizon * tokens_per_time_step, d)] and
    the mask of shape [(pad_batch, heads, n, n)] with
    [n = tokens_for_prefix + tokens_per_time_step * pad_horizon]; the
    horizon of the pad mask is not compared with the horizon of the
    groups.  The result of the pass is the result of splitting the
    encoder's output, and an exception of the encoder is the exception of
    the pass. *)
Theorem call_invokes_encoder_once_on_assembled_tokens
  (num_attention_heads : nat) (zero : A)
  (transformer : ndarray A -> ndarray bool -> bool -> result (ndarray A))
  (timestep_pad_mask : ndarray bool) (pad_batch pad_horizon : nat)
  (train : bool) :
  shape timestep_pad_mask = [pad_batch; pad_horizon] ->
  exists input_tokens attention_mask,
    assemble_input_tokens zero prefix_groups timestep_groups = Ok input_tokens
    /\ shape input_tokens
       = [batch;
          tokens_for_prefix prefix_groups
          + horizon * tokens_per_time_step timestep_groups; d]
    /\ generate_attention_mask num_attention_heads prefix_groups
         timestep_groups timestep_pad_mask = Ok attention_mask
    /\ shape attention_mask
       = [pad_batch; num_attention_heads;
          total_tokens prefix_groups timestep_groups pad_horizon;
          total_tokens prefix_groups timestep_groups pad_horizon]
    /\ __call__ num_attention_heads zero transformer prefix_groups
                timestep_groups timestep_pad_mask train
       = (call_log prefix_groups timestep_groups
            ++ [CallGenerateAttentionMask; CallTransformer],
          output <- transformer input_tokens attention_mask train ;;
          disassemble prefix_groups timestep_groups horizon output).
Proof.
  intros Hpad.
  pose proof (shaped_valid_groups batch horizon d prefix_groups timestep_groups
                Hprefix Htimestep) as Hvalid.
  assert (Hc : check_horizon timestep_groups = Ok horizon).
  { apply check_horizon_passes.
    - exact (proj2 Hvalid).
    - exact Hnonempty.
    - exact (shaped_horizon batch horizon d timestep_groups Htimestep). }
  destruct (generate_attention_mask_spec prefix_groups timestep_groups Hvalid
              timestep_pad_mask pad_batch pad_horizon Hpad num_attention_heads)
    as [m [Em [Hshm _]]].
  destruct (assemble_input_tokens_shape batch horizon d prefix_groups
              timestep_groups Hnonempty Hprefix Htimestep zero) as [x [Ex Hx]].
  exists x, m. repeat (split; [assumption|]).
  unfold __call__, call_log. rewrite !for_each_emit_eq, Hc, Em, Ex.
  unfold tbind, emit, lift. simpl.
  destruct (transformer x m train) as [y|e]; simpl.
  - destruct (disassemble prefix_groups timestep_groups horizon y);
      rewrite <- ?app_assoc; reflexivity.
  - rewrite <- ?app_assoc. reflexivity.
Qed.
End ForwardPass.

(** The forward pass of the example with an encoder that raises. *)
Lemma call_invokes_encoder_once_on_assembled_tokens_witness :
  exists input_tokens attention_mask,
    BlockTransformer.assemble_input_tokens 0%Q [Example.task] [Example.obs]
    = Ok input_tokens
    /\ shape input_tokens
       = [1; Layout.tokens_for_prefix [Example.task]
             + 2 * Layout.tokens_per_time_step [Example.obs]; 4]
    /\ BlockTransformer.generate_attention_mask 8 [Example.task] [Example.obs]
         Example.pad_mask = Ok attention_mask
    /\ shape attention_mask
       = [1; 8; Layout.total_tokens [Example.task] [Example.obs] 2;
          Layout.total_tokens [Example.task] [Example.obs] 2]
    /\ BlockTransformer.__call__ 8 0%Q Positions.failing_encoder
         [Example.task] [Example.obs] Example.pad_mask false
       = (call_log [Example.task] [Example.obs]
            ++ [CallGenerateAttentionMask; CallTransformer],
          output <- Positions.failing_encoder input_tokens attention_mask false ;;
          BlockTransformer.disassemble [Example.task] [Example.obs] 2 output).
Proof.
  apply (call_invokes_encoder_once_on_assembled_tokens 1 2 4
           [Example.task] [Example.obs]
           ltac:(discriminate)
           ltac:(repeat constructor; exists 3; reflexivity)
           ltac:(repeat constructor; exists 2; reflexivity)
           8 0%Q Positions.failing_encoder Example.pad_mask 1 2 false).
  reflexivity.
Defined.

(** ** Where concatenation and splitting put the elements *)

Lemma bind_inv {A B} (c : result A) (k : A -> result B) (b : B) :
  bind c k = Ok b -> exists a, c = Ok a /\ k a = Ok b.
Proof. destruct c; simpl; intros H; [eauto | discriminate]. Qed.

Lemma set_nth_same (xs : list nat) (axis : nat) :
  axis < List.length xs -> set_nth xs axis (nth axis xs 0) = xs.
Proof.
  revert axis; induction xs as [|x xs IH]; intros [|k] H; simpl in *;
    try lia; try reflexivity.
  rewrite IH by lia. reflexivity.
Qed.

Lemma offset_0 (ns : list nat) : Positions.offset ns 0 = 0.
Proof. reflexivity. Qed.

Lemma offset_S (n : nat) (ns : list nat) (q : nat) :
  Positions.offset (n :: ns) (S q) = n + Positions.offset ns q.
Proof. unfold Positions.offset. cbn [firstn]. apply sum_cons. Qed.

Lemma offset_all (ns : list nat) : Positions.offset ns (List.length ns) = sum ns.
Proof. unfold Positions.offset. rewrite firstn_all. reflexivity. Qed.

(** A token of group [q] lies before the end of the groups. *)
Lemma offset_lt (ns : list nat) (q k : nat) :
  q < List.length ns -> k < nth q ns 0 -> Positions.offset ns q + k < sum ns.
Proof.
  revert q; induction ns as [|n ns IH]; intros [|q] Hq Hk;
    cbn [List.length nth] in Hq, Hk; try lia.
  - rewrite offset_0, sum_cons. lia.
  - rewrite offset_S, sum_cons. specialize (IH q ltac:(lia) Hk). lia.
Qed.

Lemma concatenate_item {A} (a : ndarray A) (rest : list (ndarray A))
      (axis : nat) (c : ndarray A) :
  concatenate (a :: rest) axis = Ok c -> item c = concat_item a rest axis.
Proof.
  unfold concatenate. destruct (_ && _); [|discriminate].
  intros H. injection H as <-. reflexivity.
Qed.

(** Element [k] of array number [q] sits at [offset q + k] along the axis
    of the concatenation. *)
Lemma concat_item_at {A} (axis : nat) (idx : list nat) :
  axis < List.length idx ->
  forall (rest : list (ndarray A)) (a aq : ndarray A) (q : nat),
    nth_error (a :: rest) q = Some aq ->
    nth axis idx 0 < nth axis (shape aq) 0 ->
    concat_item a rest axis
      (set_nth idx axis
         (Positions.offset (map (fun b => nth axis (shape b) 0) (a :: rest)) q
          + nth axis idx 0))
    = item aq idx.
Proof.
  intros Hax. induction rest as [|a' rest IH]; intros a aq q Hq Hk.
  - destruct q as [|q]; [|destruct q; discriminate].
    injection Hq as <-. rewrite offset_0. simpl "+".
    rewrite set_nth_same by exact Hax. reflexivity.
  - destruct q as [|q].
    + injection Hq as <-. rewrite offset_0. simpl "+".
      rewrite set_nth_same by exact Hax.
      cbn [concat_item]. apply Nat.ltb_lt in Hk. rewrite Hk. reflexivity.
    + cbn [nth_error] in Hq.
      change (map (fun b => nth axis (shape b) 0) (a :: a' :: rest))
        with (nth axis (shape a) 0
              :: map (fun b : ndarray A => nth axis (shape b) 0) (a' :: rest)).
      rewrite offset_S. cbn [concat_item].
      rewrite nth_set_nth by exact Hax.
      match goal with
      | |- context [?x <? ?n] =>
          assert (E : (x <? n) = false) by (apply Nat.ltb_ge; lia); rewrite E
      end.
      rewrite set_nth_twice.
      match goal with
      | |- concat_item _ _ _ (set_nth _ _ ?v) = _ =>
          replace v
            with (Positions.offset
                    (map (fun b : ndarray A => nth axis (shape b) 0) (a' :: rest)) q
                  + nth axis idx 0) by lia
      end.
      apply IH; assumption.
Qed.

Lemma slice_axis_item {A} (a piece : ndarray A) (axis start stop : nat) :
  slice_axis a axis start stop = Ok piece ->
  forall idx, item piece idx
              = item a (set_nth idx axis (nth axis idx 0 + start)).
Proof.
  unfold slice_axis. destruct (_ && _); [|discriminate].
  intros H. injection H as <-. reflexivity.
Qed.

(** Element [k] of piece number [q] of a split is element
    [start + offset q + k] of the array that was split. *)
Lemma split_from_items {A} (a : ndarray A) (axis : nat) (ns : list nat) :
  forall start pieces,
    split_from a axis start (cumsum_from start ns) = Ok pieces ->
    forall q piece,
      nth_error pieces q = Some piece ->
      forall idx,
        item piece idx
        = item a (set_nth idx axis
                    (nth axis idx 0 + (start + Positions.offset ns q))).
Proof.
  induction ns as [|n ns IH]; intros start pieces Hs q piece Hq idx.
  - cbn [cumsum_from split_from] in Hs.
    apply bind_inv in Hs as [p [Hp Hs]]. injection Hs as <-.
    destruct q as [|q]; [|destruct q; discriminate].
    injection Hq as <-. rewrite (slice_axis_item _ _ _ _ _ Hp).
    unfold Positions.offset. cbn [firstn]. rewrite sum_nil, Nat.add_0_r.
    reflexivity.
  - cbn [cumsum_from split_from] in Hs.
    apply bind_inv in Hs as [p [Hp Hs]].
    apply bind_inv in Hs as [ps [Hps Hs]]. injection Hs as <-.
    destruct q as [|q].
    + injection Hq as <-. rewrite (slice_axis_item _ _ _ _ _ Hp).
      rewrite offset_0, Nat.add_0_r. reflexivity.
    + cbn [nth_error] in Hq.
      rewrite (IH _ _ Hps q piece Hq idx), offset_S.
      do 2 f_equal. lia.
Qed.

(** ** Where the tokens of a group sit in the assembled sequence *)

Section AssembleItems.
Import BlockTransformer Layout RoundTrip Positions.
Context {A : Type}.
Variables batch horizon d : nat.
Variable prefix_groups : list (PrefixGroup.t A).
Variable timestep_groups : list (TimestepGroup.t A).
Hypothesis Hnonempty : timestep_groups <> [].
Hypothesis Hprefix : Forall (prefix_shaped batch d) prefix_groups.
Hypothesis Htimestep : Forall (timestep_shaped batch horizon d) timestep_groups.

Local Abbreviation tfp := (tokens_for_prefix prefix_groups).
Local Abbreviation tpts := (tokens_per_time_step timestep_groups).
Local Abbreviation tppg := (tokens_per_prefix_group prefix_groups).
Local Abbreviation tptg := (tokens_per_timestep_group timestep_groups).

Lemma prefix_concat_items (p : ndarray A) :
  concatenate (map (@PrefixGroup.tokens A) prefix_groups) 1 = Ok p ->
  forall q g b k c,
    nth_error prefix_groups q = Some g ->
    k < nth 1 (shape (PrefixGroup.tokens g)) 0 ->
    item p [b; offset tppg q + k; c] = item (PrefixGroup.tokens g) [b; k; c].
Proof.
  intros Ep q g b k c Hq Hk.
  destruct prefix_groups as [|g0 gs] eqn:Eg; [destruct q; discriminate|].
  cbn [map] in Ep. rewrite (concatenate_item _ _ _ _ Ep).
  pose proof (concat_item_at 1 [b; k; c] ltac:(simpl; lia)
                (map (@PrefixGroup.tokens A) gs) (PrefixGroup.tokens g0)
                (PrefixGroup.tokens g) q) as H.
  cbn [nth set_nth] in H.
  change (PrefixGroup.tokens g0 :: map (@PrefixGroup.tokens A) gs)
    with (map (@PrefixGroup.tokens A) (g0 :: gs)) in H.
  rewrite map_map in H. apply H; [|exact Hk].
  apply map_nth_error. exact Hq.
Qed.

Lemma timestep_concat_items (c0 : ndarray A) :
  concatenate (map (@TimestepGroup.tokens A) timestep_groups) 2 = Ok c0 ->
  forall q g b t k c,
    nth_error timestep_groups q = Some g ->
    k < nth 2 (shape (TimestepGroup.tokens g)) 0 ->
    item c0 [b; t; offset tptg q + k; c]
    = item (TimestepGroup.tokens g) [b; t; k; c].
Proof.
  intros Ec q g b t k c Hq Hk.
  destruct timestep_groups as [|g0 gs] eqn:Eg; [destruct q; discriminate|].
  cbn [map] in Ec. rewrite (concatenate_item _ _ _ _ Ec).
  pose proof (concat_item_at 2 [b; t; k; c] ltac:(simpl; lia)
                (map (@TimestepGroup.tokens A) gs) (TimestepGroup.tokens g0)
                (TimestepGroup.tokens g) q) as H.
  cbn [nth set_nth] in H.
  change (TimestepGroup.tokens g0 :: map (@TimestepGroup.tokens A) gs)
    with (map (@TimestepGroup.tokens A) (g0 :: gs)) in H.
  rewrite map_map in H. apply H; [|exact Hk].
  apply map_nth_error. exact Hq.
Qed.

Lemma offset_timestep_lt (q : nat) (g : TimestepGroup.t A) (k : nat) :
  nth_error timestep_groups q = Some g ->
  k < nth 2 (shape (TimestepGroup.tokens g)) 0 ->
  offset tptg q + k < tpts.
Proof.
  intros Hq Hk. apply offset_lt.
  - unfold tokens_per_timestep_group. rewrite length_map.
    apply nth_error_Some. congruence.
  - unfold tokens_per_timestep_group.
    rewrite (nth_error_nth _ _ 0 (map_nth_error _ _ _ Hq)). exact Hk.
Qed.

Lemma offset_prefix_lt (q : nat) (g : PrefixGroup.t A) (k : nat) :
  nth_error prefix_groups q = Some g ->
  k < nth 1 (shape (PrefixGroup.tokens g)) 0 ->
  offset tppg q + k < tfp.
Proof.
  intros Hq Hk. apply offset_lt.
  - unfold tokens_per_prefix_group. rewrite length_map.
    apply nth_error_Some. congruence.
  - unfold tokens_per_prefix_group.
    rewrite (nth_error_nth _ _ 0 (map_nth_error _ _ _ Hq)). exact Hk.
Qed.

(** The assembled sequence holds token [k] of prefix group [q] at position
    [offset q + k], and token [k] of timestep group [q] at timestep [t] at
    position [tokens_for_prefix + t * tokens_per_time_step + offset q + k]:
    prefix groups first and in order, then the timestep groups in order
    within each timestep, timestep after timestep. *)
Lemma assemble_items (zero : A) :
  exists x,
    assemble_input_tokens zero prefix_groups timestep_groups = Ok x
    /\ shape x = [batch; tfp + horizon * tpts; d]
    /\ (forall q g b k c,
          nth_error prefix_groups q = Some g ->
          k < nth 1 (shape (PrefixGroup.tokens g)) 0 ->
          item x [b; offset tppg q + k; c]
          = item (PrefixGroup.tokens g) [b; k; c])
    /\ (forall q g b t k c,
          nth_error timestep_groups q = Some g ->
          k < nth 2 (shape (TimestepGroup.tokens g)) 0 ->
          item x [b; tfp + t * tpts + (offset tptg q + k); c]
          = item (TimestepGroup.tokens g) [b; t; k; c]).
Proof.
  destruct (assemble_input_tokens_shape batch horizon d prefix_groups
              timestep_groups Hnonempty Hprefix Htimestep zero) as [x [Ex Hx]].
  exists x. split; [exact Ex|]. split; [exact Hx|].
  unfold assemble_input_tokens in Ex.
  destruct (all_prefix_tokens_shape batch horizon d prefix_groups timestep_groups
              Hnonempty Hprefix Htimestep zero) as [p [Ep Hp]].
  rewrite Ep in Ex. cbn [bind] in Ex.
  destruct (all_timestep_tokens_shape batch horizon d timestep_groups
              Hnonempty Htimestep) as [c0 [Ec Hc]].
  rewrite Ec in Ex. cbn [bind] in Ex.
  unfold rearrange_fold in Ex. rewrite Hc in Ex. cbn [bind] in Ex.
  rewrite (concatenate_item _ _ _ _ Ex).
  split.
  - intros q g b k c Hq Hk.
    pose proof (offset_prefix_lt q g k Hq Hk) as Hlt.
    cbn [concat_item nth]. rewrite Hp. cbn [nth].
    apply Nat.ltb_lt in Hlt. rewrite Hlt.
    apply prefix_concat_items; [|exact Hq | exact Hk].
    destruct prefix_groups as [|g0 gs]; [destruct q; discriminate|].
    exact Ep.
  - intros q g b t k c Hq Hk.
    pose proof (offset_timestep_lt q g k Hq Hk) as Hlt.
    cbn [concat_item nth]. rewrite Hp. cbn [nth].
    match goal with
    | |- context [?u <? ?v] =>
        assert (E : (u <? v) = false) by (apply Nat.ltb_ge; lia); rewrite E
    end.
    cbn [set_nth item].
    replace (tfp + t * tpts + (offset tptg q + k) - tfp)
      with ((offset tptg q + k) + t * tpts) by lia.
    rewrite Nat.div_add by lia. rewrite Nat.Div0.mod_add.
    rewrite Nat.div_small, Nat.mod_small by exact Hlt. simpl "+".
    apply timestep_concat_items; [exact Ec | exact Hq | exact Hk].
Qed.
End AssembleItems.

(** ** Where the embeddings of an output group come from *)

Lemma prefix_replace_inv {A} (g o : PrefixGroup.t A) (e : ndarray A) :
  PrefixGroup.replace g e = Ok o ->
  o = PrefixGroup.mk (PrefixGroup.name g) e (PrefixGroup.attends_to g).
Proof.
  unfold PrefixGroup.replace, PrefixGroup.__post_init__.
  destruct (_ =? _); [|discriminate]. intros H. injection H as <-. reflexivity.
Qed.

Lemma timestep_replace_inv {A} (g o : TimestepGroup.t A) (e : ndarray A) :
  TimestepGroup.replace g e = Ok o ->
  o = TimestepGroup.mk (TimestepGroup.name g) e (TimestepGroup.attends_to g).
Proof.
  unfold TimestepGroup.replace, TimestepGroup.__post_init__.
  destruct (_ =? _); [|discriminate]. intros H. injection H as <-. reflexivity.
Qed.

(** Output group [q] is input group [q] with piece [q] as its tokens. *)
Lemma replace_all_prefix_nth {A} (groups : list (PrefixGroup.t A)) :
  forall pieces outs,
    mapM (fun '(group, embeddings) => PrefixGroup.replace group embeddings)
         (combine groups pieces) = Ok outs ->
    forall q o,
      nth_error outs q = Some o ->
      exists g piece,
        nth_error groups q = Some g /\ nth_error pieces q = Some piece
        /\ o = PrefixGroup.mk (PrefixGroup.name g) piece (PrefixGroup.attends_to g).
Proof.
  induction groups as [|g gs IH]; intros pieces outs H q o Hq.
  - simpl in H. injection H as <-. destruct q; discriminate.
  - destruct pieces as [|e pieces].
    + simpl in H. injection H as <-. destruct q; discriminate.
    + cbn [combine mapM] in H.
      apply bind_inv in H as [o0 [Ho H]].
      apply bind_inv in H as [os [Hos H]]. injection H as <-.
      destruct q as [|q].
      * injection Hq as <-. exists g, e.
        repeat split. apply prefix_replace_inv. exact Ho.
      * cbn [nth_error] in Hq |- *. apply (IH pieces os Hos q o Hq).
Qed.

Lemma replace_all_timestep_nth {A} (groups : list (TimestepGroup.t A)) :
  forall pieces outs,
    mapM (fun '(group, embeddings) => TimestepGroup.replace group embeddings)
         (combine groups pieces) = Ok outs ->
    forall q o,
      nth_error outs q = Some o ->
      exists g piece,
        nth_error groups q = Some g /\ nth_error pieces q = Some piece
        /\ o = TimestepGroup.mk (TimestepGroup.name g) piece
                 (TimestepGroup.attends_to g).
Proof.
  induction groups as [|g gs IH]; intros pieces outs H q o Hq.
  - simpl in H. injection H as <-. destruct q; discriminate.
  - destruct pieces as [|e pieces].
    + simpl in H. injection H as <-. destruct q; discriminate.
    + cbn [combine mapM] in H.
      apply bind_inv in H as [o0 [Ho H]].
      apply bind_inv in H as [os [Hos H]]. injection H as <-.
      destruct q as [|q].
      * injection Hq as <-. exists g, e.
        repeat split. apply timestep_replace_inv. exact Ho.
      * cbn [nth_error] in Hq |- *. apply (IH pieces os Hos q o Hq).
Qed.

Section DisassembleItems.
Import BlockTransformer Layout RoundTrip Positions.
Context {A : Type}.
Variables batch horizon d d_out : nat.
Variable prefix_groups : list (PrefixGroup.t A).
Variable timestep_groups : list (TimestepGroup.t A).
Hypothesis Hhorizon : 0 < horizon.
Hypothesis Hprefix : Forall (prefix_shaped batch d) prefix_groups.
Hypothesis Htimestep : Forall (timestep_shaped batch horizon d) timestep_groups.

Local Abbreviation tfp := (tokens_for_prefix prefix_groups).
Local Abbreviation tpts := (tokens_per_time_step timestep_groups).
Local Abbreviation tppg := (tokens_per_prefix_group prefix_groups).
Local Abbreviation tptg := (tokens_per_timestep_group timestep_groups).

(** The tokens of output prefix group [q] are the positions
    [offset q + k] of the encoder's output, and the tokens of output
    timestep group [q] at timestep [t] are the positions
    [tokens_for_prefix + t * tokens_per_time_step + offset q + k]. *)
Lemma disassemble_items (output : ndarray A)
      (all_prefix_outputs : list (PrefixGroup.t A))
      (all_timestep_outputs : list (TimestepGroup.t A)) :
  shape output = [batch; tfp + horizon * tpts; d_out] ->
  disassemble prefix_groups timestep_groups horizon output
  = Ok (all_prefix_outputs, all_timestep_outputs) ->
  (forall q o b k c,
      nth_error all_prefix_outputs q = Some o ->
      item (PrefixGroup.tokens o) [b; k; c]
      = item output [b; offset tppg q + k; c])
  /\ (forall q o b t k c,
        nth_error all_timestep_outputs q = Some o ->
        item (TimestepGroup.tokens o) [b; t; k; c]
        = item output [b; tfp + t * tpts + (offset tptg q + k); c]).
Proof.
  intros Hout H.
  pose proof (shaped_valid_groups batch horizon d prefix_groups timestep_groups
                Hprefix Htimestep) as Hvalid.
  unfold disassemble in H.
  rewrite (tokens_per_prefix_group_Ok prefix_groups timestep_groups Hvalid) in H.
  cbn [bind] in H.
  destruct (split_from_shapes output 1 [tfp]) with (start := 0)
    (extra := horizon * tpts) as [parts [Es Hs]].
  { unfold ndim. rewrite Hout. simpl. lia. }
  { rewrite Hout, sum_cons, sum_nil. simpl. lia. }
  pose proof (split_from_items output 1 [tfp] 0 parts Es) as Hparts.
  change (cumsum_from 0 [tfp]) with [tfp] in Es.
  unfold Np.split in H. fold tfp in H. rewrite Es in H. cbn [bind] in H.
  destruct parts as [|pe [|te [|? ?]]]; try discriminate.
  simpl in Hs. injection Hs as Hpe Hte. rewrite Hout in Hpe, Hte.
  simpl in Hpe, Hte.
  pose proof (Hparts 0 pe eq_refl) as Hpe_item.
  pose proof (Hparts 1 te eq_refl) as Hte_item. clear Hparts.
  apply bind_inv in H as [outs_p [Hp H]].
  unfold rearrange_unfold in H. rewrite Hte in H.
  destruct horizon as [|h] eqn:Eh; [lia|]. rewrite <- Eh in *.
  assert (Hmod : ((horizon * tpts) mod horizon =? 0) = true).
  { apply Nat.eqb_eq. rewrite Nat.mul_comm. apply Nat.Div0.mod_mul. }
  rewrite Hmod in H. cbn [bind] in H.
  assert (Hdiv : horizon * tpts / horizon = tpts).
  { rewrite Nat.mul_comm. apply Nat.div_mul. lia. }
  rewrite Hdiv in H.
  rewrite (tokens_per_timestep_group_Ok prefix_groups timestep_groups Hvalid) in H.
  cbn [bind] in H.
  apply bind_inv in H as [pieces_t [Hsplit_t H]].
  apply bind_inv in H as [outs_t [Ht H]].
  injection H as <- <-.
  split.
  - intros q o b k c Hq.
    destruct (0 <? List.length prefix_groups) eqn:El.
    + apply bind_inv in Hp as [pieces_p [Hsplit_p Hp]].
      destruct (replace_all_prefix_nth prefix_groups pieces_p outs_p Hp q o Hq)
        as [g [piece [_ [Hpiece ->]]]].
      cbn [PrefixGroup.tokens].
      unfold split_tokens, Np.split, cumsum in Hsplit_p.
      rewrite (split_from_items pe 1 tppg 0 pieces_p Hsplit_p q piece Hpiece).
      rewrite Hpe_item. cbn [set_nth nth].
      rewrite offset_0.
      replace (k + (0 + offset tppg q) + (0 + 0)) with (offset tppg q + k) by lia.
      reflexivity.
    + injection Hp as <-. destruct q; discriminate.
  - intros q o b t k c Hq.
    destruct (replace_all_timestep_nth timestep_groups pieces_t outs_t Ht q o Hq)
      as [g [piece [_ [Hpiece ->]]]].
    cbn [TimestepGroup.tokens].
    unfold split_tokens, Np.split, cumsum in Hsplit_t.
    rewrite (split_from_items _ 2 tptg 0 pieces_t Hsplit_t q piece Hpiece).
    cbn [set_nth nth item]. rewrite Hte_item. cbn [set_nth nth].
    assert (Ho : offset [tfp] 1 = tfp).
    { unfold offset. cbn [firstn]. rewrite sum_cons, sum_nil. lia. }
    rewrite Ho.
    replace (t * tpts + (k + (0 + offset tptg q)) + (0 + tfp))
      with (tfp + t * tpts + (offset tptg q + k)) by lia.
    reflexivity.
Qed.
End DisassembleItems.

(** ** Positions through the whole forward pass *)

Lemma Forall2_strengthen {B C} (P : B -> C -> Prop) (Q : nat -> B -> C -> Prop)
      (xs : list B) (ys : list C) :
  Forall2 P xs ys ->
  (forall q x y, nth_error xs q = Some x -> nth_error ys q = Some y -> Q q x y) ->
  Forall2 (fun x y => P x y /\ exists q, nth_error xs q = Some x /\ Q q x y) xs ys.
Proof.
  intros H HQ.
  assert (G : forall pre, Forall2 P xs ys ->
            (forall q x y, nth_error xs q = Some x -> nth_error ys q = Some y ->
                           Q (List.length pre + q) x y) ->
            Forall2 (fun x y => P x y
                                /\ exists q, nth_error (pre ++ xs) q = Some x
                                             /\ Q q x y) xs ys).
  { clear. intros pre H. revert pre.
    induction H as [|x y xs ys Hxy _ IH]; intros pre HQ; constructor.
    - split; [exact Hxy|]. exists (List.length pre). split.
      + rewrite nth_error_app2 by lia. rewrite Nat.sub_diag. reflexivity.
      + rewrite <- (Nat.add_0_r (List.length pre)). apply (HQ 0); reflexivity.
    - specialize (IH (pre ++ [x])).
      rewrite <- app_assoc in IH. apply IH.
      intros q x' y' Hx Hy. rewrite length_app. simpl.
      replace (List.length pre + 1 + q) with (List.length pre + S q) by lia.
      apply HQ; assumption. }
  apply (G [] H). intros q x y Hx Hy. simpl. apply HQ; assumption.
Qed.

Section ForwardPositions.
Import BlockTransformer Layout RoundTrip Positions.
Context {A : Type}.
Variables batch horizon d : nat.
Variable prefix_groups : list (PrefixGroup.t A).
Variable timestep_groups : list (TimestepGroup.t A).
Hypothesis Hnonempty : timestep_groups <> [].
Hypothesis Hhorizon : 0 < horizon.
Hypothesis Hprefix : Forall (prefix_shaped batch d) prefix_groups.
Hypothesis Htimestep : Forall (timestep_shaped batch horizon d) timestep_groups.

Local Abbreviation tfp := (tokens_for_prefix prefix_groups).
Local Abbreviation tpts := (tokens_per_time_step timestep_groups).
Local Abbreviation tppg := (tokens_per_prefix_group prefix_groups).
Local Abbreviation tptg := (tokens_per_timestep_group timestep_groups).

(** [assemble_input_tokens] returns a sequence of shape
    [(batch, tokens_for_prefix + horizon * tokens_per_time_step, d)] that
    holds token [k] of prefix group number [q] at position [offset q + k]
    and token [k] of timestep group number [q] at timestep [t] at position
    [tokens_for_prefix + t * tokens_per_time_step + offset q + k]: the
    prefix groups first and in input order, then timestep after timestep,
    the timestep groups in input order within each. *)
Theorem assemble_input_tokens_layout (zero : A) :
  exists x,
    assemble_input_tokens zero prefix_groups timestep_groups = Ok x
    /\ shape x = [batch; tfp + horizon * tpts; d]
    /\ (forall q g b k c,
          nth_error prefix_groups q = Some g ->
          k < nth 1 (shape (PrefixGroup.tokens g)) 0 ->
          item x [b; offset tppg q + k; c]
          = item (PrefixGroup.tokens g) [b; k; c])
    /\ (forall q g b t k c,
          nth_error timestep_groups q = Some g ->
          k < nth 2 (shape (TimestepGroup.tokens g)) 0 ->
          item x [b; tfp + t * tpts + (offset tptg q + k); c]
          = item (TimestepGroup.tokens g) [b; t; k; c]).
Proof.
  exact (assemble_items batch horizon d prefix_groups timestep_groups
           Hnonempty Hprefix Htimestep zero).
Qed.

(** With an encoder that keeps the sequence length, the forward pass
    returns as many prefix and timestep groups as it was given, and the
    embedding of output group number [q] is read from the encoder's output
    [y] at exactly the positions where [assemble_input_tokens] placed the
    tokens of input group number [q]. *)
Theorem forward_pass_reads_outputs_at_input_positions
  (d_out num_attention_heads : nat) (zero : A)
  (transformer : ndarray A -> ndarray bool -> bool -> result (ndarray A))
  (timestep_pad_mask : ndarray bool) (pad_batch pad_horizon : nat)
  (train : bool) :
  shape timestep_pad_mask = [pad_batch; pad_horizon] ->
  preserves_length batch d d_out transformer ->
  exists x m y all_prefix_outputs all_timestep_outputs,
    assemble_input_tokens zero prefix_groups timestep_groups = Ok x
    /\ generate_attention_mask num_attention_heads prefix_groups
         timestep_groups timestep_pad_mask = Ok m
    /\ transformer x m train = Ok y
    /\ snd (__call__ num_attention_heads zero transformer prefix_groups
                     timestep_groups timestep_pad_mask train)
       = Ok (all_prefix_outputs, all_timestep_outputs)
    /\ List.length all_prefix_outputs = List.length prefix_groups
    /\ List.length all_timestep_outputs = List.length timestep_groups
    /\ (forall q o b k c,
          nth_error all_prefix_outputs q = Some o ->
          item (PrefixGroup.tokens o) [b; k; c]
          = item y [b; offset tppg q + k; c])
    /\ (forall q o b t k c,
          nth_error all_timestep_outputs q = Some o ->
          item (TimestepGroup.tokens o) [b; t; k; c]
          = item y [b; tfp + t * tpts + (offset tptg q + k); c]).
Proof.
  intros Hpad Henc.
  pose proof (shaped_valid_groups batch horizon d prefix_groups timestep_groups
                Hprefix Htimestep) as Hvalid.
  assert (Hc : check_horizon timestep_groups = Ok horizon).
  { apply check_horizon_passes.
    - exact (proj2 Hvalid).
    - exact Hnonempty.
    - exact (shaped_horizon batch horizon d timestep_groups Htimestep). }
  destruct (generate_attention_mask_spec prefix_groups timestep_groups Hvalid
              timestep_pad_mask pad_batch pad_horizon Hpad num_attention_heads)
    as [m [Em _]].
  destruct (assemble_input_tokens_shape batch horizon d prefix_groups
              timestep_groups Hnonempty Hprefix Htimestep zero) as [x [Ex Hx]].
  destruct (Henc x m train _ Hx) as [y [Ey Hy]].
  destruct (disassemble_shapes batch horizon d d_out prefix_groups
              timestep_groups Hhorizon Hprefix Htimestep y Hy)
    as [op [ot [Ed [Fp Ft]]]].
  destruct (disassemble_items batch horizon d d_out prefix_groups
              timestep_groups Hhorizon Hprefix Htimestep y op ot Hy Ed)
    as [Ip It].
  exists x, m, y, op, ot.
  split; [exact Ex|]. split; [exact Em|]. split; [exact Ey|].
  split.
  { rewrite call_result, Hc. cbn [bind]. rewrite Em. cbn [bind].
    rewrite Ex. cbn [bind]. rewrite Ey. cbn [bind]. exact Ed. }
  split; [symmetry; apply (Forall2_length Fp)|].
  split; [symmetry; apply (Forall2_length Ft)|].
  split; assumption.
Qed.
End ForwardPositions.

Section IdentityRoundTrip.
Import BlockTransformer Layout RoundTrip Positions.
Context {A : Type}.
Variables batch horizon d : nat.
Variable prefix_groups : list (PrefixGroup.t A).
Variable timestep_groups : list (TimestepGroup.t A).
Hypothesis Hnonempty : timestep_groups <> [].
Hypothesis Hhorizon : 0 < horizon.
Hypothesis Hprefix : Forall (prefix_shaped batch d) prefix_groups.
Hypothesis Htimestep : Forall (timestep_shaped batch horizon d) timestep_groups.

(** Assembling and splitting are inverse to each other: with the encoder
    that returns its input, the forward pass gives back every group with
    its name, [attends_to], shape and token elements, in the input order. *)
Theorem forward_pass_with_identity_encoder_returns_groups
  (num_attention_heads : nat) (zero : A)
  (timestep_pad_mask : ndarray bool) (pad_batch pad_horizon : nat)
  (train : bool) :
  shape timestep_pad_mask = [pad_batch; pad_horizon] ->
  exists all_prefix_outputs all_timestep_outputs,
    snd (__call__ num_attention_heads zero identity_encoder prefix_groups
                  timestep_groups timestep_pad_mask train)
    = Ok (all_prefix_outputs, all_timestep_outputs)
    /\ Forall2 same_prefix_group prefix_groups all_prefix_outputs
    /\ Forall2 same_timestep_group timestep_groups all_timestep_outputs.
Proof.
  intros Hpad.
  pose proof (shaped_valid_groups batch horizon d prefix_groups timestep_groups
                Hprefix Htimestep) as Hvalid.
  assert (Hc : check_horizon timestep_groups = Ok horizon).
  { apply check_horizon_passes.
    - exact (proj2 Hvalid).
    - exact Hnonempty.
    - exact (shaped_horizon batch horizon d timestep_groups Htimestep). }
  destruct (generate_attention_mask_spec prefix_groups timestep_groups Hvalid
              timestep_pad_mask pad_batch pad_horizon Hpad num_attention_heads)
    as [m [Em _]].
  destruct (assemble_items batch horizon d prefix_groups timestep_groups
              Hnonempty Hprefix Htimestep zero) as [x [Ex [Hx [Xp Xt]]]].
  destruct (disassemble_shapes batch horizon d d prefix_groups
              timestep_groups Hhorizon Hprefix Htimestep x Hx)
    as [op [ot [Ed [Fp Ft]]]].
  destruct (disassemble_items batch horizon d d prefix_groups
              timestep_groups Hhorizon Hprefix Htimestep x op ot Hx Ed)
    as [Ip It].
  exists op, ot. split.
  { rewrite call_result, Hc. cbn [bind]. rewrite Em. cbn [bind].
    rewrite Ex. cbn [bind]. unfold identity_encoder. cbn [bind]. exact Ed. }
  split.
  - eapply Forall2_impl;
      [|apply (Forall2_strengthen _
                 (fun q (g o : PrefixGroup.t A) =>
                    forall b k c,
                      item (PrefixGroup.tokens o) [b; k; c]
                      = item x [b; offset (tokens_per_prefix_group prefix_groups) q
                                   + k; c])
                 _ _ Fp)].
    + intros g o [(Hn & Ha & n & Hg & Ho) (q & Hq & Hitems)].
      repeat split; try assumption; [congruence|].
      intros b k c Hk. rewrite Hitems. apply Xp; assumption.
    + intros q g o _ Ho b k c. apply (Ip q o b k c Ho).
  - eapply Forall2_impl;
      [|apply (Forall2_strengthen _
                 (fun q (g o : TimestepGroup.t A) =>
                    forall b t k c,
                      item (TimestepGroup.tokens o) [b; t; k; c]
                      = item x [b; tokens_for_prefix prefix_groups
                                   + t * tokens_per_time_step timestep_groups
                                   + (offset (tokens_per_timestep_group
                                                timestep_groups) q + k); c])
                 _ _ Ft)].
    + intros g o [(Hn & Ha & n & Hg & Ho) (q & Hq & Hitems)].
      repeat split; try assumption; [congruence|].
      intros b t k c Hk. rewrite Hitems. apply Xt; assumption.
    + intros q g o _ Ho b t k c. apply (It q o b t k c Ho).
Qed.
End IdentityRoundTrip.

(** The layout of the assembled example: 3 task tokens, then per timestep
    2 obs tokens. *)
Lemma assemble_input_tokens_layout_witness :
  exists x,
    BlockTransformer.assemble_input_tokens 0%Q [Example.task] [Example.obs] = Ok x
    /\ shape x = [1; Layout.tokens_for_prefix [Example.task]
                     + 2 * Layout.tokens_per_time_step [Example.obs]; 4]
    /\ (forall q g b k c,
          nth_error [Example.task] q = Some g ->
          k < nth 1 (shape (PrefixGroup.tokens g)) 0 ->
          item x [b; Positions.offset
                       (Layout.tokens_per_prefix_group [Example.task]) q + k; c]
          = item (PrefixGroup.tokens g) [b; k; c])
    /\ (forall q g b t k c,
          nth_error [Example.obs] q = Some g ->
          k < nth 2 (shape (TimestepGroup.tokens g)) 0 ->
          item x [b; Layout.tokens_for_prefix [Example.task]
                     + t * Layout.tokens_per_time_step [Example.obs]
                     + (Positions.offset
                          (Layout.tokens_per_timestep_group [Example.obs]) q + k);
                  c]
          = item (TimestepGroup.tokens g) [b; t; k; c]).
Proof.
  apply (assemble_input_tokens_layout 1 2 4 [Example.task] [Example.obs]
           ltac:(discriminate)
           ltac:(repeat constructor; exists 3; reflexivity)
           ltac:(repeat constructor; exists 2; reflexivity) 0%Q).
Defined.

(** The forward pass of the example with the widening encoder. *)
Lemma forward_pass_reads_outputs_at_input_positions_witness :
  exists x m y all_prefix_outputs all_timestep_outputs,
    BlockTransformer.assemble_input_tokens 0%Q [Example.task] [Example.obs] = Ok x
    /\ BlockTransformer.generate_attention_mask 8 [Example.task] [Example.obs]
         Example.pad_mask = Ok m
    /\ Example.widen 16 x m false = Ok y
    /\ snd (BlockTransformer.__call__ 8 0%Q (Example.widen 16) [Example.task]
              [Example.obs] Example.pad_mask false)
       = Ok (all_prefix_outputs, all_timestep_outputs)
    /\ List.length all_prefix_outputs = 1
    /\ List.length all_timestep_outputs = 1
    /\ (forall q o b k c,
          nth_error all_prefix_outputs q = Some o ->
          item (PrefixGroup.tokens o) [b; k; c]
          = item y [b; Positions.offset
                         (Layout.tokens_per_prefix_group [Example.task]) q + k;
                    c])
    /\ (forall q o b t k c,
          nth_error all_timestep_outputs q = Some o ->
          item (TimestepGroup.tokens o) [b; t; k; c]
          = item y [b; Layout.tokens_for_prefix [Example.task]
                       + t * Layout.tokens_per_time_step [Example.obs]
                       + (Positions.offset
                            (Layout.tokens_per_timestep_group [Example.obs]) q
                          + k); c]).
Proof.
  apply (forward_pass_reads_outputs_at_input_positions 1 2 4
           [Example.task] [Example.obs]
           ltac:(discriminate) ltac:(lia)
           ltac:(repeat constructor; exists 3; reflexivity)
           ltac:(repeat constructor; exists 2; reflexivity)
           16 8 0%Q (Example.widen 16) Example.pad_mask 1 2 false).
  - reflexivity.
  - intros x mask train n Hx. unfold Example.widen. rewrite Hx.
    eexists; split; reflexivity.
Defined.

(** The round trip of the example groups. *)
Lemma forward_pass_with_identity_encoder_returns_groups_witness :
  exists all_prefix_outputs all_timestep_outputs,
    snd (BlockTransformer.__call__ 8 0%Q Positions.identity_encoder
           [Example.task] [Example.obs] Example.pad_mask false)
    = Ok (all_prefix_outputs, all_timestep_outputs)
    /\ Forall2 Positions.same_prefix_group [Example.task] all_prefix_outputs
    /\ Forall2 Positions.same_timestep_group [Example.obs] all_timestep_outputs.
Proof.
  apply (forward_pass_with_identity_encoder_returns_groups 1 2 4
           [Example.task] [Example.obs]
           ltac:(discriminate) ltac:(lia)
           ltac:(repeat constructor; exists 3; reflexivity)
           ltac:(repeat constructor; exists 2; reflexivity)
           8 0%Q Example.pad_mask 1 2 false).
  reflexivity.
Defined.

(** ** The bin tokenizer: tokens, bins and decoding *)

Section BinTokens.
Import BinTokenizer.
Local Open Scope Q_scope.

Lemma token_one_hot_cons (t0 t1 : Q) (rest : list Q) (x : Q) :
  token_one_hot (t0 :: t1 :: rest) x
  = Z.land (int_of_bool (lt x t1)) (int_of_bool (ge x t0))
    :: token_one_hot (t1 :: rest) x.
Proof. reflexivity. Qed.

Lemma argmax_from_lt (xs : list Z) (i best_i : nat) (best : Z) :
  (best_i < i)%nat -> (argmax_from xs i best_i best < i + List.length xs)%nat.
Proof.
  revert i best_i best. induction xs as [|x xs IH]; intros i b best Hb; simpl.
  - lia.
  - destruct (best <? x)%Z.
    + specialize (IH (S i) i x ltac:(lia)). lia.
    + specialize (IH (S i) b best ltac:(lia)). lia.
Qed.

Lemma argmax_lt (xs : list Z) (k : nat) :
  argmax xs = Ok k -> (k < List.length xs)%nat.
Proof.
  destruct xs as [|x xs]; [discriminate|]. simpl. intros H. injection H as <-.
  pose proof (argmax_from_lt xs 1 0 x ltac:(lia)). lia.
Qed.

Lemma setup_length (ppf : Q -> Q) (n_bins : nat) (bin_type : string)
      (low high : Q) (thresholds : list Q) :
  setup ppf n_bins bin_type low high = Ok thresholds ->
  List.length thresholds = S n_bins.
Proof.
  unfold setup, linspace. intros H.
  destruct (String.eqb bin_type "uniform");
    [|destruct (String.eqb bin_type "normal"); [|discriminate]];
    injection H as <-; rewrite ?length_map, length_seq; lia.
Qed.

(** Whatever the bin type and the input, the token of a tokenizer with at
    least one bin is a bin index below [n_bins]; a tokenizer with no bin
    raises [ValueError] on every input (the [argmax] of an empty vector). *)
Theorem tokens_are_bin_indices
  (ppf : Q -> Q) (n_bins : nat) (bin_type : string) (low high : Q)
  (thresholds : list Q) (inputs : Q) :
  setup ppf n_bins bin_type low high = Ok thresholds ->
  ((0 < n_bins)%nat ->
   exists token, __call__ thresholds bin_type low high inputs = Ok token
                 /\ (token < n_bins)%nat)
  /\ (n_bins = 0%nat ->
      __call__ thresholds bin_type low high inputs = Raise ValueError).
Proof.
  intros Hs. pose proof (setup_length _ _ _ _ _ _ Hs) as Hlen.
  unfold __call__.
  set (x := if String.eqb bin_type "uniform" then _ else _).
  pose proof (one_hot_length thresholds x n_bins Hlen) as Hoh.
  split.
  - intros Hn. destruct (argmax (token_one_hot thresholds x)) as [k|e] eqn:E.
    + exists k. split; [reflexivity|]. apply argmax_lt in E. lia.
    + destruct (token_one_hot thresholds x); [simpl in Hoh; lia | discriminate].
  - intros ->. destruct (token_one_hot thresholds x); [reflexivity | discriminate].
Qed.
End BinTokens.

(** A uniform tokenizer with 4 bins on [[0, 1]] and the input 3/10. *)
Lemma tokens_are_bin_indices_witness :
  exists token,
    BinTokenizer.__call__ (BinTokenizer.linspace 0 1 5) "uniform" 0%Q 1%Q (3 # 10)%Q
    = Ok token
    /\ token < 4.
Proof.
  apply (proj1 (tokens_are_bin_indices (fun q => q) 4 "uniform" 0%Q 1%Q
                  (BinTokenizer.linspace 0 1 5) (3 # 10)%Q eq_refl)).
  lia.
Defined.

(** ** Sorted thresholds and the bin of an input *)

Section Bins.
Import BinTokenizer.
Local Open Scope Q_scope.

Lemma argmax_from_le (xs : list Z) (i best_i : nat) (best : Z) :
  Forall (fun z => (z <= best)%Z) xs -> argmax_from xs i best_i best = best_i.
Proof.
  intros H. revert i. induction H as [|z xs Hz _ IH]; intros i; simpl; auto.
  assert (E : (best <? z)%Z = false) by (apply Z.ltb_ge; exact Hz).
  rewrite E. apply IH.
Qed.

Lemma argmax_from_zeros_then_one (j r i best_i : nat) :
  argmax_from (repeat 0%Z j ++ 1%Z :: repeat 0%Z r) i best_i 0%Z = (i + j)%nat.
Proof.
  revert i. induction j as [|j IH]; intros i; simpl.
  - rewrite argmax_from_le; [lia|].
    apply Forall_forall. intros z Hz. apply repeat_spec in Hz. lia.
  - rewrite IH. lia.
Qed.

(** The first index of the maximum of a unit vector is the place of its 1. *)
Lemma argmax_unit_vector (j r : nat) :
  argmax (repeat 0%Z j ++ 1%Z :: repeat 0%Z r) = Ok j.
Proof.
  destruct j as [|j]; simpl.
  - rewrite argmax_from_le; [reflexivity|].
    apply Forall_forall. intros z Hz. apply repeat_spec in Hz. lia.
  - rewrite argmax_from_zeros_then_one. reflexivity.
Qed.

Lemma sorted_head_le (t : Q) (ts : list Q) (j : nat) :
  StronglySorted Qle (t :: ts) -> (j < List.length (t :: ts))%nat ->
  t <= nth j (t :: ts) 0.
Proof.
  intros Hs Hj. destruct j as [|j]; [apply Qle_refl|].
  apply StronglySorted_inv in Hs as [_ Hall].
  rewrite Forall_forall in Hall. apply Hall. simpl. apply nth_In.
  simpl in Hj. lia.
Qed.

(** With sorted thresholds, an input inside bin [j] has the unit vector of
    [j] as its one-hot vector. *)
Lemma one_hot_of_bin (x : Q) (thresholds : list Q) :
  StronglySorted Qle thresholds ->
  forall j,
    (S j < List.length thresholds)%nat ->
    nth j thresholds 0 <= x -> x < nth (S j) thresholds 0 ->
    token_one_hot thresholds x
    = repeat 0%Z j ++ 1%Z :: repeat 0%Z (List.length thresholds - 2 - j).
Proof.
  induction thresholds as [|t0 ts IH]; intros Hs j Hj Hlo Hhi;
    [simpl in Hj; lia|].
  destruct ts as [|t1 rest]; [simpl in Hj; lia|].
  rewrite token_one_hot_cons.
  pose proof (StronglySorted_inv Hs) as [Hs' _].
  destruct j as [|j].
  - cbn [nth] in Hlo, Hhi.
    apply lt_true_iff in Hhi as Hlt. rewrite Hlt.
    unfold ge. apply Qle_bool_iff in Hlo as Hge. rewrite Hge.
    cbn [repeat app int_of_bool Z.land]. simpl Z.land. f_equal.
    assert (Hz : Forall (fun z => z = 0%Z) (token_one_hot (t1 :: rest) x)).
    { apply one_hot_all_zero. left. intros t Ht.
      eapply Qlt_le_trans; [exact Hhi|].
      destruct (In_nth _ _ 0 Ht) as [k [Hk <-]].
      apply sorted_head_le; assumption. }
    rewrite (all_zero_repeat _ Hz).
    rewrite (one_hot_length (t1 :: rest) x (List.length rest) eq_refl).
    f_equal. simpl. lia.
  - cbn [nth] in Hlo, Hhi.
    assert (Hge1 : t1 <= x).
    { eapply Qle_trans; [|exact Hlo].
      apply sorted_head_le; [exact Hs' | simpl in Hj |- *; lia]. }
    rewrite (lt_false_of_le x t1 Hge1). cbn [int_of_bool]. simpl Z.land.
    rewrite (IH Hs' j); [|simpl in Hj |- *; lia | exact Hlo | exact Hhi].
    cbn [repeat app]. do 4 f_equal. simpl. lia.
Qed.

(** With sorted thresholds, the token of an input inside bin [j] is [j]. *)
Lemma token_of_bin (x : Q) (thresholds : list Q) (j : nat) :
  StronglySorted Qle thresholds ->
  (S j < List.length thresholds)%nat ->
  nth j thresholds 0 <= x -> x < nth (S j) thresholds 0 ->
  argmax (token_one_hot thresholds x) = Ok j.
Proof.
  intros Hs Hj Hlo Hhi.
  rewrite (one_hot_of_bin x thresholds Hs j Hj Hlo Hhi).
  apply argmax_unit_vector.
Qed.

(** An input between the first and the last threshold lies in some bin. *)
Lemma bin_exists (x : Q) (thresholds : list Q) :
  hd 0 thresholds <= x -> x < last thresholds 0 ->
  exists j, (S j < List.length thresholds)%nat
            /\ nth j thresholds 0 <= x /\ x < nth (S j) thresholds 0.
Proof.
  induction thresholds as [|t0 ts IH]; intros Hlo Hhi.
  - simpl in *. exfalso. exact (Qlt_not_le _ _ Hhi Hlo).
  - destruct ts as [|t1 rest].
    + simpl in *. exfalso. exact (Qlt_not_le _ _ Hhi Hlo).
    + destruct (Qlt_le_dec x t1) as [Hlt|Hge].
      * exists 0%nat. simpl. repeat split; [lia | exact Hlo | exact Hlt].
      * destruct IH as [j [Hj [H1 H2]]]; [exact Hge | exact Hhi|].
        exists (S j). simpl in *. repeat split; [lia | exact H1 | exact H2].
Qed.
End Bins.

(** ** The thresholds of [setup] and the bin averages *)

Section Thresholds.
Import BinTokenizer.
Local Open Scope Q_scope.

Lemma sorted_map_seq (f : nat -> Q) (len start : nat) :
  (forall a b, (a <= b)%nat -> f a <= f b) ->
  StronglySorted Qle (map f (seq start len)).
Proof.
  intros Hf. revert start. induction len as [|len IH]; intros start; simpl.
  - constructor.
  - constructor; [apply IH|].
    apply Forall_forall. intros y Hy.
    apply in_map_iff in Hy as [k [<- Hk]]. apply in_seq in Hk.
    apply Hf. lia.
Qed.

Lemma sorted_map (f : Q -> Q) (xs : list Q) :
  (forall p q, p <= q -> f p <= f q) ->
  StronglySorted Qle xs -> StronglySorted Qle (map f xs).
Proof.
  intros Hf. induction 1 as [|x xs _ IH Hall]; simpl; constructor.
  - exact IH.
  - apply Forall_map. eapply Forall_impl; [|exact Hall].
    intros y Hy. apply Hf. exact Hy.
Qed.

Lemma linspace_point_mono (lo hi : Q) (n a b : nat) :
  lo <= hi -> (a <= b)%nat ->
  lo + inject_Z (Z.of_nat a) * (hi - lo) / inject_Z (Z.of_nat n)
  <= lo + inject_Z (Z.of_nat b) * (hi - lo) / inject_Z (Z.of_nat n).
Proof.
  intros Hle Hab.
  assert (HN : 0 <= / inject_Z (Z.of_nat n)).
  { apply Qinv_le_0_compat. unfold Qle. simpl. lia. }
  assert (Hk : inject_Z (Z.of_nat a) <= inject_Z (Z.of_nat b))
    by (rewrite <- Zle_Qle; lia).
  assert (HC : 0 <= hi - lo) by lra.
  unfold Qdiv. apply Qplus_le_r.
  apply Qmult_le_compat_r; [|exact HN].
  apply Qmult_le_compat_r; assumption.
Qed.

Lemma linspace_sorted (lo hi : Q) (num : nat) :
  lo <= hi -> StronglySorted Qle (linspace lo hi num).
Proof.
  intros Hle. unfold linspace. apply sorted_map_seq.
  intros a b Hab. apply linspace_point_mono; assumption.
Qed.

Lemma linspace_nth (lo hi : Q) (n k : nat) :
  (k <= n)%nat ->
  nth k (linspace lo hi (n + 1)) 0
  = lo + inject_Z (Z.of_nat k) * (hi - lo) / inject_Z (Z.of_nat n).
Proof.
  intros Hk. unfold linspace. rewrite Nat.add_sub.
  apply nth_error_nth.
  apply (map_nth_error
           (fun k : nat =>
              lo + inject_Z (Z.of_nat k) * (hi - lo) / inject_Z (Z.of_nat n))
           k (seq 0 (n + 1))).
  rewrite nth_error_seq.
  assert (E : (k <? n + 1)%nat = true) by (apply Nat.ltb_lt; lia).
  rewrite E. reflexivity.
Qed.

(** The thresholds of either bin type are sorted. *)
Lemma setup_sorted (ppf : Q -> Q) (n_bins : nat) (bin_type : string)
      (low high : Q) (thresholds : list Q) :
  (forall p q, p <= q -> ppf p <= ppf q) ->
  low <= high ->
  setup ppf n_bins bin_type low high = Ok thresholds ->
  StronglySorted Qle thresholds.
Proof.
  intros Hmono Hle. unfold setup.
  destruct (String.eqb bin_type "uniform").
  - intros H. injection H as <-. apply linspace_sorted. exact Hle.
  - destruct (String.eqb bin_type "normal"); [|discriminate].
    intros H. injection H as <-. apply sorted_map; [exact Hmono|].
    apply linspace_sorted. unfold EPS. lra.
Qed.

Lemma bin_avgs_cons (t0 t1 : Q) (rest : list Q) :
  bin_avgs (t0 :: t1 :: rest) = ((t1 + t0) / 2) :: bin_avgs (t1 :: rest).
Proof. reflexivity. Qed.

Lemma qsum_zero_products (avgs : list Q) (idx : list nat) (k : Z) :
  (forall i, In i idx -> Z.of_nat i <> k) ->
  qsum (map (fun '(o, a) => o * a)
            (combine (map (fun i => if (Z.of_nat i =? k)%Z then 1 else 0) idx)
                     avgs)) == 0.
Proof.
  revert avgs. induction idx as [|i idx IH]; intros avgs H; [reflexivity|].
  destruct avgs as [|a avgs]; [reflexivity|].
  cbn [map combine qsum fold_right].
  destruct (Z.eqb_spec (Z.of_nat i) k) as [E|E];
    [exfalso; apply (H i); [left; reflexivity | exact E]|].
  change (fold_right Qplus 0 ?l) with (qsum l).
  rewrite IH by (intros j Hj; apply H; right; exact Hj). lra.
Qed.

(** The sum in [decode] picks the average of the bin of the token. *)
Lemma decode_sum (k : nat) (thresholds : list Q) :
  forall start len,
    List.length thresholds = S len ->
    (k < len)%nat ->
    qsum (map (fun '(o, a) => o * a)
              (combine (map (fun i => if (Z.of_nat i =? Z.of_nat (start + k))%Z
                                      then 1 else 0)
                            (seq start len))
                       (bin_avgs thresholds)))
    == (nth (S k) thresholds 0 + nth k thresholds 0) / 2.
Proof.
  revert k. induction thresholds as [|t0 ts IH]; intros k start len Hlen Hk;
    [discriminate|].
  destruct ts as [|t1 rest]; [simpl in Hlen; lia|].
  destruct len as [|len]; [lia|].
  rewrite bin_avgs_cons. cbn [seq map combine qsum fold_right].
  change (fold_right Qplus 0 ?l) with (qsum l).
  destruct k as [|k].
  - rewrite Nat.add_0_r, Z.eqb_refl.
    rewrite qsum_zero_products; [cbn [nth]; lra|].
    intros i Hi. apply in_seq in Hi. lia.
  - assert (E : (Z.of_nat start =? Z.of_nat (start + S k))%Z = false)
      by (apply Z.eqb_neq; lia).
    rewrite E.
    replace (start + S k)%nat with (S start + k)%nat by lia.
    rewrite (IH k (S start) len);
      [cbn [nth]; lra | simpl in Hlen |- *; lia | lia].
Qed.

(** [decode] on a token that is a bin index. *)
Lemma decode_of_bin
  (ppf : Q -> Q) (n_bins : nat) (bin_type : string) (low high : Q)
  (thresholds : list Q) (token : Z) :
  setup ppf n_bins bin_type low high = Ok thresholds ->
  (0 <= token < Z.of_nat n_bins)%Z ->
  decode thresholds n_bins token
  == (nth (S (Z.to_nat token)) thresholds 0
      + nth (Z.to_nat token) thresholds 0) / 2.
Proof.
  intros Hs Hk. pose proof (setup_length _ _ _ _ _ _ Hs) as Hlen.
  unfold decode, one_hot.
  pose proof (decode_sum (Z.to_nat token) thresholds 0 n_bins Hlen
                ltac:(lia)) as H.
  cbn [plus] in H. rewrite Z2Nat.id in H by lia. exact H.
Qed.

(** [decode] returns the average of the two thresholds of the bin of a
    token below [n_bins], and 0 for every other token. *)
Theorem decode_is_bin_average
  (ppf : Q -> Q) (n_bins : nat) (bin_type : string) (low high : Q)
  (thresholds : list Q) (token : Z) :
  setup ppf n_bins bin_type low high = Ok thresholds ->
  ((0 <= token < Z.of_nat n_bins)%Z ->
   decode thresholds n_bins token
   == (nth (S (Z.to_nat token)) thresholds 0
       + nth (Z.to_nat token) thresholds 0) / 2)
  /\ ((token < 0 \/ Z.of_nat n_bins <= token)%Z ->
      decode thresholds n_bins token == 0).
Proof.
  intros Hs. split.
  - intros Hk. exact (decode_of_bin ppf n_bins bin_type low high thresholds
                        token Hs Hk).
  - intros Hk. unfold decode, one_hot. apply qsum_zero_products.
    intros i Hi. apply in_seq in Hi. lia.
Qed.
End Thresholds.

(** Decoding token 1 of a uniform tokenizer with 4 bins on [[0, 1]]. *)
Lemma decode_is_bin_average_witness :
  (BinTokenizer.decode (BinTokenizer.linspace 0 1 5) 4 1
   == (nth 2 (BinTokenizer.linspace 0 1 5) 0
       + nth 1 (BinTokenizer.linspace 0 1 5) 0) / 2)%Q.
Proof.
  apply (proj1 (decode_is_bin_average (fun q => q) 4 "uniform" 0%Q 1%Q
                  (BinTokenizer.linspace 0 1 5) 1%Z eq_refl)).
  lia.
Defined.

(** ** Tokenizing inside the range, clipping and round trips *)

Section InRange.
Import BinTokenizer.
Local Open Scope Q_scope.

Lemma clip_bounds (x lo hi : Q) : lo <= hi -> lo <= clip x lo hi <= hi.
Proof.
  intros H. unfold clip. split.
  - apply Q.min_glb; [apply Q.le_max_r | exact H].
  - apply Q.le_min_r.
Qed.

Lemma clip_below (x lo hi : Q) : x <= lo -> clip x lo hi <= lo.
Proof.
  intros H. unfold clip.
  eapply Qle_trans; [apply Q.le_min_l|].
  apply Q.max_lub; [exact H | apply Qle_refl].
Qed.

Lemma clip_above (x lo hi : Q) : hi <= x -> hi <= clip x lo hi.
Proof.
  intros H. unfold clip. apply Q.min_glb; [|apply Qle_refl].
  eapply Qle_trans; [exact H | apply Q.le_max_l].
Qed.

(** The token of an input that lies in some bin of sorted thresholds, and
    the place of the decoded token. *)
Lemma token_and_decode_in_bin (ppf : Q -> Q) (n_bins : nat) (bin_type : string)
      (low high : Q) (thresholds : list Q) (x : Q) :
  setup ppf n_bins bin_type low high = Ok thresholds ->
  StronglySorted Qle thresholds ->
  hd 0 thresholds <= x -> x < last thresholds 0 ->
  exists token,
    argmax (token_one_hot thresholds x) = Ok token
    /\ (token < n_bins)%nat
    /\ nth token thresholds 0 <= x < nth (S token) thresholds 0
    /\ nth token thresholds 0
       <= decode thresholds n_bins (Z.of_nat token)
       <= nth (S token) thresholds 0.
Proof.
  intros Hs Hsorted Hlo Hhi.
  pose proof (setup_length _ _ _ _ _ _ Hs) as Hlen.
  destruct (bin_exists x thresholds Hlo Hhi) as [j [Hj [H1 H2]]].
  exists j. split; [apply token_of_bin; assumption|].
  split; [lia|]. split; [split; assumption|].
  pose proof (decode_of_bin ppf n_bins bin_type low high thresholds
                (Z.of_nat j) Hs) as Hd.
  rewrite Hd by lia. rewrite Nat2Z.id.
  assert (Hle : nth j thresholds 0 <= nth (S j) thresholds 0).
  { eapply Qle_trans; [exact H1 | apply Qlt_le_weak; exact H2]. }
  revert Hle. generalize (nth j thresholds 0) (nth (S j) thresholds 0).
  intros a b Hab. unfold Qdiv. change (/ 2) with (1 # 2). split; lra.
Qed.

(** With bin type ["normal"] and a non-decreasing quantile function, an
    input from the first threshold up to but excluding the last one gets
    the token of the bin that contains it, and decoding that token gives a
    value of the same bin. *)
Theorem normal_token_is_containing_bin
  (ppf : Q -> Q) (n_bins : nat) (low high : Q)
  (thresholds : list Q) (inputs : Q) :
  (forall p q, p <= q -> ppf p <= ppf q) ->
  setup ppf n_bins "normal" low high = Ok thresholds ->
  hd 0 thresholds <= inputs -> inputs < last thresholds 0 ->
  exists token,
    __call__ thresholds "normal" low high inputs = Ok token
    /\ (token < n_bins)%nat
    /\ nth token thresholds 0 <= inputs < nth (S token) thresholds 0
    /\ nth token thresholds 0
       <= decode thresholds n_bins (Z.of_nat token)
       <= nth (S token) thresholds 0.
Proof.
  intros Hmono Hs Hlo Hhi.
  assert (Hsorted : StronglySorted Qle thresholds).
  { unfold setup in Hs. simpl in Hs. injection Hs as <-.
    apply sorted_map; [exact Hmono|]. apply linspace_sorted. unfold EPS. lra. }
  exact (token_and_decode_in_bin ppf n_bins "normal" low high thresholds inputs
           Hs Hsorted Hlo Hhi).
Qed.

End InRange.

(** A normal tokenizer with the identity as quantile function and 4 bins,
    on the input 1/2. *)
Lemma normal_token_is_containing_bin_witness :
  let thresholds :=
    map (fun q : Q => q)
        (BinTokenizer.linspace BinTokenizer.EPS (1 - BinTokenizer.EPS)%Q 5) in
  exists token,
    BinTokenizer.__call__ thresholds "normal" 0%Q 1%Q (1 # 2)%Q = Ok token
    /\ token < 4
    /\ (nth token thresholds 0 <= 1 # 2 < nth (S token) thresholds 0)%Q
    /\ (nth token thresholds 0
        <= BinTokenizer.decode thresholds 4 (Z.of_nat token)
        <= nth (S token) thresholds 0)%Q.
Proof.
  apply (normal_token_is_containing_bin (fun q => q) 4 0%Q 1%Q _ (1 # 2)%Q).
  - intros p q H. exact H.
  - reflexivity.
  - vm_compute. discriminate.
  - vm_compute. reflexivity.
Defined.

Section RoundTrips.
Import BinTokenizer.
Local Open Scope Q_scope.

(** Decoding a token and tokenizing the result gives the token back: for
    bin type ["normal"] whenever the bin of the token is not empty. *)
Theorem normal_tokenize_after_decode
  (ppf : Q -> Q) (n_bins : nat) (low high : Q)
  (thresholds : list Q) (token : nat) :
  (forall p q, p <= q -> ppf p <= ppf q) ->
  setup ppf n_bins "normal" low high = Ok thresholds ->
  (token < n_bins)%nat ->
  nth token thresholds 0 < nth (S token) thresholds 0 ->
  __call__ thresholds "normal" low high
           (decode thresholds n_bins (Z.of_nat token)) = Ok token.
Proof.
  intros Hmono Hs Hk Hbin.
  assert (Hsorted : StronglySorted Qle thresholds).
  { unfold setup in Hs. simpl in Hs. injection Hs as <-.
    apply sorted_map; [exact Hmono|]. apply linspace_sorted. unfold EPS. lra. }
  pose proof (setup_length _ _ _ _ _ _ Hs) as Hlen.
  pose proof (decode_of_bin ppf n_bins "normal" low high thresholds
                (Z.of_nat token) Hs) as Hd.
  specialize (Hd ltac:(lia)). rewrite Nat2Z.id in Hd.
  unfold __call__. simpl String.eqb. cbv iota.
  apply token_of_bin; [exact Hsorted | lia | |]; rewrite Hd;
    revert Hbin; generalize (nth token thresholds 0) (nth (S token) thresholds 0);
    intros a b Hab; unfold Qdiv; change (/ 2) with (1 # 2); lra.
Qed.
End RoundTrips.

(** Token 2 of a normal tokenizer with the identity as quantile function. *)
Lemma normal_tokenize_after_decode_witness :
  let thresholds :=
    map (fun q : Q => q)
        (BinTokenizer.linspace BinTokenizer.EPS (1 - BinTokenizer.EPS)%Q 5) in
  BinTokenizer.__call__ thresholds "normal" 0%Q 1%Q
    (BinTokenizer.decode thresholds 4 (Z.of_nat 2)) = Ok 2.
Proof.
  apply (normal_tokenize_after_decode (fun q => q) 4 0%Q 1%Q _ 2).
  - intros p q H. exact H.
  - reflexivity.
  - lia.
  - vm_compute. reflexivity.
Defined.

(** ** The uniform branch on the stored values *)

Section UniformBranch.
Import BinTokenizer.
Local Open Scope Q_scope.

(** [__call__] with bin type ["uniform"] is [call_uniform] at the
    unrounded clip bounds. *)
Lemma call_uniform_unrounded (thresholds : list Q) (low high inputs : Q) :
  __call__ thresholds "uniform" low high inputs
  = call_uniform thresholds (low + EPS) (high - EPS) inputs.
Proof. reflexivity. Qed.

Lemma last_nth_length (ts : list Q) (n : nat) :
  List.length ts = S n -> last ts 0 = nth n ts 0.
Proof.
  revert n. induction ts as [|t ts IH]; intros n H; [discriminate|].
  destruct ts as [|u us].
  - simpl in H. injection H as <-. reflexivity.
  - destruct n as [|n]; [discriminate|].
    change (last (t :: u :: us) 0) with (last (u :: us) 0).
    change (nth (S n) (t :: u :: us) 0) with (nth n (u :: us) 0).
    apply IH. simpl in H |- *. lia.
Qed.

Lemma sorted_le_last (ts : list Q) (t : Q) :
  StronglySorted Qle ts -> In t ts -> t <= last ts 0.
Proof.
  revert t. induction ts as [|u us IH]; intros t Hs Hin; [destruct Hin|].
  apply StronglySorted_inv in Hs as [Hs' Hall].
  destruct us as [|v vs].
  - destruct Hin as [<-|[]]. apply Qle_refl.
  - change (last (u :: v :: vs) 0) with (last (v :: vs) 0).
    destruct Hin as [<-|Hin]; [|apply IH; assumption].
    rewrite Forall_forall in Hall.
    eapply Qle_trans; [apply (Hall v); left; reflexivity|].
    apply IH; [exact Hs' | left; reflexivity].
Qed.

(** A value at or beyond the last threshold has an all-zero one-hot vector
    and gets token 0. *)
Lemma token_zero_outside (thresholds : list Q) (n_bins : nat) (x : Q) :
  List.length thresholds = S n_bins -> (0 < n_bins)%nat ->
  StronglySorted Qle thresholds ->
  last thresholds 0 <= x ->
  argmax (token_one_hot thresholds x) = Ok 0%nat.
Proof.
  intros Hlen Hn Hs Hx.
  assert (Hz : Forall (fun z => z = 0%Z) (token_one_hot thresholds x)).
  { apply one_hot_all_zero. right. intros t Ht.
    eapply Qle_trans; [apply sorted_le_last; eassumption | exact Hx]. }
  rewrite (all_zero_repeat _ Hz), (one_hot_length thresholds x n_bins Hlen).
  apply argmax_zeros. exact Hn.
Qed.

(** The uniform branch, whatever rounding produced the stored thresholds
    and clip bounds: for non-decreasing thresholds and clip bounds in
    order, the clipped input lies between the bounds, and when it lies
    from the first threshold up to but excluding the last one, the token
    is the index of the bin that contains the clipped input. *)
Theorem uniform_token_is_bin_of_clipped_input
  (n_bins : nat) (thresholds : list Q) (a_min a_max inputs : Q) :
  List.length thresholds = S n_bins ->
  StronglySorted Qle thresholds ->
  a_min <= a_max ->
  hd 0 thresholds <= clip inputs a_min a_max ->
  clip inputs a_min a_max < last thresholds 0 ->
  a_min <= clip inputs a_min a_max <= a_max
  /\ exists token,
       call_uniform thresholds a_min a_max inputs = Ok token
       /\ (token < n_bins)%nat
       /\ nth token thresholds 0 <= clip inputs a_min a_max
          < nth (S token) thresholds 0.
Proof.
  intros Hlen Hs Hb Hlo Hhi.
  split; [apply clip_bounds; exact Hb|].
  destruct (bin_exists (clip inputs a_min a_max) thresholds Hlo Hhi)
    as [j [Hj [H1 H2]]].
  exists j. split; [|split; [lia | split; assumption]].
  unfold call_uniform. apply token_of_bin; assumption.
Qed.

(** Inputs outside the clip bounds, whatever rounding produced the stored
    thresholds and clip bounds.  An input at or below the lower bound gets
    token 0 when the lower bound lies in the first bin.  An input at or
    above the upper bound gets the last token [n_bins - 1] when the upper
    bound lies in the last bin, that is strictly below the last
    threshold; but when the upper bound has reached the last threshold
    (as happens when [high - EPS] rounds to [high]), such an input gets
    token 0, the token of the lowest bin. *)
Theorem uniform_out_of_range_tokens
  (n_bins : nat) (thresholds : list Q) (a_min a_max inputs : Q) :
  List.length thresholds = S n_bins ->
  (0 < n_bins)%nat ->
  StronglySorted Qle thresholds ->
  a_min <= a_max ->
  (inputs <= a_min ->
   hd 0 thresholds <= a_min -> a_min < nth 1 thresholds 0 ->
   call_uniform thresholds a_min a_max inputs = Ok 0%nat)
  /\ (a_max <= inputs ->
      nth (n_bins - 1) thresholds 0 <= a_max -> a_max < last thresholds 0 ->
      call_uniform thresholds a_min a_max inputs = Ok (n_bins - 1)%nat)
  /\ (a_max <= inputs ->
      last thresholds 0 <= a_max ->
      call_uniform thresholds a_min a_max inputs = Ok 0%nat).
Proof.
  intros Hlen Hn Hs Hb.
  pose proof (clip_bounds inputs a_min a_max Hb) as [Hc1 Hc2].
  unfold call_uniform. split; [|split].
  - intros Hx Hhd H1.
    pose proof (clip_below inputs a_min a_max Hx) as Hc.
    apply token_of_bin; [exact Hs | lia | |].
    + destruct thresholds as [|t ts]; [discriminate|]. simpl in Hhd |- *.
      eapply Qle_trans; [exact Hhd | exact Hc1].
    + eapply Qle_lt_trans; [exact Hc | exact H1].
  - intros Hx Hlo Hhi.
    rewrite (last_nth_length thresholds n_bins Hlen) in Hhi.
    apply token_of_bin; [exact Hs | lia | |].
    + eapply Qle_trans; [exact Hlo | apply clip_above; exact Hx].
    + replace (S (n_bins - 1)) with n_bins by lia.
      eapply Qle_lt_trans; [exact Hc2 | exact Hhi].
  - intros Hx Hlast.
    apply (token_zero_outside thresholds n_bins _ Hlen Hn Hs).
    eapply Qle_trans; [exact Hlast | apply clip_above; exact Hx].
Qed.
End UniformBranch.

(** Four bins on [[0, 1]] with the clip bounds [0 + EPS] and [1 - EPS] as
    single precision holds them: the input 7 is clipped to the upper
    bound. *)
Lemma uniform_token_is_bin_of_clipped_input_witness :
  let thresholds := [0; 1 # 4; 1 # 2; 3 # 4; 1]%Q in
  let a_min := (8796093 # 8796093022208)%Q in
  let a_max := (16777199 # 16777216)%Q in
  (a_min <= BinTokenizer.clip 7 a_min a_max <= a_max)%Q
  /\ exists token,
       BinTokenizer.call_uniform thresholds a_min a_max 7%Q = Ok token
       /\ token < 4
       /\ (nth token thresholds 0 <= BinTokenizer.clip 7 a_min a_max
           < nth (S token) thresholds 0)%Q.
Proof.
  apply (uniform_token_is_bin_of_clipped_input 4
           [0; 1 # 4; 1 # 2; 3 # 4; 1]%Q (8796093 # 8796093022208)%Q
           (16777199 # 16777216)%Q 7%Q).
  - reflexivity.
  - repeat constructor; vm_compute; discriminate.
  - vm_compute. discriminate.
  - vm_compute. discriminate.
  - vm_compute. reflexivity.
Defined.

(** Four bins on [[0, 255]], where [255 - EPS] is 255 in single
    precision: the input -3 gets token 0, and so does the input 300.  Four
    bins on [[0, 1]], where [1 - EPS] stays below 1: the input 7 gets the
    last token. *)
Lemma uniform_out_of_range_tokens_witness :
  BinTokenizer.call_uniform [0; 255 # 4; 255 # 2; 765 # 4; 255]%Q
    (8796093 # 8796093022208)%Q 255%Q (-3)%Q = Ok 0
  /\ BinTokenizer.call_uniform [0; 1 # 4; 1 # 2; 3 # 4; 1]%Q
       (8796093 # 8796093022208)%Q (16777199 # 16777216)%Q 7%Q = Ok (4 - 1)
  /\ BinTokenizer.call_uniform [0; 255 # 4; 255 # 2; 765 # 4; 255]%Q
       (8796093 # 8796093022208)%Q 255%Q 300%Q = Ok 0.
Proof.
  split; [|split].
  - apply (proj1 (uniform_out_of_range_tokens 4
                    [0; 255 # 4; 255 # 2; 765 # 4; 255]%Q
                    (8796093 # 8796093022208)%Q 255%Q (-3)%Q eq_refl ltac:(lia)
                    ltac:(repeat constructor; vm_compute; discriminate)
                    ltac:(vm_compute; discriminate)));
      vm_compute; try discriminate; reflexivity.
  - apply (proj1 (proj2 (uniform_out_of_range_tokens 4
                    [0; 1 # 4; 1 # 2; 3 # 4; 1]%Q
                    (8796093 # 8796093022208)%Q (16777199 # 16777216)%Q 7%Q eq_refl ltac:(lia)
                    ltac:(repeat constructor; vm_compute; discriminate)
                    ltac:(vm_compute; discriminate))));
      vm_compute; try discriminate; reflexivity.
  - apply (proj2 (proj2 (uniform_out_of_range_tokens 4
                    [0; 255 # 4; 255 # 2; 765 # 4; 255]%Q
                    (8796093 # 8796093022208)%Q 255%Q 300%Q eq_refl ltac:(lia)
                    ltac:(repeat constructor; vm_compute; discriminate)
                    ltac:(vm_compute; discriminate))));
      vm_compute; try discriminate; reflexivity.
Defined.

(** ** The mixture resolver: skipping, failing, flags and trimming *)

Section ResolverProperties.
Import OxeMixes MixSpec.
Variable registry : string -> option dataset_kwargs.
Variable data_dir : string.
Variables n_third_person_cameras n_wrist_cameras : Z.
Variables load_depth load_proprio : bool.

Local Abbreviation run W data_mix deduplicate :=
  (@make_oxe_dataset_kwargs_and_weights W registry data_mix data_dir deduplicate
     n_third_person_cameras n_wrist_cameras load_depth load_proprio).
Local Abbreviation config W :=
  (@MixSpec.config_of W data_dir n_third_person_cameras n_wrist_cameras
     load_depth load_proprio).

Lemma supported_entries {W} (data_mix : list (string * W)) :
  Forall (fun e => let '(n, _, kw) := e in
                   registry n = Some kw /\ action_encoding kw = EEF_POS)
         (supported registry data_mix).
Proof.
  induction data_mix as [|[n w] rest IH]; [constructor|].
  cbn [supported]. destruct (registry n) as [kw|] eqn:Er; [|exact IH].
  destruct (is_not_EEF_POS (action_encoding kw)) eqn:Ee; [exact IH|].
  constructor; [|exact IH]. split; [exact Er|].
  destruct (action_encoding kw); [reflexivity | discriminate].
Qed.

(** When every dataset of the mix is registered, the resolver returns two
    lists of equal length which, paired up, are the entries of the mix
    (of its first occurrences when [deduplicate] is set) whose dataset has
    the supported encoding, in their order: entries with another encoding
    are left out of both lists, and every returned configuration has the
    supported encoding, the given [data_dir], and is built from the
    registry entry of its name. *)
Theorem resolver_keeps_supported_entries_in_lockstep
  (W : Type) (data_mix : list (string * W)) (deduplicate : bool) :
  (forall p, In p data_mix -> registry (fst p) <> None) ->
  exists configs weights,
    make_oxe_dataset_kwargs_and_weights registry data_mix data_dir deduplicate
      n_third_person_cameras n_wrist_cameras load_depth load_proprio
    = Ok (configs, weights)
    /\ List.length configs = List.length weights
    /\ combine (map r_name configs) weights
       = filter (is_supported registry)
                (if deduplicate then first_occurrences data_mix else data_mix)
    /\ Forall (fun c => r_action_encoding c = EEF_POS
                        /\ r_data_dir c = data_dir
                        /\ exists kw, registry (r_name c) = Some kw
                                      /\ action_encoding kw = EEF_POS)
              configs.
Proof.
  intros Hreg.
  set (mix' := if deduplicate then first_occurrences data_mix else data_mix).
  assert (E : run W data_mix deduplicate
              = Ok (map (config W) (supported registry mix'),
                    map (@weight_of W) (supported registry mix'))).
  { unfold mix'. destruct deduplicate.
    - apply make_deduplicated. exact Hreg.
    - apply make_not_deduplicated. exact Hreg. }
  exists (map (config W) (supported registry mix')),
         (map (@weight_of W) (supported registry mix')).
  split; [exact E|]. split; [rewrite !length_map; reflexivity|]. split.
  - rewrite map_map, combine_map. apply supported_is_filter.
  - apply Forall_map. eapply Forall_impl; [|apply supported_entries].
    intros [[n w] kw] [Hr He]. simpl. repeat split; try assumption.
    exists kw. split; assumption.
Qed.

Lemma resolve_loop_unregistered {W} (data_mix : list (string * W)) :
  (exists p, In p data_mix /\ registry (fst p) = None) ->
  forall data_kwargs_list weights,
    resolve_loop registry data_mix data_dir n_third_person_cameras
      n_wrist_cameras load_depth load_proprio data_kwargs_list weights
    = Raise KeyError.
Proof.
  induction data_mix as [|[n w] rest IH]; intros [p [Hin Hp]] ks ws;
    [destruct Hin|].
  cbn [resolve_loop]. unfold lookup.
  destruct (registry n) as [kw|] eqn:Er; [|reflexivity].
  cbn [bind].
  assert (Hrest : exists p, In p rest /\ registry (fst p) = None).
  { destruct Hin as [<-|Hin]; [simpl in Hp; congruence|]. exists p. auto. }
  destruct (is_not_EEF_POS (action_encoding kw)); apply IH; exact Hrest.
Qed.

Lemma first_occurrences_keeps_names {W} (data_mix : list (string * W)) (n : string) :
  In n (map fst data_mix) -> In n (map fst (first_occurrences data_mix)).
Proof.
  induction data_mix as [|[m w] rest IH]; [tauto|].
  cbn [map fst first_occurrences]. intros [H|H]; [left; exact H|].
  destruct (String.eqb_spec n m) as [->|Hne]; [left; reflexivity|].
  right. apply IH in H. apply in_map_iff in H as [q [Hq Hin]].
  apply in_map_iff. exists q. split; [exact Hq|].
  apply filter_In. split; [exact Hin|].
  rewrite Hq. apply negb_true_iff. apply String.eqb_neq. exact Hne.
Qed.

(** A dataset name that is not in the registry makes the whole resolution
    fail with [KeyError], with or without deduplication and wherever the
    name stands in the mix: no list is returned, not even for the entries
    before it. *)
Theorem resolver_raises_on_unregistered_dataset
  (W : Type) (data_mix : list (string * W)) (deduplicate : bool)
  (dataset : string) :
  In dataset (map fst data_mix) ->
  registry dataset = None ->
  make_oxe_dataset_kwargs_and_weights registry data_mix data_dir deduplicate
    n_third_person_cameras n_wrist_cameras load_depth load_proprio
  = Raise KeyError.
Proof.
  intros Hin Hnone. unfold make_oxe_dataset_kwargs_and_weights.
  apply resolve_loop_unregistered.
  assert (Hin' : In dataset
                    (map fst (if deduplicate then first_occurrences data_mix
                              else data_mix))).
  { destruct deduplicate; [|exact Hin].
    apply first_occurrences_keeps_names. exact Hin. }
  rewrite dedup_loop_first_occurrences.
  apply in_map_iff in Hin' as [p [Hp Hin']].
  exists p. split; [exact Hin' | rewrite Hp; exact Hnone].
Qed.

(** The depth keys of every resolved dataset are trimmed with the same
    counts as the image keys, or absent when [load_depth] is off; the
    proprioception keys are the registered ones, or absent when
    [load_proprio] is off. *)
Theorem resolver_depth_and_proprio_flags
  (W : Type) (data_mix : list (string * W)) (deduplicate : bool) :
  (forall p, In p data_mix -> registry (fst p) <> None) ->
  exists configs weights,
    make_oxe_dataset_kwargs_and_weights registry data_mix data_dir deduplicate
      n_third_person_cameras n_wrist_cameras load_depth load_proprio
    = Ok (configs, weights)
    /\ Forall (fun c =>
                 exists kw,
                   registry (r_name c) = Some kw
                   /\ r_depth_obs_keys c
                      = (if load_depth
                         then Some (trim_keys (depth_obs_keys kw)
                                      n_third_person_cameras n_wrist_cameras)
                         else None)
                   /\ r_state_obs_keys c
                      = (if load_proprio then Some (state_obs_keys kw) else None))
              configs.
Proof.
  intros Hreg.
  set (mix' := if deduplicate then first_occurrences data_mix else data_mix).
  assert (E : run W data_mix deduplicate
              = Ok (map (config W) (supported registry mix'),
                    map (@weight_of W) (supported registry mix'))).
  { unfold mix'. destruct deduplicate.
    - apply make_deduplicated. exact Hreg.
    - apply make_not_deduplicated. exact Hreg. }
  eexists; eexists; split; [exact E|].
  apply Forall_map. eapply Forall_impl; [|apply supported_entries].
  intros [[n w] kw] [Hr He]. simpl. exists kw. split; [exact Hr|].
  destruct load_depth, load_proprio; split; reflexivity.
Qed.

Lemma first_occurrences_nodup {W} (data_mix : list (string * W)) :
  NoDup (map fst data_mix) -> first_occurrences data_mix = data_mix.
Proof.
  induction data_mix as [|[n w] rest IH]; [reflexivity|].
  cbn [map fst first_occurrences]. intros Hnd.
  inversion Hnd as [|? ? Hnotin Hnd']; subst.
  rewrite (IH Hnd'). f_equal.
  apply forallb_filter_id. apply forallb_forall.
  intros [m v] Hin. simpl. apply negb_true_iff. apply String.eqb_neq.
  intros ->. apply Hnotin. apply in_map_iff. exists (n, v). auto.
Qed.

(** On a mix in which no dataset name occurs twice, deduplication changes
    nothing: both settings of [deduplicate] give the same result. *)
Theorem deduplicate_is_noop_without_duplicates
  (W : Type) (data_mix : list (string * W)) :
  NoDup (map fst data_mix) ->
  make_oxe_dataset_kwargs_and_weights registry data_mix data_dir true
    n_third_person_cameras n_wrist_cameras load_depth load_proprio
  = make_oxe_dataset_kwargs_and_weights registry data_mix data_dir false
      n_third_person_cameras n_wrist_cameras load_depth load_proprio.
Proof.
  intros Hnd. unfold make_oxe_dataset_kwargs_and_weights.
  rewrite dedup_loop_first_occurrences, (first_occurrences_nodup _ Hnd).
  reflexivity.
Qed.
End ResolverProperties.

Section TrimKeys.
Import OxeMixes MixSpec.

Lemma NoDup_skipn {B} (n : nat) (xs : list B) : NoDup xs -> NoDup (skipn n xs).
Proof.
  revert n. induction xs as [|x xs IH]; intros [|n] H; simpl; auto.
  apply IH. inversion H; assumption.
Qed.

Lemma In_firstn {B} (n : nat) (xs : list B) (x : B) :
  In x (firstn n xs) -> In x xs.
Proof.
  revert n. induction xs as [|y xs IH]; intros [|n]; simpl; try tauto.
  intros [H|H]; [left; exact H | right; apply (IH n); exact H].
Qed.

Lemma In_skipn {B} (n : nat) (xs : list B) (x : B) :
  In x (skipn n xs) -> In x xs.
Proof.
  revert n. induction xs as [|y xs IH]; intros [|n]; simpl; try tauto.
  intros H. right. apply (IH n). exact H.
Qed.

(** A front part and a back part that do not overlap have no common key. *)
Lemma NoDup_firstn_skipn {B} (xs : list B) :
  forall a b, a <= b -> NoDup xs -> NoDup (firstn a xs ++ skipn b xs).
Proof.
  induction xs as [|x xs IH]; intros a b Hab Hnd.
  - rewrite firstn_nil, skipn_nil. constructor.
  - destruct a as [|a].
    + simpl firstn. simpl app. apply NoDup_skipn. exact Hnd.
    + destruct b as [|b]; [lia|].
      inversion Hnd as [|? ? Hnotin Hnd']; subst.
      simpl. constructor.
      * intros Hin. apply Hnotin. apply in_app_or in Hin as [Hin|Hin].
        -- apply (In_firstn a). exact Hin.
        -- apply (In_skipn b). exact Hin.
      * apply IH; [lia | exact Hnd'].
Qed.

(** For non-negative camera counts the trimmed list has
    [min(n_third_person_cameras, len) + min(n_wrist_cameras, len)] keys.
    When the two counts together do not exceed the number of keys, the
    trimmed keys of a duplicate-free list are duplicate-free; when the
    front part and the back part overlap, a key is listed twice. *)
Theorem trim_keys_length_and_overlap
  (keys : list string) (n_third_person_cameras n_wrist_cameras : Z) :
  (0 <= n_third_person_cameras)%Z -> (0 <= n_wrist_cameras)%Z ->
  let n3 := Z.to_nat n_third_person_cameras in
  let nw := Z.to_nat n_wrist_cameras in
  let len := List.length keys in
  let trimmed := trim_keys keys n_third_person_cameras n_wrist_cameras in
  List.length trimmed = Nat.min n3 len + Nat.min nw len
  /\ (n3 + nw <= len -> NoDup keys -> NoDup trimmed)
  /\ (len < Nat.min n3 len + Nat.min nw len -> ~ NoDup trimmed).
Proof.
  intros H3 Hw n3 nw len trimmed.
  assert (Ht : trimmed = firstn n3 keys ++ skipn (len - nw) keys).
  { unfold trimmed. rewrite (trim_keys_counts _ _ keys H3 Hw). f_equal.
    destruct (Z.ltb_spec 0 n_wrist_cameras) as [Hpos|Hz]; [reflexivity|].
    assert (n_wrist_cameras = 0)%Z by lia. subst n_wrist_cameras.
    unfold nw. simpl. rewrite Nat.sub_0_r. unfold len.
    rewrite skipn_all. reflexivity. }
  assert (Hlen : List.length trimmed = Nat.min n3 len + Nat.min nw len).
  { rewrite Ht, length_app, length_firstn, length_skipn. fold len. lia. }
  split; [exact Hlen|]. split.
  - intros Hfit Hnd. rewrite Ht.
    apply NoDup_firstn_skipn; [lia | exact Hnd].
  - intros Hover Hnd.
    assert (Hincl : incl trimmed keys).
    { rewrite Ht. intros x Hx. apply in_app_or in Hx as [Hx|Hx].
      - apply (In_firstn n3). exact Hx.
      - apply (In_skipn (len - nw)). exact Hx. }
    pose proof (NoDup_incl_length Hnd Hincl) as Hle. fold len in Hle. lia.
Qed.
End TrimKeys.

(** A dataset with a single camera and one camera of each kind requested:
    the key is listed twice. *)
Lemma trim_keys_length_and_overlap_witness :
  let trimmed := OxeMixes.trim_keys ["image"%string] 1 1 in
  List.length trimmed = Nat.min 1 1 + Nat.min 1 1
  /\ (1 + 1 <= 1 -> NoDup ["image"%string] -> NoDup trimmed)
  /\ (1 < Nat.min 1 1 + Nat.min 1 1 -> ~ NoDup trimmed).
Proof.
  apply (trim_keys_length_and_overlap ["image"%string] 1 1); lia.
Defined.

(** The example registry on a mix with a dataset of another encoding. *)
Lemma resolver_keeps_supported_entries_in_lockstep_witness :
  exists configs weights,
    OxeMixes.make_oxe_dataset_kwargs_and_weights MixSpec.registry
      [("a", 1%Q); ("joints", 5%Q); ("b", 2%Q); ("a", 3%Q)]%string
      "gs://data" true 1 0 true true
    = Ok (configs, weights)
    /\ List.length configs = List.length weights
    /\ combine (map OxeMixes.r_name configs) weights
       = filter (MixSpec.is_supported MixSpec.registry)
                (MixSpec.first_occurrences
                   [("a", 1%Q); ("joints", 5%Q); ("b", 2%Q); ("a", 3%Q)]%string)
    /\ Forall (fun c => OxeMixes.r_action_encoding c = OxeMixes.EEF_POS
                        /\ OxeMixes.r_data_dir c = "gs://data"%string
                        /\ exists kw,
                             MixSpec.registry (OxeMixes.r_name c) = Some kw
                             /\ OxeMixes.action_encoding kw = OxeMixes.EEF_POS)
              configs.
Proof.
  apply (resolver_keeps_supported_entries_in_lockstep MixSpec.registry
           "gs://data" 1 0 true true Q
           [("a", 1%Q); ("joints", 5%Q); ("b", 2%Q); ("a", 3%Q)]%string true).
  intros p [<-|[<-|[<-|[<-|[]]]]]; discriminate.
Defined.

(** A mix that names a dataset the example registry does not have. *)
Lemma resolver_raises_on_unregistered_dataset_witness :
  OxeMixes.make_oxe_dataset_kwargs_and_weights MixSpec.registry
    [("a", 1%Q); ("unknown", 2%Q)]%string "gs://data" true 1 0 true true
  = Raise KeyError.
Proof.
  apply (resolver_raises_on_unregistered_dataset MixSpec.registry
           "gs://data" 1 0 true true Q
           [("a", 1%Q); ("unknown", 2%Q)]%string true "unknown").
  - right. left. reflexivity.
  - reflexivity.
Defined.

(** The example registry without depth and without proprioception. *)
Lemma resolver_depth_and_proprio_flags_witness :
  exists configs weights,
    OxeMixes.make_oxe_dataset_kwargs_and_weights MixSpec.registry
      MixSpec.mix_with_duplicate "gs://data" true 1 1 false false
    = Ok (configs, weights)
    /\ Forall (fun c =>
                 exists kw,
                   MixSpec.registry (OxeMixes.r_name c) = Some kw
                   /\ OxeMixes.r_depth_obs_keys c
                      = (if false
                         then Some (OxeMixes.trim_keys
                                      (OxeMixes.depth_obs_keys kw) 1 1)
                         else None)
                   /\ OxeMixes.r_state_obs_keys c
                      = (if false then Some (OxeMixes.state_obs_keys kw)
                         else None))
              configs.
Proof.
  apply (resolver_depth_and_proprio_flags MixSpec.registry "gs://data" 1 1
           false false Q MixSpec.mix_with_duplicate true).
  intros p [<-|[<-|[<-|[]]]]; discriminate.
Defined.

(** A mix without duplicates on the example registry. *)
Lemma deduplicate_is_noop_without_duplicates_witness :
  OxeMixes.make_oxe_dataset_kwargs_and_weights MixSpec.registry
    [("a", 1%Q); ("b", 2%Q)]%string "gs://data" true 1 0 true true
  = OxeMixes.make_oxe_dataset_kwargs_and_weights MixSpec.registry
      [("a", 1%Q); ("b", 2%Q)]%string "gs://data" false 1 0 true true.
Proof.
  apply (deduplicate_is_noop_without_duplicates MixSpec.registry "gs://data"
           1 0 true true Q [("a", 1%Q); ("b", 2%Q)]%string).
  repeat constructor; simpl; intuition discriminate.
Defined.

(* ================================================================== *)
(** ** [ImageTokenizer.extract_inputs] *)

Section SortedKeys.
Import ImageTokenizer.

Lemma key_le_trans (a b c : string) : key_le a b -> key_le b c -> key_le a c.
Proof.
  unfold key_le, String.leb. intros Hab Hbc.
  destruct (String.compare a b) eqn:Eab; try discriminate.
  - apply String.compare_eq_iff in Eab. subst. exact Hbc.
  - destruct (String.compare b c) eqn:Ebc; try discriminate.
    + apply String.compare_eq_iff in Ebc. subst. rewrite Eab. reflexivity.
    + apply OrderedTypeEx.String_as_OT.cmp_lt in Eab, Ebc.
      pose proof (OrderedTypeEx.String_as_OT.lt_trans _ _ _ Eab Ebc) as H.
      apply OrderedTypeEx.String_as_OT.cmp_lt in H.
      unfold OrderedTypeEx.String_as_OT.cmp in H. rewrite H. reflexivity.
Qed.

Lemma insort_perm (k : string) (ks : list string) :
  Permutation (insort k ks) (k :: ks).
Proof.
  induction ks as [|k' ks IH]; simpl.
  - apply Permutation_refl.
  - destruct (String.leb k k').
    + apply Permutation_refl.
    + eapply perm_trans; [apply perm_skip; exact IH | apply perm_swap].
Qed.

Lemma sorted_perm (ks : list string) : Permutation (sorted ks) ks.
Proof.
  induction ks as [|k ks IH]; simpl.
  - apply perm_nil.
  - eapply perm_trans; [apply insort_perm | apply perm_skip; exact IH].
Qed.

Lemma insort_sorted (k : string) (ks : list string) :
  StronglySorted key_le ks -> StronglySorted key_le (insort k ks).
Proof.
  induction ks as [|k' ks IH]; intros Hs; simpl.
  - constructor; constructor.
  - inversion Hs as [|? ? Hs' Hall]; subst.
    destruct (String.leb k k') eqn:E.
    + constructor; [exact Hs|]. constructor; [exact E|].
      eapply Forall_impl; [|exact Hall].
      intros x Hx. apply (key_le_trans k k' x); assumption.
    + constructor; [apply IH; exact Hs'|].
      apply (Permutation_Forall (Permutation_sym (insort_perm k ks))).
      constructor; [|exact Hall].
      destruct (String.leb_total k k') as [H|H]; [congruence | exact H].
Qed.

Lemma sorted_sorted (ks : list string) : StronglySorted key_le (sorted ks).
Proof.
  induction ks as [|k ks IH]; simpl.
  - constructor.
  - apply insort_sorted. exact IH.
Qed.

(** Two ascending lists with the same elements are equal. *)
Lemma sorted_unique (l1 l2 : list string) :
  StronglySorted key_le l1 -> StronglySorted key_le l2 ->
  Permutation l1 l2 -> l1 = l2.
Proof.
  revert l2. induction l1 as [|a l1 IH]; intros l2 H1 H2 Hp.
  - apply Permutation_nil in Hp. subst. reflexivity.
  - destruct l2 as [|b l2].
    + apply Permutation_sym, Permutation_nil in Hp. discriminate.
    + inversion H1 as [|? ? H1' Ha]; subst.
      inversion H2 as [|? ? H2' Hb]; subst.
      assert (Hab : a = b).
      { assert (Ia : In a (b :: l2))
          by (apply (Permutation_in a Hp); left; reflexivity).
        assert (Ib : In b (a :: l1))
          by (apply (Permutation_in b (Permutation_sym Hp)); left; reflexivity).
        destruct Ia as [->|Ia]; [reflexivity|].
        destruct Ib as [->|Ib]; [reflexivity|].
        rewrite Forall_forall in Ha, Hb.
        apply String.leb_antisym; [apply Ha; exact Ib | apply Hb; exact Ia]. }
      subst b. f_equal. apply IH; try assumption.
      apply (Permutation_cons_inv Hp).
Qed.

Lemma sorted_permutation (ks ks' : list string) :
  Permutation ks ks' -> sorted ks = sorted ks'.
Proof.
  intros Hp. apply sorted_unique; try apply sorted_sorted.
  eapply perm_trans; [apply sorted_perm|].
  eapply perm_trans; [exact Hp|]. apply Permutation_sym, sorted_perm.
Qed.

End SortedKeys.

Lemma Forall2_In_left {B C} {R : B -> C -> Prop} {xs : list B} {ys : list C} {x : B} :
  Forall2 R xs ys -> In x xs -> exists y, In y ys /\ R x y.
Proof.
  induction 1 as [|x' y' xs ys Hr _ IH]; intros Hin; [destruct Hin|].
  destruct Hin as [->|Hin].
  - exists y'. split; [left; reflexivity | exact Hr].
  - destruct (IH Hin) as [y [Hy HR]]. exists y. split; [right; exact Hy | exact HR].
Qed.

Lemma Forall2_In_right {B C} {R : B -> C -> Prop} {xs : list B} {ys : list C} {y : C} :
  Forall2 R xs ys -> In y ys -> exists x, In x xs /\ R x y.
Proof.
  induction 1 as [|x' y' xs ys Hr _ IH]; intros Hin; [destruct Hin|].
  destruct Hin as [->|Hin].
  - exists x'. split; [left; reflexivity | exact Hr].
  - destruct (IH Hin) as [x [Hx HR]]. exists x. split; [right; exact Hx | exact HR].
Qed.

Section ExtractInputsProperties.
Import ImageTokenizer.
Variable A : Type.
Variable re_match : string -> string -> bool.

Local Abbreviation dict := (ImageTokenizer.dict A).

Lemma dict_getitem_Ok_In (inputs : dict) (k : string) (v : ndarray A) :
  dict_getitem inputs k = Ok v -> In (k, v) inputs.
Proof.
  unfold dict_getitem. destruct (find _ inputs) as [[k' v']|] eqn:E; [|discriminate].
  intros H. inversion H; subst. apply find_some in E as [Hin Heq].
  simpl in Heq. apply String.eqb_eq in Heq. subst. exact Hin.
Qed.

Lemma dict_getitem_In (inputs : dict) (k : string) (v : ndarray A) :
  NoDup (keys inputs) -> In (k, v) inputs -> dict_getitem inputs k = Ok v.
Proof.
  unfold dict_getitem, keys.
  induction inputs as [|[k' v'] inputs IH]; intros Hnd Hin; [destruct Hin|].
  simpl in Hnd. inversion Hnd as [|? ? Hnotin Hnd']; subst.
  simpl. destruct (String.eqb_spec k' k) as [->|Hne].
  - destruct Hin as [Heq|Hin].
    + inversion Heq; subst. reflexivity.
    + exfalso. apply Hnotin. apply (in_map fst) in Hin. exact Hin.
  - destruct Hin as [Heq|Hin].
    + inversion Heq; subst. congruence.
    + apply IH; assumption.
Qed.

Lemma dict_getitem_missing (inputs : dict) (k : string) :
  ~ In k (keys inputs) -> dict_getitem inputs k = Raise KeyError.
Proof.
  intros Hnotin. unfold dict_getitem.
  destruct (find _ inputs) as [[k' v']|] eqn:E; [|reflexivity].
  exfalso. apply find_some in E as [Hin Heq]. simpl in Heq.
  apply String.eqb_eq in Heq. subst. apply Hnotin.
  apply (in_map fst) in Hin. exact Hin.
Qed.

Lemma dict_getitem_present (inputs : dict) (k : string) :
  In k (keys inputs) -> exists v, dict_getitem inputs k = Ok v.
Proof.
  intros Hin. unfold dict_getitem.
  destruct (find _ inputs) as [[k' v']|] eqn:E; [eexists; reflexivity|].
  exfalso. apply in_map_iff in Hin as [[k' v'] [Hk Hin]]. simpl in Hk. subst.
  pose proof (find_none _ _ E _ Hin) as Hf. simpl in Hf.
  rewrite String.eqb_refl in Hf. discriminate.
Qed.

(** A dict read by key does not depend on the insertion order. *)
Lemma dict_getitem_perm (inputs inputs' : dict) :
  NoDup (keys inputs) -> Permutation inputs inputs' ->
  forall k, dict_getitem inputs k = dict_getitem inputs' k.
Proof.
  intros Hnd Hp k.
  assert (Hpk : Permutation (keys inputs) (keys inputs'))
    by (apply Permutation_map; exact Hp).
  assert (Hnd' : NoDup (keys inputs'))
    by (apply (Permutation_NoDup Hpk); exact Hnd).
  destruct (in_dec string_dec k (keys inputs)) as [Hin|Hnotin].
  - destruct (dict_getitem_present inputs k Hin) as [v Hv].
    rewrite Hv. symmetry. apply dict_getitem_In; [exact Hnd'|].
    apply (Permutation_in _ Hp). apply dict_getitem_Ok_In. exact Hv.
  - rewrite (dict_getitem_missing inputs k Hnotin).
    symmetry. apply dict_getitem_missing. intros Hin. apply Hnotin.
    apply (Permutation_in _ (Permutation_sym Hpk)). exact Hin.
Qed.

Lemma extract_keys_ext (inputs inputs' : dict) (check_spatial : bool)
  (matching : list string) :
  (forall k, dict_getitem inputs k = dict_getitem inputs' k) ->
  forall acc, extract_keys inputs check_spatial matching acc
              = extract_keys inputs' check_spatial matching acc.
Proof.
  intros Hext. induction matching as [|key rest IH]; intros acc; simpl.
  - reflexivity.
  - rewrite (Hext key). destruct (dict_getitem inputs' key) as [v|e].
    + destruct check_spatial; cbn [bind].
      * destruct (assert_ _); cbn [bind]; [apply IH | reflexivity].
      * apply IH.
    + destruct check_spatial; reflexivity.
Qed.

(** What the inner loop computes on keys of the dict. *)
Lemma extract_keys_spec (inputs : dict) (check_spatial : bool)
  (matching : list string) :
  incl matching (keys inputs) ->
  exists vs,
    Forall2 (fun k v => dict_getitem inputs k = Ok v) matching vs
    /\ forall acc,
         extract_keys inputs check_spatial matching acc
         = if check_spatial && existsb (@not_spatial A) vs
           then Raise AssertionError else Ok (acc ++ vs).
Proof.
  induction matching as [|key rest IH]; intros Hincl.
  - exists []. split; [constructor|]. intros acc. simpl.
    rewrite andb_false_r, app_nil_r. reflexivity.
  - destruct (dict_getitem_present inputs key) as [v Hv].
    { apply Hincl. left. reflexivity. }
    destruct IH as [vs [Hvs Hrun]].
    { intros x Hx. apply Hincl. right. exact Hx. }
    exists (v :: vs). split; [constructor; assumption|].
    intros acc. cbn [extract_keys existsb]. rewrite Hv.
    unfold not_spatial at 1.
    destruct check_spatial; cbn [bind andb].
    + destruct (4 <=? List.length (shape v)); unfold assert_;
        cbn [bind negb orb]; [|reflexivity].
      rewrite Hrun. cbn [andb]. rewrite <- app_assoc. reflexivity.
    + rewrite Hrun. cbn [andb]. rewrite <- app_assoc. reflexivity.
Qed.

(** What the two loops compute. *)
Lemma extract_patterns_spec (regex_keys : list string) (inputs : dict)
  (check_spatial : bool) :
  exists vs,
    Forall2 (fun k v => dict_getitem inputs k = Ok v)
            (visited re_match regex_keys (sorted (keys inputs))) vs
    /\ forall acc,
         extract_patterns re_match regex_keys inputs check_spatial acc
         = if check_spatial && existsb (@not_spatial A) vs
           then Raise AssertionError else Ok (acc ++ vs).
Proof.
  induction regex_keys as [|r_key rest IH].
  - exists []. split; [constructor|]. intros acc. simpl.
    rewrite andb_false_r, app_nil_r. reflexivity.
  - destruct (extract_keys_spec inputs check_spatial
                (filter (re_match r_key) (sorted (keys inputs))))
      as [vs1 [H1 Hrun1]].
    { intros x Hx. apply filter_In in Hx as [Hx _].
      apply (Permutation_in _ (sorted_perm (keys inputs))). exact Hx. }
    destruct IH as [vs2 [H2 Hrun2]].
    exists (vs1 ++ vs2). split.
    + simpl. apply Forall2_app; assumption.
    + intros acc. simpl extract_patterns. rewrite Hrun1.
      rewrite existsb_app.
      destruct check_spatial; cbn [andb].
      * destruct (existsb (@not_spatial A) vs1); cbn [bind orb]; [reflexivity|].
        rewrite Hrun2. cbn [andb]. rewrite app_assoc. reflexivity.
      * cbn [bind]. rewrite Hrun2. cbn [andb]. rewrite app_assoc. reflexivity.
Qed.

Lemma visited_In (regex_keys ks : list string) (k : string) :
  In k (visited re_match regex_keys ks)
  <-> exists r_key, In r_key regex_keys /\ In k ks /\ re_match r_key k = true.
Proof.
  unfold visited. rewrite in_flat_map. split.
  - intros [r [Hr Hk]]. apply filter_In in Hk as [Hk Hm]. exists r. auto.
  - intros [r [Hr [Hk Hm]]]. exists r. split; [exact Hr|].
    apply filter_In. auto.
Qed.

(** The inputs come out in ascending key order whatever the order in which
    the dict was filled: two dicts with the same items give the same
    result, including the same exception. *)
Theorem extract_inputs_ignores_insertion_order
  (regex_keys : list string) (inputs inputs' : dict) (check_spatial : bool) :
  NoDup (keys inputs) ->
  Permutation inputs inputs' ->
  extract_inputs re_match regex_keys inputs check_spatial
  = extract_inputs re_match regex_keys inputs' check_spatial.
Proof.
  intros Hnd Hp. unfold extract_inputs.
  pose proof (dict_getitem_perm inputs inputs' Hnd Hp) as Hext.
  assert (Hs : sorted (keys inputs) = sorted (keys inputs'))
    by (apply sorted_permutation, Permutation_map; exact Hp).
  generalize (@nil (ndarray A)).
  induction regex_keys as [|r_key rest IH]; intros acc; simpl; [reflexivity|].
  rewrite <- Hs.
  rewrite (extract_keys_ext inputs inputs' check_spatial _ Hext).
  destruct (extract_keys inputs' check_spatial _ acc); cbn [bind];
    [apply IH | reflexivity].
Qed.

(** With [check_spatial] the call fails with an [AssertionError] exactly
    when some input whose key matches one of the patterns has fewer than
    four dimensions; inputs that no pattern matches are not checked, and
    no other exception is raised. *)
Theorem extract_inputs_checks_only_matched_inputs
  (regex_keys : list string) (inputs : dict) :
  NoDup (keys inputs) ->
  (extract_inputs re_match regex_keys inputs true = Raise AssertionError
   <-> exists r_key key v,
         In r_key regex_keys /\ In (key, v) inputs
         /\ re_match r_key key = true /\ List.length (shape v) < 4)
  /\ (forall e, extract_inputs re_match regex_keys inputs true = Raise e ->
                e = AssertionError).
Proof.
  intros Hnd. unfold extract_inputs.
  destruct (extract_patterns_spec regex_keys inputs true) as [vs [Hvs Hrun]].
  rewrite Hrun. cbn [andb]. split; [split|].
  - destruct (existsb (@not_spatial A) vs) eqn:E; [|discriminate].
    intros _. apply existsb_exists in E as [v [Hv Hbad]].
    destruct (Forall2_In_right Hvs Hv) as [key [Hkey Hget]].
    apply visited_In in Hkey as [r [Hr [_ Hm]]].
    exists r, key, v. repeat split; try assumption.
    + apply dict_getitem_Ok_In. exact Hget.
    + unfold not_spatial in Hbad. apply negb_true_iff, Nat.leb_gt in Hbad.
      exact Hbad.
  - intros [r [key [v [Hr [Hin [Hm Hrank]]]]]].
    assert (Hvis : In key (visited re_match regex_keys (sorted (keys inputs)))).
    { apply visited_In. exists r. repeat split; try assumption.
      apply (Permutation_in _ (Permutation_sym (sorted_perm (keys inputs)))).
      apply (in_map fst) in Hin. exact Hin. }
    destruct (Forall2_In_left Hvs Hvis) as [v' [Hv' Hget]].
    rewrite (dict_getitem_In inputs key v Hnd Hin) in Hget. inversion Hget; subst v'.
    assert (E : existsb (@not_spatial A) vs = true).
    { apply existsb_exists. exists v. split; [exact Hv'|].
      unfold not_spatial. apply negb_true_iff, Nat.leb_gt. exact Hrank. }
    rewrite E. reflexivity.
  - intros e. destruct (existsb (@not_spatial A) vs); intros H; inversion H.
    reflexivity.
Qed.

(** When no check fails, the result lists, pattern after pattern, the
    inputs whose key matches the pattern, in ascending key order; an input
    matched by several patterns is listed once for each of them. *)
Theorem extract_inputs_lists_matches_per_pattern_in_key_order
  (regex_keys : list string) (inputs : dict) (check_spatial : bool) :
  NoDup (keys inputs) ->
  (check_spatial = true ->
   forall r_key key v,
     In r_key regex_keys -> In (key, v) inputs -> re_match r_key key = true ->
     4 <= List.length (shape v)) ->
  exists ks outs,
    Permutation ks (keys inputs)
    /\ StronglySorted key_le ks
    /\ extract_inputs re_match regex_keys inputs check_spatial = Ok outs
    /\ Forall2 (fun key v => In (key, v) inputs)
               (flat_map (fun r_key => filter (re_match r_key) ks) regex_keys)
               outs.
Proof.
  intros Hnd Hok. unfold extract_inputs.
  destruct (extract_patterns_spec regex_keys inputs check_spatial)
    as [vs [Hvs Hrun]].
  exists (sorted (keys inputs)), vs.
  split; [apply sorted_perm|]. split; [apply sorted_sorted|]. split.
  - rewrite Hrun.
    destruct check_spatial; cbn [andb]; [|reflexivity].
    destruct (existsb (@not_spatial A) vs) eqn:E; [|reflexivity].
    exfalso. apply existsb_exists in E as [v [Hv Hbad]].
    destruct (Forall2_In_right Hvs Hv) as [key [Hkey Hget]].
    apply visited_In in Hkey as [r [Hr [_ Hm]]].
    apply dict_getitem_Ok_In in Hget.
    pose proof (Hok eq_refl r key v Hr Hget Hm) as Hrank.
    unfold not_spatial in Hbad. apply negb_true_iff, Nat.leb_gt in Hbad. lia.
  - eapply Forall2_impl; [|exact Hvs].
    intros key v Hget. apply dict_getitem_Ok_In. exact Hget.
Qed.

End ExtractInputsProperties.

(** The same three observations inserted in two different orders. *)
Lemma extract_inputs_ignores_insertion_order_witness :
  ImageTokenizer.extract_inputs Observations.literal_match ["image_"%string]
    Observations.observations true
  = ImageTokenizer.extract_inputs Observations.literal_match ["image_"%string]
      Observations.observations_reordered true.
Proof.
  apply (extract_inputs_ignores_insertion_order nat Observations.literal_match
           ["image_"%string] Observations.observations
           Observations.observations_reordered true).
  - repeat constructor; simpl; intuition discriminate.
  - apply Permutation_sym.
    exact (Permutation_cons_append
             [("image_wrist"%string, Observations.image_wrist);
              ("proprio"%string, Observations.proprio)]
             ("image_primary"%string, Observations.image_primary)).
Defined.

(** Patterns that also select the three-dimensional proprioception. *)
Lemma extract_inputs_checks_only_matched_inputs_witness :
  (ImageTokenizer.extract_inputs Observations.literal_match
     ["image_"; "prop"]%string Observations.observations true
   = Raise AssertionError
   <-> exists r_key key v,
         In r_key ["image_"; "prop"]%string
         /\ In (key, v) Observations.observations
         /\ Observations.literal_match r_key key = true
         /\ List.length (shape v) < 4)
  /\ (forall e,
        ImageTokenizer.extract_inputs Observations.literal_match
          ["image_"; "prop"]%string Observations.observations true
        = Raise e -> e = AssertionError).
Proof.
  apply (extract_inputs_checks_only_matched_inputs nat
           Observations.literal_match ["image_"; "prop"]%string
           Observations.observations).
  repeat constructor; simpl; intuition discriminate.
Defined.

(** Two overlapping image patterns: the primary image is listed twice. *)
Lemma extract_inputs_lists_matches_per_pattern_in_key_order_witness :
  exists ks outs,
    Permutation ks (ImageTokenizer.keys Observations.observations)
    /\ StronglySorted ImageTokenizer.key_le ks
    /\ ImageTokenizer.extract_inputs Observations.literal_match
         ["image_"; "image_p"]%string Observations.observations true
       = Ok outs
    /\ Forall2 (fun key v => In (key, v) Observations.observations)
               (flat_map (fun r_key =>
                            filter (Observations.literal_match r_key) ks)
                         ["image_"; "image_p"]%string)
               outs.
Proof.
  apply (extract_inputs_lists_matches_per_pattern_in_key_order nat
           Observations.literal_match ["image_"; "image_p"]%string
           Observations.observations true).
  - repeat constructor; simpl; intuition discriminate.
  - intros _ r_key key v Hr Hin Hm.
    destruct Hin as [Heq|[Heq|[Heq|[]]]]; inversion Heq; subst; simpl;
      try lia.
    destruct Hr as [<-|[<-|[]]]; vm_compute in Hm; discriminate Hm.
Defined.
